(** * cloudflare-worker-rollbar: scrubber, stack parser and client

    A shallow embedding of [src/client.ts] ([scrubObject], [scrubHeaders]
    and the [Rollbar] class), of the stack parser ([parseStackLine],
    [parseStackFrames], [getErrorLocation]) and of the client of version 1
    (the class [Rollbar] with [error] and [message]).

    - JavaScript strings are [string]s of ASCII characters; [toLowerCase],
      [trim] and the regular-expression classes are the ASCII fragments of
      the corresponding JavaScript operations.
    - Objects live in a store ([gmap loc obj]); a reference is a [loc], so
      identity (what a [WeakSet] observes) and value are kept apart.
    - Numbers are integers; the scrubbers never look inside a number.
    - Exceptions are an explicit [outcome]; console output and network
      calls are a trace of events. *)

From Stdlib Require Import Ascii String NArith.
From stdpp Require Import base option list gmap sets strings.

Local Open Scope string_scope.
Local Open Scope list_scope.
#[local] Set Warnings "-clear-no-such-hyp".

(** ** JavaScript string primitives *)

Module Js.

Definition is_upper (c : ascii) : bool :=
  let n := nat_of_ascii c in (65 <=? n)%nat && (n <=? 90)%nat.

Definition lower_char (c : ascii) : ascii :=
  if is_upper c then ascii_of_nat (nat_of_ascii c + 32) else c.

(** [String.prototype.toLowerCase] *)
Fixpoint toLowerCase (s : string) : string :=
  match s with
  | EmptyString => EmptyString
  | String c s' => String (lower_char c) (toLowerCase s')
  end.

(** Every character of the string is an ASCII character.  On such strings
    [toLowerCase] above is [String.prototype.toLowerCase]; on others the
    JavaScript function also folds the letters beyond ASCII. *)
Definition is_ascii (s : string) : bool :=
  forallb (fun c => (nat_of_ascii c <? 128)%nat) (list_ascii_of_string s).

(** [String.prototype.startsWith] *)
Fixpoint startsWith (s p : string) {struct p} : bool :=
  match p, s with
  | EmptyString, _ => true
  | String a p', String b s' => if Ascii.eqb a b then startsWith s' p' else false
  | String _ _, EmptyString => false
  end.

(** [String.prototype.includes] *)
Fixpoint includes (s sub : string) : bool :=
  startsWith s sub ||
  match s with
  | EmptyString => false
  | String _ s' => includes s' sub
  end.

(** White space and line terminators, as [trim] and [\s] see them. *)
Definition is_space (c : ascii) : bool :=
  let n := nat_of_ascii c in
  ((9 <=? n)%nat && (n <=? 13)%nat) || (n =? 32)%nat.

Fixpoint trimStart (s : string) : string :=
  match s with
  | String c s' => if is_space c then trimStart s' else s
  | EmptyString => EmptyString
  end.

Fixpoint trimEnd (s : string) : string :=
  match s with
  | EmptyString => EmptyString
  | String c s' =>
      match trimEnd s' with
      | EmptyString => if is_space c then EmptyString else String c EmptyString
      | t => String c t
      end
  end.

(** [String.prototype.trim] *)
Definition trim (s : string) : string := trimEnd (trimStart s).

(** [s.split(sep)] for a one-character separator. *)
Fixpoint split (sep : ascii) (s : string) : list string :=
  match s with
  | EmptyString => [EmptyString]
  | String c s' =>
      if Ascii.eqb c sep then EmptyString :: split sep s'
      else match split sep s' with
           | cur :: rest => String c cur :: rest
           | [] => [String c EmptyString]
           end
  end.

Definition is_digit (c : ascii) : bool :=
  let n := nat_of_ascii c in (48 <=? n)%nat && (n <=? 57)%nat.

Definition digit_value (c : ascii) : N := N.of_nat (nat_of_ascii c - 48).

(** The value of a run of decimal digits, as an integer. *)
Definition decimal (s : string) : N :=
  fold_left (fun acc c => (10 * acc + digit_value c)%N) (list_ascii_of_string s) 0%N.

(** The double nearest to an integer, ties going to the even significand
    (a double holds 53 significant bits): what the Number value of an
    integer below 2^1024 is. *)
Definition to_double (n : N) : N :=
  if (n <? 2 ^ 53)%N then n
  else
    let e := (N.log2 n - 52)%N in
    let q := N.shiftr n e in
    let r := N.land n (N.ones e) in
    let half := N.shiftl 1 (e - 1) in
    let up := (half <? r)%N || ((r =? half)%N && N.odd q) in
    N.shiftl (if up then q + 1 else q)%N e.

(** [parseInt(s, 10)] on a string of decimal digits: a Number, the double
    nearest to the value of the digits, which is that value itself below
    2^53.  A run whose value reaches 2^1024 (309 digits or more) gives
    [Infinity], which the model does not hold. *)
Definition parseInt (s : string) : N := to_double (decimal s).

(** Truthiness of an optional string: [undefined] and [''] are falsy. *)
Definition truthy (o : option string) : bool :=
  match o with
  | Some EmptyString | None => false
  | Some _ => true
  end.

(** [o || d] on an optional string. *)
Definition or_else (o : option string) (d : string) : string :=
  match o with
  | Some EmptyString | None => d
  | Some s => s
  end.

Definition newline : ascii := ascii_of_nat 10.
Definition nl : string := String newline EmptyString.

End Js.

(** ** Regular expressions: the fragment the stack parser uses

    A backtracking matcher in continuation-passing style.  All three
    patterns of [stack-parser.ts] open with [^] and are used without the
    [g] flag, so a match can only start at index 0: [exec] tries that index
    alone and the [^] is left implicit. *)

Module Regex.

Inductive group := Gmethod | Gfilename | Glineno | Gcolno.

(** [ParsedGroups] of [stack-parser.ts]: the named groups of a match,
    [None] for a group that did not take part. *)
Record ParsedGroups := mkGroups {
  g_method : option string;
  g_filename : option string;
  g_lineno : option string;
  g_colno : option string;
}.

Definition no_groups : ParsedGroups := mkGroups None None None None.

Definition set_group (n : group) (v : string) (g : ParsedGroups) : ParsedGroups :=
  match n with
  | Gmethod => mkGroups (Some v) (g_filename g) (g_lineno g) (g_colno g)
  | Gfilename => mkGroups (g_method g) (Some v) (g_lineno g) (g_colno g)
  | Glineno => mkGroups (g_method g) (g_filename g) (Some v) (g_colno g)
  | Gcolno => mkGroups (g_method g) (g_filename g) (g_lineno g) (Some v)
  end.

Inductive regex :=
| REps                                         (* the empty pattern *)
| RLit (c : ascii)                             (* a literal character *)
| RClass (p : ascii -> bool)                   (* one character of a class *)
| RStar (p : ascii -> bool)                    (* class*  (greedy) *)
| RPlus (p : ascii -> bool) (greedy : bool)    (* class+ or class+? *)
| RSeq (r1 r2 : regex)
| ROpt (r : regex)                             (* r?  (greedy) *)
| RGroup (n : group) (r : regex)               (* (?<n>r) *)
| REnd.                                        (* $ *)

(** Repetition of a one-character class: the greedy form takes the longest
    run first and gives characters back, the lazy form the shortest. *)
Fixpoint rep (p : ascii -> bool) (greedy : bool) (s : string)
    (k : string -> option ParsedGroups) : option ParsedGroups :=
  match s with
  | String c s' =>
      if p c then
        if greedy then
          match rep p greedy s' k with
          | Some g => Some g
          | None => k s
          end
        else
          match k s with
          | Some g => Some g
          | None => rep p greedy s' k
          end
      else k s
  | EmptyString => k s
  end.

(** The part of [s] consumed when the rest of the input is [s']. *)
Definition consumed (s s' : string) : string :=
  substring 0 (String.length s - String.length s') s.

Fixpoint run (r : regex) (s : string) (g : ParsedGroups)
    (k : string -> ParsedGroups -> option ParsedGroups) : option ParsedGroups :=
  match r with
  | REps => k s g
  | RLit c =>
      match s with
      | String c' s' => if Ascii.eqb c c' then k s' g else None
      | EmptyString => None
      end
  | RClass p =>
      match s with
      | String c' s' => if p c' then k s' g else None
      | EmptyString => None
      end
  | RStar p => rep p true s (fun s' => k s' g)
  | RPlus p greedy =>
      match s with
      | String c' s' => if p c' then rep p greedy s' (fun s'' => k s'' g) else None
      | EmptyString => None
      end
  | RSeq r1 r2 => run r1 s g (fun s' g' => run r2 s' g' k)
  | ROpt r' =>
      match run r' s g k with
      | Some g' => Some g'
      | None => k s g
      end
  | RGroup n r' => run r' s g (fun s' g' => k s' (set_group n (consumed s s') g'))
  | REnd =>
      match s with
      | EmptyString => k s g
      | String _ _ => None
      end
  end.

(** [s.match(r)?.groups] *)
Definition exec (r : regex) (s : string) : option ParsedGroups :=
  run r s no_groups (fun _ g => Some g).

Fixpoint lit (w : string) : regex :=
  match w with
  | EmptyString => REps
  | String c EmptyString => RLit c
  | String c w' => RSeq (RLit c) (lit w')
  end.

Fixpoint seq (rs : list regex) : regex :=
  match rs with
  | [] => REps
  | [r] => r
  | r :: rs' => RSeq r (seq rs')
  end.

(** [\w] *)
Definition is_word (c : ascii) : bool :=
  let n := nat_of_ascii c in
  ((48 <=? n)%nat && (n <=? 57)%nat) || ((65 <=? n)%nat && (n <=? 90)%nat)
  || ((97 <=? n)%nat && (n <=? 122)%nat) || (n =? 95)%nat.

(** [[\w.<>[\]$]] *)
Definition is_method_char (c : ascii) : bool :=
  is_word c || Ascii.eqb c "." || Ascii.eqb c "<" || Ascii.eqb c ">"
  || Ascii.eqb c "[" || Ascii.eqb c "]" || Ascii.eqb c "$".

(** [.] matches anything but a line terminator. *)
Definition is_dot (c : ascii) : bool :=
  let n := nat_of_ascii c in negb ((n =? 10)%nat || (n =? 13)%nat).

End Regex.

(** ** The stack parser ([stack-parser.ts]) *)

Module StackParser.
Import Js Regex.

(** [StackFrame] of [types.ts] (the fields the parser fills in). *)
Record StackFrame := mkFrame {
  filename : option string;
  lineno : option N;
  colno : option N;
  method : option string;
}.

(** The fields of an [Error] the parser reads. *)
Record Error := mkError {
  name : string;
  message : string;
  stack : option string;
}.

(** [/^\s*at\s+(?:async\s+)?(?:(?<method>[\w.<>[\]$]+)\s+\()?(?<filename>.+?):(?<lineno>\d+):(?<colno>\d+)\)?$/] *)
Definition V8_FRAME_REGEX : regex :=
  seq [ RStar is_space; lit "at"; RPlus is_space true;
        ROpt (RSeq (lit "async") (RPlus is_space true));
        ROpt (seq [RGroup Gmethod (RPlus is_method_char true);
                   RPlus is_space true; RLit "("]);
        RGroup Gfilename (RPlus is_dot false); RLit ":";
        RGroup Glineno (RPlus is_digit true); RLit ":";
        RGroup Gcolno (RPlus is_digit true);
        ROpt (RLit ")"); REnd ].

(** [/^\s*at\s+(?<filename>.+?):(?<lineno>\d+):(?<colno>\d+)$/] *)
Definition V8_ANONYMOUS_REGEX : regex :=
  seq [ RStar is_space; lit "at"; RPlus is_space true;
        RGroup Gfilename (RPlus is_dot false); RLit ":";
        RGroup Glineno (RPlus is_digit true); RLit ":";
        RGroup Gcolno (RPlus is_digit true); REnd ].

(** [/^(?<method>[\w.<>[\]$]+)?@(?<filename>.+?):(?<lineno>\d+):(?<colno>\d+)$/] *)
Definition FIREFOX_REGEX : regex :=
  seq [ ROpt (RGroup Gmethod (RPlus is_method_char true)); RLit "@";
        RGroup Gfilename (RPlus is_dot false); RLit ":";
        RGroup Glineno (RPlus is_digit true); RLit ":";
        RGroup Gcolno (RPlus is_digit true); REnd ].

(** The guard [groups.filename && groups.lineno && groups.colno] and the
    frame built under it; [anon] says whether the method group is ignored. *)
Definition frame_of_groups (anon : bool) (groups : ParsedGroups) : option StackFrame :=
  if truthy (g_filename groups) && truthy (g_lineno groups) && truthy (g_colno groups)
  then Some {| filename := g_filename groups;
               lineno := parseInt <$> g_lineno groups;
               colno := parseInt <$> g_colno groups;
               method := Some (if anon then "(anonymous)"
                               else or_else (g_method groups) "(anonymous)") |}
  else None.

Definition try_format (r : regex) (anon : bool) (trimmed : string) : option StackFrame :=
  exec r trimmed ≫= frame_of_groups anon.

(** [parseStackLine]: [None] is the source's [null]. *)
Definition parseStackLine (line : string) : option StackFrame :=
  let trimmed := trim line in
  if String.eqb trimmed "" || startsWith trimmed "Error:" || String.eqb trimmed "Error"
  then None
  else
    match try_format V8_FRAME_REGEX false trimmed with
    | Some f => Some f
    | None =>
    match try_format V8_ANONYMOUS_REGEX true trimmed with
    | Some f => Some f
    | None =>
    match try_format FIREFOX_REGEX false trimmed with
    | Some f => Some f
    | None => Some {| filename := Some "(unparsed)"; lineno := None;
                      colno := None; method := Some trimmed |}
    end end end.

Definition placeholder (error : Error) : list StackFrame :=
  [ {| filename := Some "(no stack trace)"; lineno := None; colno := None;
       method := Some (or_else (Some (name error)) "Error") |} ].

(** The [for] loop of [parseStackFrames]: push every non-null frame. *)
Fixpoint collect (lines : list string) (frames : list StackFrame) : list StackFrame :=
  match lines with
  | [] => frames
  | line :: rest =>
      match parseStackLine line with
      | Some frame => collect rest (frames ++ [frame])
      | None => collect rest frames
      end
  end.

Definition parseStackFrames (error : Error) : list StackFrame :=
  if truthy (stack error) then
    let lines := split newline (default "" (stack error)) in
    let frames := collect lines [] in
    if (length frames =? 0)%nat then placeholder error
    else rev frames
  else placeholder error.

(** [getErrorLocation] *)
Definition getErrorLocation (error : Error) : option StackFrame :=
  let frames := parseStackFrames error in
  match frames !! (length frames - 1)%nat with
  | None => None
  | Some frame =>
      if bool_decide (filename frame = Some "(no stack trace)")
         || bool_decide (filename frame = Some "(unparsed)")
      then None else Some frame
  end.

End StackParser.

(** ** The scrubbers ([client.ts], lines 19-98) *)

Module Scrub.
Import Js.

Definition loc := positive.

(** Values for which [typeof v === 'object' && v !== null] is false. *)
Inductive prim :=
| PUndefined
| PNull
| PBool (b : bool)
| PNum (n : Z)
| PBigInt (n : Z)
| PStr (s : string).

(** A value is a primitive or a reference to a container. *)
Inductive value :=
| VPrim (p : prim)
| VRef (l : loc).

(** A container (a plain object, an array, anything else of type
    ['object']), as [{...obj}] and [Object.keys] see it: its own enumerable
    string-keyed properties, in [Object.keys] order.  The keys of one
    container are pairwise distinct. *)
Definition obj := list (string * value).

(** What a scrubber builds: fresh objects that nothing else refers to. *)
#[warnings="-register-all"]
Inductive jtree :=
| TPrim (p : prim)
| TObj (fields : list (string * jtree)).

Definition DEFAULT_SCRUB_HEADERS : list string :=
  ["authorization"; "cookie"; "set-cookie"; "x-api-key"; "x-auth-token"].

Definition DEFAULT_SCRUB_FIELDS : list string :=
  ["password"; "secret"; "token"; "accessToken"; "access_token";
   "apiKey"; "api_key"; "credential"].

Definition SCRUBBED : jtree := TPrim (PStr "[SCRUBBED]").
Definition CIRCULAR : jtree := TPrim (PStr "[Circular Reference]").

(** [lowerFields.includes(key.toLowerCase())] with
    [lowerFields = scrubFields.map((f) => f.toLowerCase())] *)
Definition is_sensitive (scrubFields : list string) (key : string) : bool :=
  let lowerFields := map toLowerCase scrubFields in
  existsb (String.eqb (toLowerCase key)) lowerFields.

Section loop.
(** The recursive call. *)
Variable rec : loc -> gset loc -> option (jtree * gset loc).
Variable scrubFields : list string.

(** The [for (const key of Object.keys(result))] loop.  [visited] is the
    one [WeakSet] every call of a scrub shares: it is threaded through. *)
Fixpoint scrubKeys (entries : obj) (visited : gset loc)
    : option (list (string * jtree) * gset loc) :=
  match entries with
  | [] => Some ([], visited)
  | (key, v) :: rest =>
      if is_sensitive scrubFields key then
        '(out, vis) ← scrubKeys rest visited;
        Some ((key, SCRUBBED) :: out, vis)
      else
        match v with
        | VPrim p =>
            '(out, vis) ← scrubKeys rest visited;
            Some ((key, TPrim p) :: out, vis)
        | VRef l =>
            if decide (l ∈ visited) then
              '(out, vis) ← scrubKeys rest visited;
              Some ((key, CIRCULAR) :: out, vis)
            else
              '(t, vis1) ← rec l visited;
              '(out, vis2) ← scrubKeys rest vis1;
              Some ((key, t) :: out, vis2)
        end
  end.
End loop.

(** [scrubObject(obj, scrubFields, visited)].  The result is the scrubbed
    copy together with the [visited] set as the call leaves it; [None] is
    "out of fuel" (or a reference outside the store). *)
Fixpoint scrubObject (fuel : nat) (h : gmap loc obj) (scrubFields : list string)
    (o : loc) (visited : gset loc) : option (jtree * gset loc) :=
  match fuel with
  | O => None
  | S fuel' =>
      if decide (o ∈ visited) then Some (CIRCULAR, visited)
      else
        entries ← h !! o;
        '(out, vis) ← scrubKeys (scrubObject fuel' h scrubFields) scrubFields
                        entries ({[o]} ∪ visited);
        Some (TObj out, vis)
  end.

(** A call that leaves [visited] to its default, [new WeakSet()].  Every
    recursive call marks a container that was not marked before, so one
    unit of fuel per container of the store (and one to start) is enough. *)
Definition scrub (h : gmap loc obj) (scrubFields : list string) (o : loc)
    : option (jtree * gset loc) :=
  scrubObject (S (size h)) h scrubFields o ∅.

(** [scrubFields.some((f) => key.toLowerCase().includes(f.toLowerCase()))] *)
Definition header_sensitive (scrubFields : list string) (key : string) : bool :=
  existsb (fun f => includes (toLowerCase key) (toLowerCase f)) scrubFields.

(** [scrubHeaders(headers, additionalScrubFields)] *)
Definition scrubHeaders (headers : gmap string string)
    (additionalScrubFields : list string) : gmap string string :=
  let scrubFields := DEFAULT_SCRUB_HEADERS ++ additionalScrubFields in
  map_fold (fun key value (result : gmap string string) =>
              if header_sensitive scrubFields key
              then <[key := "[SCRUBBED]"]> result
              else <[key := value]> result)
           ∅ headers.

(** *** Vocabulary for the properties *)

(** Every reference of the store points into the store. *)
Definition closed (h : gmap loc obj) : Prop :=
  ∀ l entries key l', h !! l = Some entries → (key, VRef l') ∈ entries → l' ∈ dom h.

(** [closed], as a check that can be run. *)
Definition closedb (h : gmap loc obj) : bool :=
  forallb (fun le : loc * obj =>
             forallb (fun kv : string * value =>
                        match kv.2 with
                        | VRef l' => bool_decide (l' ∈ dom h)
                        | VPrim _ => true
                        end) le.2)
          (map_to_list h).

(** A key and a field name match case-insensitively. *)
Definition matches_ci (key f : string) : Prop := toLowerCase key = toLowerCase f.

(** A header name contains a field name, case-insensitively. *)
Definition contains_ci (key f : string) : Prop :=
  ∃ pre post, toLowerCase key = pre +:+ toLowerCase f +:+ post.

(** What [scrubHeaders] stores under [key] for the value [value]. *)
Definition mask (sf : list string) (key value : string) : string :=
  if header_sensitive sf key then "[SCRUBBED]" else value.

(** An edge the scrubber can follow: a reference under a key that is not
    sensitive. *)
Definition edge (h : gmap loc obj) (scrubFields : list string) (l l' : loc) : Prop :=
  ∃ entries key, h !! l = Some entries ∧ (key, VRef l') ∈ entries
                 ∧ is_sensitive scrubFields key = false.

(** The mapping at [root] contains a self-reference: some container
    reachable from it lies on a cycle. *)
Definition has_cycle (h : gmap loc obj) (scrubFields : list string) (root : loc) : Prop :=
  ∃ l, rtc (edge h scrubFields) root l ∧ tc (edge h scrubFields) l l.

(** [unfolds h v t]: [t] is the data [v] stands for, spelled out as a tree.
    There is such a tree exactly when no cycle can be reached from [v]. *)
Inductive unfolds (h : gmap loc obj) : value -> jtree -> Prop :=
| unfolds_prim p : unfolds h (VPrim p) (TPrim p)
| unfolds_ref l entries fields :
    h !! l = Some entries ->
    unfolds_entries h entries fields ->
    unfolds h (VRef l) (TObj fields)
with unfolds_entries (h : gmap loc obj) : obj -> list (string * jtree) -> Prop :=
| unfolds_nil : unfolds_entries h [] []
| unfolds_cons key v t entries fields :
    unfolds h v t ->
    unfolds_entries h entries fields ->
    unfolds_entries h ((key, v) :: entries) ((key, t) :: fields).

(** [owns h v t F]: from [v] the store is a tree, [t] is that tree, and [F]
    is the set of containers it is made of: no container of [F] is referred
    to twice. *)
Inductive owns (h : gmap loc obj) : value -> jtree -> gset loc -> Prop :=
| owns_prim p : owns h (VPrim p) (TPrim p) ∅
| owns_ref l entries fields F :
    h !! l = Some entries ->
    owns_entries h entries fields F ->
    l ∉ F ->
    owns h (VRef l) (TObj fields) ({[l]} ∪ F)
with owns_entries (h : gmap loc obj) : obj -> list (string * jtree) -> gset loc -> Prop :=
| owns_nil : owns_entries h [] [] ∅
| owns_cons key v t entries fields F1 F2 :
    owns h v t F1 ->
    owns_entries h entries fields F2 ->
    F1 ## F2 ->
    owns_entries h ((key, v) :: entries) ((key, t) :: fields) (F1 ∪ F2).

(** No key of the tree, at any depth, is sensitive. *)
Fixpoint clean (sf : list string) (t : jtree) : bool :=
  match t with
  | TPrim _ => true
  | TObj fields =>
      (fix go (fs : list (string * jtree)) : bool :=
         match fs with
         | [] => true
         | (key, t') :: fs' => negb (is_sensitive sf key) && clean sf t' && go fs'
         end) fields
  end.

(** The run of [scrubObject] as a relation: [scrubs h sf o visited t visited']
    when the call on [o] with the set [visited] returns [t] and leaves the
    set [visited']. *)
Inductive scrubs (h : gmap loc obj) (sf : list string)
    : loc -> gset loc -> jtree -> gset loc -> Prop :=
| scrubs_seen o vis :
    o ∈ vis ->
    scrubs h sf o vis CIRCULAR vis
| scrubs_new o vis entries out vis' :
    o ∉ vis ->
    h !! o = Some entries ->
    scrubs_keys h sf entries ({[o]} ∪ vis) out vis' ->
    scrubs h sf o vis (TObj out) vis'
with scrubs_keys (h : gmap loc obj) (sf : list string)
    : obj -> gset loc -> list (string * jtree) -> gset loc -> Prop :=
| sk_nil vis : scrubs_keys h sf [] vis [] vis
| sk_masked key v rest vis out vis' :
    is_sensitive sf key = true ->
    scrubs_keys h sf rest vis out vis' ->
    scrubs_keys h sf ((key, v) :: rest) vis ((key, SCRUBBED) :: out) vis'
| sk_prim key p rest vis out vis' :
    is_sensitive sf key = false ->
    scrubs_keys h sf rest vis out vis' ->
    scrubs_keys h sf ((key, VPrim p) :: rest) vis ((key, TPrim p) :: out) vis'
| sk_seen key l rest vis out vis' :
    is_sensitive sf key = false ->
    l ∈ vis ->
    scrubs_keys h sf rest vis out vis' ->
    scrubs_keys h sf ((key, VRef l) :: rest) vis ((key, CIRCULAR) :: out) vis'
| sk_new key l rest vis t vis1 out vis2 :
    is_sensitive sf key = false ->
    l ∉ vis ->
    scrubs h sf l vis t vis1 ->
    scrubs_keys h sf rest vis1 out vis2 ->
    scrubs_keys h sf ((key, VRef l) :: rest) vis ((key, t) :: out) vis2.

(** [entry_run h sf vi key v t]: what the loop stores under [key] for the
    value [v] when the visited set is [vi] as it reaches the entry. *)
Definition entry_run (h : gmap loc obj) (sf : list string) (vi : gset loc)
    (key : string) (v : value) (t : jtree) : Prop :=
  if is_sensitive sf key then t = SCRUBBED
  else match v with
       | VPrim p => t = TPrim p
       | VRef l => ((l ∈ vi ∧ t = CIRCULAR)
                    ∨ ((l ∉ vi) ∧ ∃ vi', scrubs h sf l vi t vi'))
       end.

(** The same in terms of the function: a sensitive key is masked, any
    other primitive is kept, any other container is replaced by the marker
    or by what a recursive call on it returns. *)
Definition scrubbed_entry (h : gmap loc obj) (sf : list string)
    (key : string) (v : value) (t : jtree) : Prop :=
  if is_sensitive sf key then t = SCRUBBED
  else match v with
       | VPrim p => t = TPrim p
       | VRef l => (t = CIRCULAR
                    ∨ ∃ fuel vi vi', (l ∉ vi)
                        ∧ scrubObject fuel h sf l vi = Some (t, vi'))
       end.

(** The names the scrubber compares, the scrub fields and the keys of every
    container of the store, are ASCII: there [is_sensitive] is the test of
    the source. *)
Definition ascii_names (h : gmap loc obj) (scrubFields : list string) : Prop :=
  (∀ f, f ∈ scrubFields → is_ascii f = true)
  ∧ ∀ l entries key v, h !! l = Some entries → (key, v) ∈ entries →
      is_ascii key = true.

(** [ascii_names], as a check that can be run. *)
Definition ascii_namesb (h : gmap loc obj) (scrubFields : list string) : bool :=
  forallb is_ascii scrubFields
  && forallb (fun le : loc * obj =>
                forallb (fun kv : string * value => is_ascii kv.1) le.2)
             (map_to_list h).

(** An edge the scrubber still follows once the containers of [V] are
    marked: an edge to a container outside [V]. *)
Definition wedge (h : gmap loc obj) (scrubFields : list string) (V : gset loc)
    (l l' : loc) : Prop :=
  edge h scrubFields l l' ∧ l' ∉ V.

(** [marks h sf V l x]: a call on [l] that is entered with the set [V] marks
    [x].  It marks nothing when [l] is in [V]; otherwise it marks [l] and
    whatever can be reached from [l] without entering [V]. *)
Definition marks (h : gmap loc obj) (scrubFields : list string) (V : gset loc)
    (l x : loc) : Prop :=
  (l ∉ V) ∧ rtc (wedge h scrubFields V) l x.

(** [seen h sf vis o entries i x]: [x] is in the visited set when the loop
    of the call on [o], a call entered with the set [vis], comes to the
    entry at position [i] of [entries]: [x] was in [vis], or it is [o]
    itself, or the call made for an earlier entry marked it. *)
Definition seen (h : gmap loc obj) (scrubFields : list string) (vis : gset loc)
    (o : loc) (entries : obj) (i : nat) (x : loc) : Prop :=
  x ∈ vis ∨ x = o
  ∨ ∃ j key l, (j < i)%nat ∧ entries !! j = Some (key, VRef l)
               ∧ is_sensitive scrubFields key = false
               ∧ marks h scrubFields ({[o]} ∪ vis) l x.

(** [entry_rule h sf vis o entries i key v t]: what the result of the call
    on [o], entered with the set [vis], holds at position [i], where
    [entries] has [key] with the value [v].  A sensitive key holds
    "[SCRUBBED]", whatever its value; any other key with a primitive holds
    that primitive; any other key with a container holds the marker when
    that container is in the visited set at that moment, and otherwise the
    object that the recursive call on it returns, a call entered with
    exactly that visited set. *)
Definition entry_rule (h : gmap loc obj) (scrubFields : list string) (vis : gset loc)
    (o : loc) (entries : obj) (i : nat) (key : string) (v : value) (t : jtree)
    : Prop :=
  if is_sensitive scrubFields key then t = SCRUBBED
  else match v with
       | VPrim p => t = TPrim p
       | VRef l =>
           (seen h scrubFields vis o entries i l → t = CIRCULAR)
           ∧ (¬ seen h scrubFields vis o entries i l →
                ∃ fields fuel vi vi',
                  t = TObj fields
                  ∧ (∀ x, x ∈ vi ↔ seen h scrubFields vis o entries i x)
                  ∧ scrubObject fuel h scrubFields l vi = Some (t, vi'))
       end.

Scheme unfolds_mut := Minimality for unfolds Sort Prop
  with unfolds_entries_mut := Minimality for unfolds_entries Sort Prop.

Scheme owns_mut := Minimality for owns Sort Prop
  with owns_entries_mut := Minimality for owns_entries Sort Prop.

Scheme scrubs_mut := Minimality for scrubs Sort Prop
  with scrubs_keys_mut := Minimality for scrubs_keys Sort Prop.

Combined Scheme scrubs_both from scrubs_mut, scrubs_keys_mut.

(** The subtree of a result at a path of field positions. *)
Fixpoint tree_at (t : jtree) (path : list nat) : option jtree :=
  match path with
  | [] => Some t
  | i :: path' =>
      match t with
      | TObj fields => fields !! i ≫= fun kt => tree_at kt.2 path'
      | TPrim _ => None
      end
  end.

(** [walk h sf l path srcs tgt]: following the field positions [path] from
    container [l], through keys that are not sensitive, one leaves the
    containers [srcs] in turn and arrives at container [tgt]. *)
Inductive walk (h : gmap loc obj) (sf : list string)
    : loc -> list nat -> list loc -> loc -> Prop :=
| walk_nil l : walk h sf l [] [] l
| walk_cons l entries i key l' path srcs tgt :
    h !! l = Some entries ->
    entries !! i = Some (key, VRef l') ->
    is_sensitive sf key = false ->
    walk h sf l' path srcs tgt ->
    walk h sf l (i :: path) (l :: srcs) tgt.

(** Two stores that differ at most in the values of sensitive keys. *)
Definition entries_agree (sf : list string) (e1 e2 : obj) : Prop :=
  Forall2 (fun kv1 kv2 => kv1.1 = kv2.1
                          ∧ (is_sensitive sf kv1.1 = false → kv1.2 = kv2.2)) e1 e2.

Definition stores_agree (sf : list string) (h1 h2 : gmap loc obj) : Prop :=
  ∀ l, option_Forall2 (entries_agree sf) (h1 !! l) (h2 !! l).

End Scrub.

(** ** The client ([client.ts], lines 100-452) *)

Module Client.
Import Js Scrub StackParser.

Definition ROLLBAR_API_URL : string := "https://api.rollbar.com/api/1/item/".
Definition NOTIFIER_NAME : string := "@triptech/cloudflare-worker-rollbar".
Definition NOTIFIER_VERSION : string := "2.0.1".

Inductive LogLevel := LDebug | LInfo | LWarning | LError | LCritical.

(** [RollbarConfig]; an absent field is [None].  [payload] and a [Person]
    are references to objects of the caller. *)
Record RollbarConfig := mkConfig {
  accessToken : option string;
  environment : option string;
  codeVersion : option string;
  host : option string;
  scrubFields : option (list string);
  includeRequestBody : option bool;
  payload : option loc;
  verbose : option bool;
}.

(** The two private fields of a [Rollbar] instance. *)
Record Rollbar := mkRollbar {
  config : RollbarConfig;
  this_scrubFields : list string;
}.

(** [new Rollbar(config)]: [inl m] is [throw new Error(m)]. *)
Definition constructor (cfg : RollbarConfig) : string + Rollbar :=
  if negb (truthy (accessToken cfg)) then inl "Rollbar accessToken is required"
  else
    inr {| config :=
             {| accessToken := accessToken cfg;
                environment := Some (default "production" (environment cfg));
                codeVersion := codeVersion cfg;
                host := host cfg;
                scrubFields := scrubFields cfg;
                includeRequestBody := includeRequestBody cfg;
                payload := payload cfg;
                verbose := verbose cfg |};
           this_scrubFields :=
             DEFAULT_SCRUB_FIELDS ++ default [] (scrubFields cfg) |}.

(** [result[key] = v] on an object given by its entries. *)
Fixpoint set_key {A : Type} (key : string) (v : A) (entries : list (string * A))
    : list (string * A) :=
  match entries with
  | [] => [(key, v)]
  | (k, x) :: rest =>
      if String.eqb k key then (k, v) :: rest else (k, x) :: set_key key v rest
  end.

Fixpoint get_key {A : Type} (key : string) (entries : list (string * A)) : option A :=
  match entries with
  | [] => None
  | (k, x) :: rest => if String.eqb k key then Some x else get_key key rest
  end.

(** [{...a, ...b}] *)
Definition spread {A : Type} (a b : list (string * A)) : list (string * A) :=
  fold_left (fun acc kv => set_key kv.1 kv.2 acc) b a.

(** The own properties [{...t}] copies out of a scrubbed value.  A scrub
    that starts with a fresh [visited] returns an object; the marker string
    a recursive call may return is not spread anywhere. *)
Definition fields_of (t : jtree) : list (string * jtree) :=
  match t with
  | TObj fields => fields
  | TPrim _ => []
  end.

(** The entries [{...this.config.payload}] copies. *)
Definition payload_entries (this : Rollbar) (h : gmap loc obj) : obj :=
  match payload (config this) with
  | Some p => default [] (h !! p)
  | None => []
  end.

(** [withPerson(person)]: the new payload object is allocated at a fresh
    location of the store; the call returns the store with it and the
    outcome of [new Rollbar(newConfig)]. *)
Definition withPerson (this : Rollbar) (h : gmap loc obj) (person : loc)
    : gmap loc obj * (string + Rollbar) :=
  let p' := fresh (dom h) in
  let h' := <[p' := set_key "person" (VRef person) (payload_entries this h)]> h in
  let newConfig :=
    {| accessToken := accessToken (config this);
       environment := environment (config this);
       codeVersion := codeVersion (config this);
       host := host (config this);
       scrubFields := scrubFields (config this);
       includeRequestBody := includeRequestBody (config this);
       payload := Some p';
       verbose := verbose (config this) |} in
  (h', constructor newConfig).

(** Truthiness of a primitive. *)
Definition prim_truthy (p : prim) : bool :=
  match p with
  | PUndefined | PNull => false
  | PBool b => b
  | PNum n | PBigInt n => negb (n =? 0)%Z
  | PStr s => negb (String.eqb s "")
  end.

(** [RequestContext] and [ReportContext] of [types.ts]; [body] is
    [unknown] there: any value, an object or not. *)
Record RequestContext := mkRequestContext {
  url : string;
  rmethod : string;
  headers : option (gmap string string);
  params : option (gmap string string);
  body : option value;
  userIp : option string;
}.

Record ReportContext := mkReportContext {
  person : option loc;
  request : option RequestContext;
  custom : option loc;
  fingerprint : option string;
  title : option string;
  uuid : option string;
}.

Definition no_context : ReportContext := mkReportContext None None None None None None.

(** [payload.data.request] *)
Record RequestData := mkRequestData {
  rq_url : string;
  rq_method : string;
  rq_headers : option (gmap string string);
  rq_params : option (gmap string string);
  rq_user_ip : option string;
  rq_body : option jtree;
}.

(** [payload.data.body]: empty, a trace, or a message object. *)
Inductive RollbarBody :=
| BodyEmpty
| BodyTrace (frames : list StackFrame) (class : string) (msg : string)
| BodyMessage (fields : list (string * jtree)).

(** [RollbarPayload]: [access_token] and the fields of [data]. *)
Record RollbarPayload := mkPayload {
  access_token : string;
  d_environment : string;
  d_body : RollbarBody;
  d_level : LogLevel;
  d_timestamp : Z;
  d_platform : string;
  d_language : string;
  d_notifier : string * string;
  d_code_version : option string;
  d_server : option string;
  d_custom : option (list (string * jtree));
  d_person : option loc;
  d_request : option RequestData;
  d_fingerprint : option string;
  d_title : option string;
  d_uuid : option string;
}.

(** [scrubObject(o, this.scrubFields)] spread into [payload.data.custom]. *)
Definition merge_custom (this : Rollbar) (h : gmap loc obj) (o : loc)
    (custom0 : option (list (string * jtree))) : option (list (string * jtree)) :=
  r ← scrub h (this_scrubFields this) o;
  Some (spread (default [] custom0) (fields_of r.1)).

(** [buildPayload(level, context)]; [now] is [Date.now()].  [None] when
    the call throws, which it does for a request body to scrub that is
    truthy and not an object ([visited.add] in [scrubObject] rejects it
    with a [TypeError]), and when a scrub runs out of fuel. *)
Definition buildPayload (this : Rollbar) (h : gmap loc obj) (now : Z)
    (level : LogLevel) (context : option ReportContext) : option RollbarPayload :=
  let cfg := config this in
  custom1 ← match payload cfg with
            | Some p => Some <$> merge_custom this h p None
            | None => Some None
            end;
  let context_person := context ≫= person in
  request1 ← match context ≫= request with
             | Some rq =>
                 rbody ← match default false (includeRequestBody cfg), body rq with
                         | true, Some (VRef b) =>
                             r ← scrub h (this_scrubFields this) b; Some (Some r.1)
                         | true, Some (VPrim p) =>
                             if prim_truthy p then None else Some None
                         | _, _ => Some None
                         end;
                 Some (Some {| rq_url := url rq; rq_method := rmethod rq;
                               rq_headers := headers rq; rq_params := params rq;
                               rq_user_ip := userIp rq; rq_body := rbody |})
             | None => Some None
             end;
  custom2 ← match context ≫= custom with
            | Some c => Some <$> merge_custom this h c custom1
            | None => Some custom1
            end;
  let keep (o : option string) := if truthy o then o else None in
  Some {| access_token := default "" (accessToken cfg);
          d_environment := default "" (environment cfg);
          d_body := BodyEmpty;
          d_level := level;
          d_timestamp := (now `div` 1000)%Z;
          d_platform := "cloudflare-workers";
          d_language := "javascript";
          d_notifier := (NOTIFIER_NAME, NOTIFIER_VERSION);
          d_code_version := keep (codeVersion cfg);
          d_server := keep (host cfg);
          d_custom := custom2;
          d_person := context_person;
          d_request := request1;
          d_fingerprint := keep (context ≫= fingerprint);
          d_title := keep (context ≫= title);
          d_uuid := keep (context ≫= uuid) |}.

(** The request body of a context can be scrubbed when it is sent: it is
    absent, or falsy, or an object of the store. *)
Definition body_scrubs (this : Rollbar) (h : gmap loc obj)
    (context : option ReportContext) : Prop :=
  ∀ rq, context ≫= request = Some rq →
    default false (includeRequestBody (config this)) = true →
    match body rq with
    | Some (VRef b) => b ∈ dom h
    | Some (VPrim p) => prim_truthy p = false
    | None => True
    end.

Definition with_body (p : RollbarPayload) (b : RollbarBody) : RollbarPayload :=
  {| access_token := access_token p; d_environment := d_environment p;
     d_body := b; d_level := d_level p; d_timestamp := d_timestamp p;
     d_platform := d_platform p; d_language := d_language p;
     d_notifier := d_notifier p; d_code_version := d_code_version p;
     d_server := d_server p; d_custom := d_custom p; d_person := d_person p;
     d_request := d_request p; d_fingerprint := d_fingerprint p;
     d_title := d_title p; d_uuid := d_uuid p |}.

(** What [buildPayload] stores in [data.custom], in one expression. *)
Definition custom_of (this : Rollbar) (h : gmap loc obj)
    (context : option ReportContext) : option (list (string * jtree)) :=
  let fields o := default [] (fields_of ∘ fst <$> scrub h (this_scrubFields this) o) in
  let custom1 := (fun p => spread [] (fields p)) <$> payload (config this) in
  match context ≫= custom with
  | Some c => Some (spread (default [] custom1) (fields c))
  | None => custom1
  end.

(** *** Effects: exceptions and the console *)

(** A thrown value: an [Error] instance, known by the identity of the
    object, or any other value, known by its [String(...)] form. *)
Inductive thrown :=
| ThrownError (l : loc)
| ThrownOther (str : string).

Inductive outcome (A : Type) :=
| Return (a : A)
| Throw (v : thrown).
Arguments Return {A} a.
Arguments Throw {A} v.

(** [RollbarResponse] *)
Record RollbarResponse := mkResponse {
  err : Z;
  result : option string;
  rmessage : option string;
}.

Inductive logarg :=
| LString (s : string)
| LThrown (v : thrown)
| LResponse (r : RollbarResponse)
| LMessage (m : option string).

(** What a call does to the outside, in order. *)
Inductive event :=
| ConsoleLog (label : string) (arg : logarg)
| ConsoleError (label : string) (arg : logarg)
| Fetch (to : string) (content : string)
| WaitUntil.

(** The collaborators.  [stringify indent p] is
    [JSON.stringify(p, null, indent)], which throws on a value JSON cannot
    hold; [fetch] rejects or resolves to a response, given here by what its
    [json()] does; [new_stack] is the stack the engine gives [new Error(m)]. *)
Record Env := mkEnv {
  stringify : option nat -> RollbarPayload -> thrown + string;
  fetch : string -> string -> thrown + (thrown + RollbarResponse);
  now : Z;
  new_stack : string -> option string;
}.

(** A computation: the events it caused and how it ended. *)
Definition M (A : Type) : Type := list event * outcome A.

#[global] Instance M_ret : MRet M := fun A a => ([], Return a).
#[global] Instance M_bind : MBind M := fun A B f m =>
  match m with
  | (t, Return a) => let r := f a in (t ++ r.1, r.2)
  | (t, Throw v) => (t, Throw v)
  end.

Definition emit (e : event) : M unit := ([e], Return tt).
Definition throw {A : Type} (v : thrown) : M A := ([], Throw v).
Definition lift {A : Type} (r : thrown + A) : M A :=
  match r with
  | inl v => throw v
  | inr a => mret a
  end.

(** [try { m } catch (err) { handler err }] *)
Definition try_catch {A : Type} (m : M A) (handler : thrown -> M A) : M A :=
  match m with
  | (t, Throw v) => let r := handler v in (t ++ r.1, r.2)
  | (t, Return a) => (t, Return a)
  end.

(** A promise handed to [waitUntil]: what it does is done, how it settles
    is not looked at. *)
Definition detach {A : Type} (m : M A) : M unit := (m.1 ++ [WaitUntil], Return tt).

Definition when (b : bool) (m : M unit) : M unit := if b then m else mret tt.

(** [send(payload)] *)
Definition send (this : Rollbar) (env : Env) (p : RollbarPayload)
    : M (option RollbarResponse) :=
  let is_verbose := default false (verbose (config this)) in
  when is_verbose
    (s ← lift (stringify env (Some 2) p);
     emit (ConsoleLog "[Rollbar] Sending payload:" (LString s)));;
  try_catch
    (content ← lift (stringify env None p);
     emit (Fetch ROLLBAR_API_URL content);;
     response ← lift (fetch env ROLLBAR_API_URL content);
     result ← lift response;
     when is_verbose (emit (ConsoleLog "[Rollbar] Response:" (LResponse result)));;
     when (negb (err result =? 0)%Z)
       (emit (ConsoleError "[Rollbar] Error response:" (LMessage (rmessage result))));;
     mret (Some result))
    (fun e =>
       emit (ConsoleError "[Rollbar] Failed to send:" (LThrown e));;
       mret None).

(** [reportError(level, error, context)]; [errors] holds the [Error]
    objects, [error] is a reference into it.  [None] when [buildPayload]
    gives none or [error] is not in [errors]. *)
Definition reportError (this : Rollbar) (env : Env) (h : gmap loc obj)
    (errors : gmap loc Error) (level : LogLevel) (error : loc)
    (context : option ReportContext) : option (M (option RollbarResponse)) :=
  e ← errors !! error;
  let frames := parseStackFrames e in
  p ← buildPayload this h (now env) level context;
  Some (send this env (with_body p (BodyTrace frames (name e) (message e)))).

(** [logMessage(level, message, context)] *)
Definition logMessage (this : Rollbar) (env : Env) (h : gmap loc obj)
    (level : LogLevel) (msg : string) (context : option ReportContext)
    : option (M (option RollbarResponse)) :=
  p ← buildPayload this h (now env) level context;
  scrubbedCustom ← match context ≫= custom with
                   | Some c => r ← scrub h (this_scrubFields this) c; Some (fields_of r.1)
                   | None => Some []
                   end;
  Some (send this env
          (with_body p (BodyMessage (spread [("body", TPrim (PStr msg))] scrubbedCustom)))).

Definition debug this env h := logMessage this env h LDebug.
Definition info this env h := logMessage this env h LInfo.
Definition warning this env h := logMessage this env h LWarning.
Definition log this env h := logMessage this env h LError.
Definition error this env h errors := reportError this env h errors LError.
Definition critical this env h errors := reportError this env h errors LCritical.

(** What [buildRequestContext] reads of a [Request];
    [searchParams] is [new URL(request.url).searchParams]. *)
Record Request := mkRequest {
  req_url : string;
  req_method : string;
  req_headers : gmap string string;
  searchParams : gmap string string;
}.

(** [buildRequestContext(request)] *)
Definition buildRequestContext (this : Rollbar) (rq : Request) : RequestContext :=
  {| url := req_url rq;
     rmethod := req_method rq;
     headers := Some (scrubHeaders (req_headers rq) (this_scrubFields this));
     params := Some (searchParams rq);
     body := None;
     userIp := req_headers rq !! "cf-connecting-ip" |}.

Record HttpResponse := mkHttpResponse {
  status : nat;
  content_type : option string;
  text : string;
}.

(** [WrapperOptions] *)
Record WrapperOptions := mkOptions {
  rethrow : option bool;
  errorResponse : option (loc -> HttpResponse);
  context : option ReportContext;
}.

(** The context [wrap] reports with: [{...options.context, request}]. *)
Definition report_context (this : Rollbar) (options : WrapperOptions) (rq : Request)
    : ReportContext :=
  let oc := default no_context (context options) in
  {| person := person oc; request := Some (buildRequestContext this rq);
     custom := custom oc; fingerprint := fingerprint oc;
     title := title oc; uuid := uuid oc |}.

Definition dq : string := String (ascii_of_nat 34) EmptyString.

(** [JSON.stringify({ error: 'Internal Server Error' })] *)
Definition internal_server_error : string :=
  "{" +:+ dq +:+ "error" +:+ dq +:+ ":" +:+ dq +:+ "Internal Server Error" +:+ dq +:+ "}".

(** The handler [wrap(handler, options)] returns, applied to [request];
    [has_waitUntil] is [ctx?.waitUntil].  The handler is given by how it
    ends.  The call returns the store of [Error] objects as it leaves it;
    [None] only if a scrub runs out of fuel or the thrown reference is not
    in that store. *)
Definition wrap (this : Rollbar) (env : Env) (h : gmap loc obj)
    (handler : Request -> outcome HttpResponse) (options : WrapperOptions)
    (rq : Request) (has_waitUntil : bool) (errors : gmap loc Error)
    : option (gmap loc Error * M HttpResponse) :=
  match handler rq with
  | Return resp => Some (errors, mret resp)
  | Throw e =>
      let '(error_, errors') :=
        match e with
        | ThrownError l => (l, errors)
        | ThrownOther str =>
            let l := fresh (dom errors) in
            (l, <[l := {| name := "Error"; message := str;
                          stack := new_stack env str |}]> errors)
        end in
      let reportContext := report_context this options rq in
      reportPromise ← error this env h errors' error_ (Some reportContext);
      Some (errors',
            (if has_waitUntil then detach reportPromise
             else reportPromise;; mret tt);;
            if default false (rethrow options) then throw (ThrownError error_)
            else
              match errorResponse options with
              | Some f => mret (f error_)
              | None => mret {| status := 500;
                                content_type := Some "application/json";
                                text := internal_server_error |}
              end)
  end.

End Client.

(** ** Concrete inputs *)

Module Examples.
Import Js Scrub Client StackParser.

(** A two-line V8 trace:
    ["Error: msg\n  at foo (a.js:1:2)\n  at b.js:3:4"]. *)
Definition example_stack : string :=
  "Error: msg" +:+ nl +:+ "  at foo (a.js:1:2)" +:+ nl +:+ "  at b.js:3:4".

Definition example_error : Error :=
  {| name := "Error"; message := "msg"; stack := Some example_stack |}.

(** The V8 trace of the stack-parser tests. *)
Definition v8_stack : string :=
  "Error: Test error" +:+ nl
  +:+ "    at functionName (file:///path/to/file.js:10:15)" +:+ nl
  +:+ "    at anotherFunction (file:///path/to/other.js:20:25)" +:+ nl
  +:+ "    at file:///path/to/anonymous.js:30:35".

(** A [TypeError] as V8 prints it. *)
Definition type_error_stack : string :=
  "TypeError: boom" +:+ nl +:+ "    at foo (a.js:1:2)".

Definition type_error : Error :=
  {| name := "TypeError"; message := "boom"; stack := Some type_error_stack |}.


(** The headers of the request in the test of [buildRequestContext]. *)
Definition request_headers : gmap string string :=
  {[ "content-type" := "application/json";
     "authorization" := "Bearer token123";
     "x-custom-header" := "value" ]}.

(** [{ password: 'secret123', username: 'testuser', apiKey: 'key123' }] *)
Definition credentials_store : gmap loc obj :=
  {[ 1%positive := [("password", VPrim (PStr "secret123"));
                    ("username", VPrim (PStr "testuser"));
                    ("apiKey", VPrim (PStr "key123"))] ]}.

(** [circularObj = { name: 'test', value: 123 }; circularObj.self = circularObj] *)
Definition circular_entries : obj :=
  [("name", VPrim (PStr "test")); ("value", VPrim (PNum 123));
   ("self", VRef 1%positive)].

Definition circular_store : gmap loc obj := {[ 1%positive := circular_entries ]}.

(** [{ name: 'parent', child }] with [child = { name: 'child', parent }]:
    the two objects of the test of nested circular references. *)
Definition family_store : gmap loc obj :=
  {[ 1%positive := [("name", VPrim (PStr "parent")); ("child", VRef 2%positive)];
     2%positive := [("name", VPrim (PStr "child")); ("parent", VRef 1%positive)] ]}.

(** [order = { name: 'test', self: order, billing: addr, shipping: addr }]
    with [addr = { city: 'Oslo' }]: one address, referred to twice. *)
Definition order_entries : obj :=
  [("name", VPrim (PStr "test")); ("self", VRef 1%positive);
   ("billing", VRef 2%positive); ("shipping", VRef 2%positive)].

Definition order_store : gmap loc obj :=
  {[ 1%positive := order_entries;
     2%positive := [("city", VPrim (PStr "Oslo"))] ]}.

(** [cart = { billing: addr, shipping: addr }]: no cycle anywhere. *)
Definition cart_entries : obj :=
  [("billing", VRef 2%positive); ("shipping", VRef 2%positive)].

Definition cart_store : gmap loc obj :=
  {[ 1%positive := cart_entries;
     2%positive := [("city", VPrim (PStr "Oslo"))] ]}.

Definition addr_tree : jtree := TObj [("city", TPrim (PStr "Oslo"))].

(** [session = { user: 'ann', token: session, secret: ring }] with
    [ring = { next: ring }]: every cycle goes through a sensitive key. *)
Definition session_entries : obj :=
  [("user", VPrim (PStr "ann")); ("token", VRef 1%positive);
   ("secret", VRef 2%positive)].

Definition session_store : gmap loc obj :=
  {[ 1%positive := session_entries;
     2%positive := [("next", VRef 2%positive)] ]}.

(** The client of the tests, [new Rollbar({ accessToken: 'test-token' })],
    and the same with [verbose: true]. *)
Definition test_config (v : option bool) : RollbarConfig :=
  mkConfig (Some "test-token") None None None None None None v.

Definition test_client : Rollbar :=
  {| config := mkConfig (Some "test-token") (Some "production") None None None
                        None None None;
     this_scrubFields := DEFAULT_SCRUB_FIELDS |}.

Definition verbose_client : Rollbar :=
  {| config := mkConfig (Some "test-token") (Some "production") None None None
                        None None (Some true);
     this_scrubFields := DEFAULT_SCRUB_FIELDS |}.

(** [{ n: 10n }]: custom data that holds a [BigInt]. *)
Definition bigint_store : gmap loc obj :=
  {[ 1%positive := [("n", VPrim (PBigInt 10))] ]}.

Fixpoint has_bigint (t : jtree) : bool :=
  match t with
  | TPrim (PBigInt _) => true
  | TPrim _ => false
  | TObj fields =>
      (fix go (fs : list (string * jtree)) : bool :=
         match fs with
         | [] => false
         | (_, t') :: fs' => has_bigint t' || go fs'
         end) fields
  end.

(** The [TypeError] that [JSON.stringify] throws on a [BigInt]. *)
Definition bigint_error : thrown := ThrownError 7%positive.

(** An environment in which [JSON.stringify] refuses a payload whose custom
    data holds a [BigInt], and the collector accepts every item. *)
Definition accepting_env : Env :=
  {| stringify := fun _ p =>
       if has_bigint (TObj (default [] (d_custom p))) then inl bigint_error
       else inr "{...}";
     fetch := fun _ _ => inr (inr (mkResponse 0 (Some "test-uuid") None));
     now := 1700000000000;
     new_stack := fun _ => None |}.

(** The payload [info('Test', { custom: { n: 10n } })] builds at
    [Date.now() = 1700000000000]. *)
Definition bigint_payload : RollbarPayload :=
  {| access_token := "test-token"; d_environment := "production";
     d_body := BodyMessage [("body", TPrim (PStr "Test")); ("n", TPrim (PBigInt 10))];
     d_level := LInfo; d_timestamp := 1700000000;
     d_platform := "cloudflare-workers"; d_language := "javascript";
     d_notifier := (NOTIFIER_NAME, NOTIFIER_VERSION);
     d_code_version := None; d_server := None;
     d_custom := Some [("n", TPrim (PBigInt 10))];
     d_person := None; d_request := None;
     d_fingerprint := None; d_title := None; d_uuid := None |}.

Definition bigint_context : ReportContext :=
  mkReportContext None None (Some 1%positive) None None None.

(** An environment whose network is down. *)
Definition network_error : thrown := ThrownError 8%positive.

Definition offline_env : Env :=
  {| stringify := fun _ _ => inr "{...}";
     fetch := fun _ _ => inl network_error;
     now := 1700000000000;
     new_stack := fun _ => None |}.

(** [new Request('https://example.com/test')] *)
Definition test_request : Request :=
  {| req_url := "https://example.com/test"; req_method := "GET";
     req_headers := ∅; searchParams := ∅ |}.

(** A handler that throws the string ['String error']. *)
Definition string_thrower (_ : Request) : outcome HttpResponse :=
  Throw (ThrownOther "String error").

Definition rethrow_options : WrapperOptions := mkOptions (Some true) None None.

(** [new Error('Rethrow me')], and a handler that throws it. *)
Definition rethrow_me : gmap loc StackParser.Error :=
  {[ 1%positive := {| name := "Error"; message := "Rethrow me"; stack := None |} ]}.

Definition error_thrower (_ : Request) : outcome HttpResponse :=
  Throw (ThrownError 1%positive).

(** [{ id: 'user-456', username: 'johndoe' }], the person of the test of
    [withPerson], and per-call custom data with a [person] of its own. *)
Definition person_store : gmap loc obj :=
  {[ 1%positive := [("id", VPrim (PStr "user-456"));
                    ("username", VPrim (PStr "johndoe"))];
     2%positive := [("person", VPrim (PStr "someone else"))] ]}.

Definition person_tree : jtree :=
  TObj [("id", TPrim (PStr "user-456")); ("username", TPrim (PStr "johndoe"))].

(** [{ custom: { person: 'someone else' } }] *)
Definition own_person_context : ReportContext :=
  mkReportContext None None (Some 2%positive) None None None.

End Examples.

(** ** The claims that fail, as they are worded *)

Module AsStated.
Import Js Scrub Client.

(** "For every finite mapping containing a self-reference, [scrubObject]
    terminates, the cyclic edge is replaced with the marker, and non-cyclic
    sibling data is preserved unchanged": a walk that comes back to one of
    its own containers, without passing twice through any, ends in a
    cyclic edge; data is non-cyclic when it unfolds to a tree. *)
Definition C1 (h : gmap loc obj) (sf : list string) (root : loc) : Prop :=
  ∀ entries, closed h → h !! root = Some entries → has_cycle h [] root →
    ∃ out vis, scrub h sf root = Some (TObj out, vis)
      ∧ (∀ path srcs tgt, walk h [] root path srcs tgt → NoDup srcs →
           tgt ∈ srcs → tree_at (TObj out) path = Some CIRCULAR)
      ∧ (∀ i key v t, entries !! i = Some (key, v) → unfolds h v t →
           out !! i = Some (key, t)).

(** "Every key that matches a sensitive field name becomes [SCRUBBED]; all
    other keys pass through unmodified". *)
Definition C2 (h : gmap loc obj) (sf : list string) (root : loc) : Prop :=
  ∀ entries out vis, h !! root = Some entries →
    scrub h sf root = Some (TObj out, vis) →
    ∀ i key v, entries !! i = Some (key, v) →
      ((∃ f, f ∈ sf ∧ matches_ci key f) → out !! i = Some (key, SCRUBBED))
      ∧ (¬ (∃ f, f ∈ sf ∧ matches_ci key f) →
           ∀ t, unfolds h v t → out !! i = Some (key, t)).

(** "With [rethrow] enabled, whenever the handler fails with any thrown
    value, the original error, not a copy and not a wrapped form,
    propagates out of the wrapped handler". *)
Definition C8 (this : Rollbar) (env : Env) (h : gmap loc obj)
    (handler : Request -> outcome HttpResponse) (options : WrapperOptions)
    (rq : Request) (has_waitUntil : bool) (errors : gmap loc StackParser.Error) : Prop :=
  ∀ v, handler rq = Throw v → rethrow options = Some true →
    ∃ errors' t,
      wrap this env h handler options rq has_waitUntil errors
      = Some (errors', (t, Throw v)).

(** "Every report sent through the client [withPerson] returns carries the
    person under [data.custom.person] (after the scrubber), and
    [data.person] stays absent unless the per-call context supplies a
    person". *)
Definition C10 (this : Rollbar) (h : gmap loc obj) (who : loc) (t : Z)
    (level : LogLevel) (context : option ReportContext) : Prop :=
  ∀ derived p' out vis pl,
    (withPerson this h who).2 = inr derived →
    payload (config derived) = Some p' →
    scrub (withPerson this h who).1 (this_scrubFields derived) p' = Some (TObj out, vis) →
    buildPayload derived (withPerson this h who).1 t level context = Some pl →
    d_custom pl ≫= get_key "person" = get_key "person" out
    ∧ d_person pl = context ≫= person.

End AsStated.

(** ** Shapes of a scrubbed value *)

Module Shape.
Import Js Scrub Client.

Definition is_scrubbed (t : jtree) : bool :=
  match t with
  | TPrim (PStr s) => String.eqb s "[SCRUBBED]"
  | _ => false
  end.

(** Every sensitive key of the tree, at any depth, holds "[SCRUBBED]". *)
Fixpoint masked (sf : list string) (t : jtree) : bool :=
  match t with
  | TPrim _ => true
  | TObj fields =>
      (fix go (fs : list (string * jtree)) : bool :=
         match fs with
         | [] => true
         | (key, t') :: fs' =>
             (if is_sensitive sf key then is_scrubbed t' else masked sf t') && go fs'
         end) fields
  end.


End Shape.

(** ** What a computation did to the outside *)

Module Trace.
Import Js Scrub Client.

Definition is_fetch (e : event) : bool :=
  match e with
  | Fetch _ _ => true
  | _ => false
  end.

Definition is_console_log (e : event) : bool :=
  match e with
  | ConsoleLog _ _ => true
  | _ => false
  end.

(** The requests a computation issued, in order. *)
Definition requests {A : Type} (m : M A) : list event := List.filter is_fetch m.1.

(** What a computation did apart from its [console.log] lines. *)
Definition unlogged {A : Type} (m : M A) : list event :=
  List.filter (fun e => negb (is_console_log e)) m.1.

End Trace.

(** ** More sample data *)

Module Samples.
Import Js Scrub Client StackParser Examples.

(** [new Rollbar({ accessToken: 'test-token', includeRequestBody: true })] *)
Definition body_config : RollbarConfig :=
  mkConfig (Some "test-token") None None None None (Some true) None None.

Definition body_client : Rollbar :=
  {| config := mkConfig (Some "test-token") (Some "production") None None None
                        (Some true) None None;
     this_scrubFields := DEFAULT_SCRUB_FIELDS |}.

(** A request context whose body is the credentials object. *)
Definition login_request : RequestContext :=
  {| url := "https://example.com/login"; rmethod := "POST"; headers := None;
     params := None; body := Some (VRef 1%positive); userIp := None |}.

Definition login_context : ReportContext :=
  mkReportContext None (Some login_request) None None None None.

(** The payload [error(e, { request })] builds for it, before the trace is
    set, at [Date.now() = 1700000000000]. *)
Definition login_payload : RollbarPayload :=
  {| access_token := "test-token"; d_environment := "production";
     d_body := BodyEmpty; d_level := LError; d_timestamp := 1700000000;
     d_platform := "cloudflare-workers"; d_language := "javascript";
     d_notifier := (NOTIFIER_NAME, NOTIFIER_VERSION);
     d_code_version := None; d_server := None; d_custom := None;
     d_person := None;
     d_request :=
       Some {| rq_url := "https://example.com/login"; rq_method := "POST";
               rq_headers := None; rq_params := None; rq_user_ip := None;
               rq_body := Some (TObj [("password", SCRUBBED);
                                      ("username", TPrim (PStr "testuser"));
                                      ("apiKey", SCRUBBED)]) |};
     d_fingerprint := None; d_title := None; d_uuid := None |}.

(** [{ team: 'core', region: 'eu' }], the payload of the configuration, and
    [{ region: 'us', password: 'x' }], custom data of one call. *)
Definition custom_store : gmap loc obj :=
  {[ 1%positive := [("team", VPrim (PStr "core")); ("region", VPrim (PStr "eu"))];
     2%positive := [("region", VPrim (PStr "us")); ("password", VPrim (PStr "x"))] ]}.

Definition team_client : Rollbar :=
  {| config := mkConfig (Some "test-token") (Some "production") None None None
                        None (Some 1%positive) None;
     this_scrubFields := DEFAULT_SCRUB_FIELDS |}.

Definition region_context : ReportContext :=
  mkReportContext None None (Some 2%positive) None None None.

(** [{ body: 'mine', user: 'ann' }], custom data with a [body] of its own. *)
Definition own_body_store : gmap loc obj :=
  {[ 1%positive := [("user", VPrim (PStr "ann")); ("body", VPrim (PStr "mine"))] ]}.

Definition own_body_context : ReportContext :=
  mkReportContext None None (Some 1%positive) None None None.

End Samples.

(** ** Lines of a stack trace *)

Module Lines.
Import Js Regex StackParser.

(** The lines [parseStackLine] answers with [null]: the blank ones and the
    summary lines spelled [Error] or [Error: ...]. *)
Definition skipped (line : string) : bool :=
  let trimmed := trim line in
  String.eqb trimmed "" || startsWith trimmed "Error:" || String.eqb trimmed "Error".

(** The lines of a trace that give a frame, in the order of the trace. *)
Definition kept_lines (text : string) : list string :=
  List.filter (fun line => negb (skipped line)) (split newline text).

(** Every character of [s] is in the class [p]. *)
Definition all_chars (p : ascii -> bool) (s : string) : bool :=
  forallb p (list_ascii_of_string s).


(** The first character of [s] is in the class [p]. *)
Definition head_in (p : ascii -> bool) (s : string) : bool :=
  match s with
  | String c _ => p c
  | EmptyString => false
  end.

(** The end all three patterns share, [:(?<lineno>\d+):(?<colno>\d+)$],
    with [\)?] before the [$] in the first pattern ([close]). *)
Definition numbers_tail (close : bool) : regex :=
  if close
  then seq [ RLit ":"; RGroup Glineno (RPlus is_digit true); RLit ":";
             RGroup Gcolno (RPlus is_digit true); ROpt (RLit ")"); REnd ]
  else seq [ RLit ":"; RGroup Glineno (RPlus is_digit true); RLit ":";
             RGroup Gcolno (RPlus is_digit true); REnd ].

(** The same from the file name on: [(?<filename>.+?)] and the numbers. *)
Definition location_tail (close : bool) : regex :=
  RSeq (RGroup Gfilename (RPlus is_dot false)) (numbers_tail close).





End Lines.

(** ** The first client (the class [Rollbar] of version 1)

    The client the package shipped before [client.ts]: a token, an
    environment, and two methods that post straight to the collector.
    [ErrorStackParser.parse], [JSON.stringify] and [fetch] are
    collaborators, given by what they return or throw. *)

Module Legacy.
Import Js Scrub StackParser Client.

Definition rollbarUrl : string := "https://api.rollbar.com/api/1/item/".

(** [ErrorStackParser.StackFrame] *)
Record ParsedFrame := mkParsedFrame {
  fileName : option string;
  lineNumber : option N;
  columnNumber : option N;
  functionName : option string;
  args : option (list string);
}.

(** The object [Frame] returns. *)
Record FrameData := mkFrameData {
  f_filename : option string;
  f_lineno : option N;
  f_colno : option N;
  f_method : option string;
  f_args : option (list string);
}.

(** [Frame(stackFrame)] *)
Definition Frame (stackFrame : ParsedFrame) : FrameData :=
  {| f_filename := fileName stackFrame;
     f_lineno := lineNumber stackFrame;
     f_colno := columnNumber stackFrame;
     f_method := functionName stackFrame;
     f_args := args stackFrame |}.

(** The two fields of an instance; both stay unset when the constructor
    returns early. *)
Record Rollbar := mkRollbar {
  token : option string;
  environment : option string;
}.

(** [new Rollbar(token, environment)] *)
Definition constructor (token_ environment_ : option string) : Rollbar :=
  if negb (truthy token_) then mkRollbar None None
  else mkRollbar token_ (Some (default "production" environment_)).

(** [rollbarBody.data.body] *)
Inductive Body :=
| Trace (frames : list FrameData) (class : string) (msg : string)
        (description : option string)
| Message (fields : list (string * value)).

(** [rollbarBody] *)
Record Payload := mkPayload {
  access_token : string;
  p_environment : option string;
  p_body : Body;
}.

Record Env := mkEnv {
  parse : Error -> thrown + list ParsedFrame;
  stringify : Payload -> thrown + string;
  fetch : string -> string -> thrown + HttpResponse;
}.

(** [error(error, description)]; [None] is [undefined]. *)
Definition error (this : Rollbar) (env : Env) (e : Error)
    (description : option string) : M (option HttpResponse) :=
  if negb (truthy (token this)) then mret None
  else
    stack ← lift (parse env e);
    let rollbarBody :=
      {| access_token := default "" (token this);
         p_environment := environment this;
         p_body := Trace (Frame <$> stack) (name e) (StackParser.message e)
                         (if truthy description then description else None) |} in
    content ← lift (stringify env rollbarBody);
    emit (Fetch rollbarUrl content);;
    response ← lift (fetch env rollbarUrl content);
    mret (Some response).

(** [message(message, attributes)]; [attributes] are the own properties of
    the object, [None] when it is [null] or absent. *)
Definition message (this : Rollbar) (env : Env) (msg : string)
    (attributes : option obj) : M (option HttpResponse) :=
  if negb (truthy (token this)) then mret None
  else
    let fields0 := [("body", VPrim (PStr msg))] in
    let fields := match attributes with
                  | Some a => spread fields0 a
                  | None => fields0
                  end in
    let rollbarBody :=
      {| access_token := default "" (token this);
         p_environment := environment this;
         p_body := Message fields |} in
    content ← lift (stringify env rollbarBody);
    emit (Fetch rollbarUrl content);;
    response ← lift (fetch env rollbarUrl content);
    mret (Some response).

End Legacy.

Module LegacySamples.
Import Js Scrub StackParser Client.

(** [new Rollbar(env.ROLLBAR_TOKEN, "production")] of the example worker,
    with the token ['test-token']. *)
Definition worker_client : Legacy.Rollbar :=
  Legacy.constructor (Some "test-token") (Some "production").

Definition accepted : HttpResponse :=
  {| status := 200; content_type := Some "application/json"; text := "{}" |}.

(** Collaborators that accept everything. *)
Definition accepting : Legacy.Env :=
  {| Legacy.parse := fun _ => inr [];
     Legacy.stringify := fun _ => inr "{...}";
     Legacy.fetch := fun _ _ => inr accepted |}.

(** [{ password: 'hunter2', user: 'ann' }] *)
Definition login_attributes : obj :=
  [("password", VPrim (PStr "hunter2")); ("user", VPrim (PStr "ann"))].

End LegacySamples.

(** * Properties *)

(** ** Strings *)

Section JsFacts.
Import Js.

Lemma startsWith_spec (s p : string) :
  startsWith s p = true ↔ ∃ post, s = p +:+ post.
Proof.
  revert s. induction p as [|a p IH]; intros s; simpl.
  - split; [intros _; by exists s | done].
  - destruct s as [|b s].
    + split; [done | intros [post H]; discriminate H].
    + destruct (Ascii.eqb_spec a b) as [->|Hne].
      * rewrite IH. split; intros [post H]; exists post.
        -- by rewrite H.
        -- by injection H.
      * split; [done | intros [post H]; injection H; congruence].
Qed.

Lemma includes_spec (s sub : string) :
  includes s sub = true ↔ ∃ pre post, s = pre +:+ sub +:+ post.
Proof.
  induction s as [|c s IH]; simpl.
  - rewrite orb_false_r, startsWith_spec. split.
    + intros [post H]. by exists "", post.
    + intros [pre [post H]]. destruct pre; [by exists post | discriminate H].
  - rewrite orb_true_iff, startsWith_spec, IH. split.
    + intros [[post H] | [pre [post H]]].
      * by exists "", post.
      * exists (String c pre), post. simpl. by rewrite H.
    + intros [pre [post H]]. destruct pre as [|c' pre]; simpl in H.
      * left. by exists post.
      * right. exists pre, post. by injection H.
Qed.

Import Scrub.

Lemma is_sensitive_spec (sf : list string) (key : string) :
  Scrub.is_sensitive sf key = true ↔ ∃ f, f ∈ sf ∧ matches_ci key f.
Proof.
  unfold Scrub.is_sensitive, matches_ci. rewrite existsb_exists. split.
  - intros [x [Hin Heq]]. apply String.eqb_eq in Heq.
    apply in_map_iff in Hin as [f [Hf Hin]]. exists f. split.
    + by apply list_elem_of_In.
    + congruence.
  - intros [f [Hin Heq]]. exists (toLowerCase f). split.
    + apply in_map. by apply list_elem_of_In.
    + by apply String.eqb_eq.
Qed.

Lemma header_sensitive_spec (sf : list string) (key : string) :
  Scrub.header_sensitive sf key = true ↔ ∃ f, f ∈ sf ∧ contains_ci key f.
Proof.
  unfold Scrub.header_sensitive, contains_ci. rewrite existsb_exists.
  split; intros [f [Hin H]]; exists f.
  - apply includes_spec in H. split; [by apply list_elem_of_In | done].
  - split; [by apply list_elem_of_In | by apply includes_spec].
Qed.

Lemma parseInt_exact (s : string) :
  (decimal s < 2 ^ 53)%N → parseInt s = decimal s.
Proof.
  intros H. unfold parseInt, to_double. apply N.ltb_lt in H. by rewrite H.
Qed.

(** Above 2^53 the nearest double is returned: 2^53 + 1 lies half way
    between two doubles and goes to the even one, 2^53 + 3 goes up. *)
Lemma parseInt_rounds :
  parseInt "9007199254740993" = 9007199254740992%N
  ∧ parseInt "9007199254740995" = 9007199254740996%N
  ∧ parseInt "9007199254740992" = 9007199254740992%N.
Proof. by vm_compute. Qed.

End JsFacts.

(** ** The header scrubber *)

Section Headers.
Import Js Scrub Client.

Lemma scrubHeaders_lookup (hs : gmap string string) (extra : list string) (key : string) :
  scrubHeaders hs extra !! key = mask (DEFAULT_SCRUB_HEADERS ++ extra) key <$> hs !! key.
Proof.
  unfold scrubHeaders.
  set (sf := DEFAULT_SCRUB_HEADERS ++ extra).
  set (f := fun (k v : string) (result : gmap string string) =>
              if header_sensitive sf k then <[k := "[SCRUBBED]"]> result
              else <[k := v]> result).
  apply (map_fold_weak_ind
           (fun (r m : gmap string string) => r !! key = mask sf key <$> m !! key) f).
  - by rewrite !lookup_empty.
  - intros k v m r Hk IH. unfold f, mask in *.
    destruct (decide (k = key)) as [->|Hne].
    + destruct (header_sensitive sf key); by rewrite !lookup_insert_eq.
    + destruct (header_sensitive sf k); by rewrite !lookup_insert_ne.
Qed.



End Headers.

(** ** The object scrubber *)

Section ScrubFacts.
Import Js Scrub.

Variable h : gmap loc obj.
Variable sf : list string.

(** *** The function and the relation *)

Lemma scrubKeys_sound (rec : loc → gset loc → option (jtree * gset loc)) :
  (∀ l vis t vis', rec l vis = Some (t, vis') → scrubs h sf l vis t vis') →
  ∀ entries vis out vis',
    scrubKeys rec sf entries vis = Some (out, vis') →
    scrubs_keys h sf entries vis out vis'.
Proof.
  intros Hrec entries.
  induction entries as [|[key v] rest IH]; intros vis out vis' H; simpl in H.
  - injection H as <- <-. constructor.
  - destruct (is_sensitive sf key) eqn:Hs.
    + destruct (scrubKeys rec sf rest vis) as [[out0 vis0]|] eqn:E; [|done].
      injection H as <- <-. apply sk_masked; auto.
    + destruct v as [p|l].
      * destruct (scrubKeys rec sf rest vis) as [[out0 vis0]|] eqn:E; [|done].
        injection H as <- <-. apply sk_prim; auto.
      * destruct (decide (l ∈ vis)) as [Hin|Hnin].
        -- destruct (scrubKeys rec sf rest vis) as [[out0 vis0]|] eqn:E; [|done].
           injection H as <- <-. apply sk_seen; auto.
        -- destruct (rec l vis) as [[t vis1]|] eqn:Er; [|done]. simpl in H.
           destruct (scrubKeys rec sf rest vis1) as [[out0 vis0]|] eqn:E; [|done].
           injection H as <- <-. eapply sk_new; eauto.
Qed.

Lemma scrubObject_sound fuel o vis t vis' :
  scrubObject fuel h sf o vis = Some (t, vis') → scrubs h sf o vis t vis'.
Proof.
  revert o vis t vis'. induction fuel as [|fuel IH]; intros o vis t vis' H; [done|].
  simpl in H. destruct (decide (o ∈ vis)) as [Hin|Hnin].
  - injection H as <- <-. by constructor.
  - destruct (h !! o) as [entries|] eqn:Ho; [|done]. simpl in H.
    destruct (scrubKeys _ sf entries _) as [[out vis0]|] eqn:E; [|done].
    injection H as <- <-. eapply scrubs_new; eauto.
    eapply scrubKeys_sound; eauto.
Qed.

(** *** The visited set only grows *)

Lemma scrubs_mono o vis t vis' : scrubs h sf o vis t vis' → vis ⊆ vis'.
Proof.
  revert o vis t vis'.
  apply (scrubs_mut h sf (fun _ vis _ vis' => vis ⊆ vis')
                         (fun _ vis _ vis' => vis ⊆ vis')); set_solver.
Qed.

Lemma scrubs_keys_mono entries vis out vis' :
  scrubs_keys h sf entries vis out vis' → vis ⊆ vis'.
Proof.
  revert entries vis out vis'.
  apply (scrubs_keys_mut h sf (fun _ vis _ vis' => vis ⊆ vis')
                              (fun _ vis _ vis' => vis ⊆ vis')); set_solver.
Qed.

(** *** Termination *)

Lemma scrubKeys_total (rec : loc → gset loc → option (jtree * gset loc)) (base : gset loc) :
  (∀ l vis, l ∈ dom h → base ⊆ vis →
     ∃ t vis', rec l vis = Some (t, vis') ∧ vis ⊆ vis') →
  ∀ entries vis,
    (∀ key l, (key, VRef l) ∈ entries → l ∈ dom h) →
    base ⊆ vis →
    ∃ out vis', scrubKeys rec sf entries vis = Some (out, vis') ∧ vis ⊆ vis'.
Proof.
  intros Hrec entries.
  induction entries as [|[key v] rest IH]; intros vis Hcl Hb; simpl.
  - by exists [], vis.
  - assert (Hcl' : ∀ key l, (key, VRef l) ∈ rest → l ∈ dom h).
    { intros k l Hin. apply (Hcl k l). by right. }
    destruct (IH vis Hcl' Hb) as (out0 & vis0 & E0 & Hsub0).
    destruct (is_sensitive sf key).
    { rewrite E0. simpl. eauto. }
    destruct v as [p|l].
    { rewrite E0. simpl. eauto. }
    destruct (decide (l ∈ vis)).
    { rewrite E0. simpl. eauto. }
    destruct (Hrec l vis) as (t & vis1 & Er & Hsub1); [|done|].
    { apply (Hcl key l). by left. }
    rewrite Er. simpl.
    destruct (IH vis1 Hcl') as (out2 & vis2 & E2 & Hsub2); [set_solver|].
    rewrite E2. simpl. exists ((key, t) :: out2), vis2. split; [done|set_solver].
Qed.

Lemma scrubObject_total fuel o vis :
  closed h → o ∈ dom h → size (dom h ∖ vis) < fuel →
  ∃ t vis', scrubObject fuel h sf o vis = Some (t, vis') ∧ vis ⊆ vis'.
Proof.
  intros Hcl. revert o vis.
  induction fuel as [|fuel IH]; intros o vis Ho Hsz; [lia|].
  simpl. destruct (decide (o ∈ vis)) as [Hin|Hnin]; [by eauto|].
  apply elem_of_dom in Ho as Ho'. destruct Ho' as [entries Hentries].
  rewrite Hentries. simpl.
  assert (Hlt : size (dom h ∖ ({[o]} ∪ vis)) < size (dom h ∖ vis)).
  { apply subset_size. apply strict_spec_alt. split; [set_solver|].
    intros Heq. assert (o ∈ dom h ∖ vis) as Hd by set_solver.
    rewrite <- Heq in Hd. set_solver. }
  destruct (scrubKeys_total (scrubObject fuel h sf) ({[o]} ∪ vis)) with
    (entries := entries) (vis := {[o]} ∪ vis) as (out & vis' & E & Hsub).
  - intros l vis0 Hl Hb. apply IH; [done|].
    assert (size (dom h ∖ vis0) <= size (dom h ∖ ({[o]} ∪ vis)))%nat; [|lia].
    apply subseteq_size. set_solver.
  - intros key l Hin. eapply Hcl; eauto.
  - done.
  - rewrite E. simpl. exists (TObj out), vis'. split; [done|set_solver].
Qed.

Lemma scrub_total o :
  closed h → o ∈ dom h →
  ∃ out vis, scrub h sf o = Some (TObj out, vis) ∧ scrubs h sf o ∅ (TObj out) vis.
Proof.
  intros Hcl Ho. unfold scrub.
  destruct (scrubObject_total (S (size h)) o ∅ Hcl Ho) as (t & vis & E & _).
  { assert (size (dom h ∖ (∅ : gset loc)) <= size (dom h))%nat.
    { apply subseteq_size. set_solver. }
    rewrite size_dom in H. lia. }
  pose proof (scrubObject_sound _ _ _ _ _ E) as Hrun.
  inversion Hrun; subst; [set_solver|]. eauto.
Qed.

(** *** What ends up in the visited set *)

Lemma scrubs_bound o vis t vis' :
  scrubs h sf o vis t vis' →
  ∀ x, x ∈ vis' → x ∈ vis ∨ rtc (edge h sf) o x.
Proof.
  revert o vis t vis'.
  apply (scrubs_mut h sf
    (fun o vis _ vis' => ∀ x, x ∈ vis' → x ∈ vis ∨ rtc (edge h sf) o x)
    (fun entries vis _ vis' => ∀ x, x ∈ vis' → x ∈ vis ∨
       ∃ key l, (key, VRef l) ∈ entries ∧ is_sensitive sf key = false
                ∧ rtc (edge h sf) l x)).
  - auto.
  - intros o vis entries out vis' Hnin Ho _ IH x Hx.
    destruct (IH x Hx) as [Hin | (key & l & Hin & Hs & Hr)].
    + apply elem_of_union in Hin as [->%elem_of_singleton | Hin]; [right|left]; done.
    + right. eapply rtc_l; [|exact Hr]. exists entries, key. done.
  - auto.
  - intros key v rest vis out vis' Hs _ IH x Hx.
    destruct (IH x Hx) as [?|(k & l & Hin & ? & ?)]; [by left|].
    right. exists k, l. split; [by right|done].
  - intros key p rest vis out vis' Hs _ IH x Hx.
    destruct (IH x Hx) as [?|(k & l & Hin & ? & ?)]; [by left|].
    right. exists k, l. split; [by right|done].
  - intros key l rest vis out vis' Hs Hl _ IH x Hx.
    destruct (IH x Hx) as [?|(k & l0 & Hin & ? & ?)]; [by left|].
    right. exists k, l0. split; [by right|done].
  - intros key l rest vis t vis1 out vis2 Hs Hl _ IH1 _ IH2 x Hx.
    destruct (IH2 x Hx) as [Hx1|(k & l0 & Hin & ? & ?)].
    + destruct (IH1 x Hx1) as [?|Hr]; [by left|].
      right. exists key, l. split; [by left|done].
    + right. exists k, l0. split; [by right|done].
Qed.

(** *** Each entry, one by one *)

Lemma scrubs_keys_lookup entries vis out vis' :
  scrubs_keys h sf entries vis out vis' →
  length out = length entries ∧
  ∀ i key v, entries !! i = Some (key, v) →
    ∃ vi t, vis ⊆ vi ∧ vi ⊆ vis' ∧ out !! i = Some (key, t)
      ∧ entry_run h sf vi key v t
      ∧ ∀ x, x ∈ vi → x ∈ vis ∨
          ∃ j key' l', (j < i)%nat ∧ entries !! j = Some (key', VRef l')
                       ∧ is_sensitive sf key' = false ∧ rtc (edge h sf) l' x.
Proof.
  assert (Hshift : ∀ (rest : obj) kv i (vis0 vi : gset loc),
    (∀ x, x ∈ vi → x ∈ vis0 ∨
       ∃ j key' l', (j < i)%nat ∧ rest !! j = Some (key', VRef l')
                    ∧ is_sensitive sf key' = false ∧ rtc (edge h sf) l' x) →
    ∀ x, x ∈ vi → x ∈ vis0 ∨
       ∃ j key' l', (j < S i)%nat ∧ (kv :: rest) !! j = Some (key', VRef l')
                    ∧ is_sensitive sf key' = false ∧ rtc (edge h sf) l' x).
  { intros rest kv i vis0 vi Hb x Hx.
    destruct (Hb x Hx) as [?|(j & k & l & ? & ? & ? & ?)]; [by left|].
    right. exists (S j), k, l. split; [lia|done]. }
  induction 1 as [vis | key v rest vis out vis' Hs Hrun IH
                 | key p rest vis out vis' Hs Hrun IH
                 | key l rest vis out vis' Hs Hl Hrun IH
                 | key l rest vis t vis1 out vis2 Hs Hl Hone Hrun IH].
  - split; [done|]. intros i key v Hi. by destruct i.
  - destruct IH as [Hlen IH]. split; [simpl; congruence|].
    intros [|i] k v0 Hi; simpl in Hi.
    + injection Hi as <- <-. exists vis, SCRUBBED.
      pose proof (scrubs_keys_mono _ _ _ _ Hrun).
      split_and!; [done|done|done| |by left]. unfold entry_run. by rewrite Hs.
    + destruct (IH i k v0 Hi) as (vi & t & ? & ? & ? & ? & Hb).
      exists vi, t. split_and!; try done. by apply Hshift.
  - destruct IH as [Hlen IH]. split; [simpl; congruence|].
    intros [|i] k v0 Hi; simpl in Hi.
    + injection Hi as <- <-. exists vis, (TPrim p).
      pose proof (scrubs_keys_mono _ _ _ _ Hrun).
      split_and!; [done|done|done| |by left]. unfold entry_run. by rewrite Hs.
    + destruct (IH i k v0 Hi) as (vi & t & ? & ? & ? & ? & Hb).
      exists vi, t. split_and!; try done. by apply Hshift.
  - destruct IH as [Hlen IH]. split; [simpl; congruence|].
    intros [|i] k v0 Hi; simpl in Hi.
    + injection Hi as <- <-. exists vis, CIRCULAR.
      pose proof (scrubs_keys_mono _ _ _ _ Hrun).
      split_and!; [done|done|done| |by left]. unfold entry_run. rewrite Hs. by left.
    + destruct (IH i k v0 Hi) as (vi & t & ? & ? & ? & ? & Hb).
      exists vi, t. split_and!; try done. by apply Hshift.
  - destruct IH as [Hlen IH]. split; [simpl; congruence|].
    pose proof (scrubs_mono _ _ _ _ Hone) as Hm1.
    pose proof (scrubs_keys_mono _ _ _ _ Hrun) as Hm2.
    intros [|i] k v0 Hi; simpl in Hi.
    + injection Hi as <- <-. exists vis, t.
      split_and!; [done|set_solver|done| |by left].
      unfold entry_run. rewrite Hs. right. eauto.
    + destruct (IH i k v0 Hi) as (vi & t' & ? & ? & ? & ? & Hb).
      exists vi, t'. split_and!; [set_solver|done|done|done|].
      intros x Hx. destruct (Hb x Hx) as [Hx1|(j & k' & l' & ? & ? & ? & ?)].
      * destruct (scrubs_bound _ _ _ _ Hone x Hx1) as [?|Hr]; [by left|].
        right. exists 0%nat, key, l. split; [lia|done].
      * right. exists (S j), k', l'. split; [lia|done].
Qed.

(** *** A tree that nothing else refers to is copied as it is *)

Lemma clean_cons key t fields :
  clean sf (TObj ((key, t) :: fields))
  = negb (is_sensitive sf key) && clean sf t && clean sf (TObj fields).
Proof. reflexivity. Qed.

Lemma owns_unfolds v t F : owns h v t F → unfolds h v t.
Proof.
  revert v t F.
  apply (owns_mut h (fun v t _ => unfolds h v t)
                    (fun entries fields _ => unfolds_entries h entries fields));
    intros; econstructor; eauto.
Qed.

Lemma owns_scrubs v t F :
  owns h v t F → clean sf t = true →
  match v with
  | VPrim p => t = TPrim p
  | VRef o => ∀ vis t' vis', scrubs h sf o vis t' vis' → F ## vis →
                t' = t ∧ vis' = vis ∪ F
  end.
Proof.
  revert v t F.
  apply (owns_mut h
    (fun v t F => clean sf t = true →
       match v with
       | VPrim p => t = TPrim p
       | VRef o => ∀ vis t' vis', scrubs h sf o vis t' vis' → F ## vis →
                     t' = t ∧ vis' = vis ∪ F
       end)
    (fun entries fields F => clean sf (TObj fields) = true →
       ∀ vis out vis', scrubs_keys h sf entries vis out vis' → F ## vis →
         out = fields ∧ vis' = vis ∪ F)).
  - done.
  - intros l entries fields F Hl _ IH HlF Hc vis t' vis' Hrun Hd.
    inversion Hrun as [? ? Hin|? ? entries' out ? Hnin Hl' Hkeys]; subst.
    { exfalso. clear -Hin Hd. set_solver. }
    rewrite Hl in Hl'. injection Hl' as <-.
    destruct (IH Hc _ _ _ Hkeys) as [-> ->]; [clear -HlF Hd; set_solver|].
    split; [done|clear; set_solver].
  - intros _ vis out vis' Hrun _. inversion Hrun; subst.
    split; [done|clear; set_solver].
  - intros key v t entries fields F1 F2 Hv IHv _ IHe Hd Hc vis out vis' Hrun Hdv.
    rewrite clean_cons in Hc.
    apply andb_true_iff in Hc as [Hc Hc3]. apply andb_true_iff in Hc as [Hc1 Hc2].
    apply negb_true_iff in Hc1. specialize (IHv Hc2). specialize (IHe Hc3).
    inversion Hrun as [|? ? ? ? ? ? Hs Hk|? ? ? ? ? ? Hs Hk
                       |? ? ? ? ? ? Hs Hin Hk|? ? ? ? ? ? ? ? Hs Hnin Hone Hk];
      subst; try congruence.
    + simpl in IHv. subst t. inversion Hv; subst.
      destruct (IHe _ _ _ Hk) as [-> ->]; [clear -Hdv; set_solver|].
      split; [done|clear; set_solver].
    + inversion Hv; subst. exfalso. clear -Hin Hdv. set_solver.
    + simpl in IHv.
      destruct (IHv _ _ _ Hone) as [-> ->]; [clear -Hdv; set_solver|].
      destruct (IHe _ _ _ Hk) as [-> ->]; [clear -Hdv Hd; set_solver|].
      split; [done|clear; set_solver].
Qed.

(** *** Every walk back to a container already met is cut by the marker *)

Lemma walk_cut o path srcs tgt :
  walk h sf o path srcs tgt →
  ∀ vis t vis', scrubs h sf o vis t vis' → o ∉ vis → path ≠ [] →
    tgt ∈ vis ∨ tgt ∈ srcs →
    ∃ q, q `prefix_of` path ∧ q ≠ [] ∧ tree_at t q = Some CIRCULAR.
Proof.
  induction 1 as [l | l entries i key l' path srcs tgt Hl Hi Hs Hw IH];
    intros vis t vis' Hrun Hnin Hne Htgt; [done|].
  inversion Hrun as [? ? Hin|? ? entries' out ? _ Hl' Hkeys]; subst; [done|].
  rewrite Hl in Hl'. injection Hl' as <-.
  destruct (scrubs_keys_lookup _ _ _ _ Hkeys) as [_ Hlook].
  destruct (Hlook i key (VRef l') Hi) as (vi & ti & Hsub & _ & Hout & Hrun_i & _).
  unfold entry_run in Hrun_i. rewrite Hs in Hrun_i.
  destruct Hrun_i as [[Hin ->] | [Hnin' [vi' Hrun']]].
  - exists [i]. split; [by exists path|]. split; [done|].
    simpl. by rewrite Hout.
  - destruct path as [|j path].
    + inversion Hw; subst. exfalso. apply Hnin'.
      destruct Htgt as [?|Hin]; [set_solver|].
      apply list_elem_of_singleton in Hin as ->. set_solver.
    + destruct (IH vi ti vi' Hrun' Hnin') as (q & Hpre & Hq & Hat); [done| |].
      { destruct Htgt as [?|Hin]; [left; set_solver|].
        apply elem_of_cons in Hin as [->|?]; [left; set_solver|by right]. }
      exists (i :: q). split; [by apply prefix_cons|]. split; [done|].
      simpl. by rewrite Hout.
Qed.

(** *** The visited set, exactly *)

Lemma rtc_wedge_mono (V V' : gset loc) a b :
  V ⊆ V' → rtc (wedge h sf V') a b → rtc (wedge h sf V) a b.
Proof.
  intros Hsub. apply rtc_subrel. intros x y [He Hy]. split; [done|set_solver].
Qed.

Lemma rtc_wedge_edge (V : gset loc) a b :
  rtc (wedge h sf V) a b → rtc (edge h sf) a b.
Proof. apply rtc_subrel. by intros x y [He _]. Qed.

(** A path that avoids [V] either avoids [o] as well, or ends in [o], or
    leaves [o] for the last time and avoids it from there on. *)
Lemma rtc_wedge_last (V : gset loc) o a x :
  rtc (wedge h sf V) a x →
  rtc (wedge h sf ({[o]} ∪ V)) a x
  ∨ x = o
  ∨ ∃ l, wedge h sf V o l ∧ l ≠ o ∧ rtc (wedge h sf ({[o]} ∪ V)) l x.
Proof.
  induction 1 as [a|a b x Hab Hbx IH]; [by left|].
  destruct IH as [IH|[->|IH]]; [|by right; left|by right; right].
  destruct (decide (b = o)) as [->|Hne].
  - inversion IH as [|? l ? Hol Hlx]; subst; [by right; left|].
    right; right. exists l. destruct Hol as [He Hl].
    split_and!; [split; [done|set_solver]|set_solver|done].
  - left. eapply rtc_l; [|done]. destruct Hab. split; [done|set_solver].
Qed.

(** A path that avoids [V] either avoids the larger set as well, or meets
    it in some container, from which the rest of the path goes on. *)
Lemma rtc_wedge_first (V V1 : gset loc) a x :
  a ∉ V → rtc (wedge h sf V) a x →
  ((a ∉ V1) ∧ rtc (wedge h sf V1) a x)
  ∨ ∃ y, y ∈ V1 ∧ (y ∉ V) ∧ rtc (wedge h sf V) y x.
Proof.
  intros Ha Hr. induction Hr as [a|a b x Hab Hbx IH].
  - destruct (decide (a ∈ V1)); [right; by exists a|by left].
  - destruct (decide (a ∈ V1)) as [Hin|Hnin].
    { right. exists a. split_and!; [done|done|by eapply rtc_l]. }
    destruct IH as [[Hb Hr]|IH]; [by destruct Hab| |by right].
    left. split; [done|]. eapply rtc_l; [|done]. destruct Hab. by split.
Qed.

(** A call marks what it can reach without entering what was marked. *)
Lemma scrubs_marks_both :
  (∀ o vis t vis', scrubs h sf o vis t vis' →
     o ∉ vis → ∀ x, x ∈ vis' ↔ x ∈ vis ∨ rtc (wedge h sf vis) o x)
  ∧ (∀ entries vis out vis', scrubs_keys h sf entries vis out vis' →
     ∀ x, x ∈ vis' ↔ x ∈ vis
            ∨ ∃ key l, (key, VRef l) ∈ entries ∧ is_sensitive sf key = false
                       ∧ marks h sf vis l x).
Proof.
  apply scrubs_both.
  - intros o vis Hin Hnin. done.
  - intros o vis entries out vis' Hnin Ho Hkeys IH _ x. rewrite IH. split.
    + intros [Hx|(key & l & Hin & Hs & Hl & Hr)].
      * apply elem_of_union in Hx as [->%elem_of_singleton|Hx];
          [right; constructor|by left].
      * right. eapply rtc_l.
        -- split; [by exists entries, key|set_solver].
        -- eapply rtc_wedge_mono; [|done]. set_solver.
    + intros [Hx|Hr]; [left; set_solver|].
      assert (Hstep : ∀ l, wedge h sf vis o l → l ≠ o →
                rtc (wedge h sf ({[o]} ∪ vis)) l x →
                ∃ key l, (key, VRef l) ∈ entries ∧ is_sensitive sf key = false
                         ∧ marks h sf ({[o]} ∪ vis) l x).
      { intros l [(entries' & key & Ho' & Hin & Hs) Hl] Hne Hlx.
        rewrite Ho in Ho'. injection Ho' as <-.
        exists key, l. split_and!; [done|done|]. split; [set_solver|done]. }
      destruct (rtc_wedge_last vis o o x Hr) as [Hr'|[->|(l & Hol & Hne & Hr')]].
      * inversion Hr' as [|? l ? [He Hl] Hlx]; subst; [left; set_solver|].
        right. apply (Hstep l); [split; [done|set_solver]|set_solver|done].
      * left; set_solver.
      * right. by apply (Hstep l).
  - intros vis x. split; [by left|].
    intros [?|(key & l & Hin & _)]; [done|]. by apply elem_of_nil in Hin.
  - intros key v rest vis out vis' Hs _ IH x. rewrite IH. split.
    + intros [?|(k & l & Hin & ? & ?)]; [by left|].
      right. exists k, l. split; [by right|done].
    + intros [?|(k & l & Hin & Hs' & ?)]; [by left|]. right.
      apply elem_of_cons in Hin as [Heq|Hin]; [|by exists k, l].
      injection Heq as -> <-. congruence.
  - intros key p rest vis out vis' Hs _ IH x. rewrite IH. split.
    + intros [?|(k & l & Hin & ? & ?)]; [by left|].
      right. exists k, l. split; [by right|done].
    + intros [?|(k & l & Hin & Hs' & ?)]; [by left|]. right.
      apply elem_of_cons in Hin as [Heq|Hin]; [done|by exists k, l].
  - intros key l rest vis out vis' Hs Hl _ IH x. rewrite IH. split.
    + intros [?|(k & l0 & Hin & ? & ?)]; [by left|].
      right. exists k, l0. split; [by right|done].
    + intros [?|(k & l0 & Hin & Hs' & Hm)]; [by left|]. right.
      apply elem_of_cons in Hin as [Heq|Hin]; [|by exists k, l0].
      injection Heq as -> ->. by destruct Hm.
  - intros key l rest vis t vis1 out vis2 Hs Hl Hone IH1 Hrest IH2 x.
    specialize (IH1 Hl). rewrite IH2.
    assert (Hsub : vis ⊆ vis1) by (by eapply scrubs_mono).
    split.
    + intros [Hx|(k & l0 & Hin & Hs' & [Hl0 Hr])].
      * apply IH1 in Hx as [?|Hr]; [by left|].
        right. exists key, l. split_and!; [by left|done|by split].
      * right. exists k, l0. split_and!; [by right|done|].
        split; [set_solver|by eapply rtc_wedge_mono].
    + intros [Hx|(k & l0 & Hin & Hs' & [Hl0 Hr])].
      * left. apply IH1. by left.
      * apply elem_of_cons in Hin as [Heq|Hin].
        -- injection Heq as -> ->. left. apply IH1. by right.
        -- destruct (rtc_wedge_first vis vis1 l0 x Hl0 Hr)
             as [[Hn Hr1]|(y & Hy1 & Hy & Hyx)].
           ++ right. exists k, l0. split_and!; [done|done|by split].
           ++ left. apply IH1. right.
              apply IH1 in Hy1 as [?|Hly]; [done|]. by etrans.
Qed.

(** *** The run is the function, with enough fuel *)

Lemma scrubs_complete_both :
  (∀ o vis t vis', scrubs h sf o vis t vis' →
     ∃ n, ∀ fuel, (n ≤ fuel)%nat → scrubObject fuel h sf o vis = Some (t, vis'))
  ∧ (∀ entries vis out vis', scrubs_keys h sf entries vis out vis' →
     ∃ n, ∀ fuel, (n ≤ fuel)%nat →
       scrubKeys (scrubObject fuel h sf) sf entries vis = Some (out, vis')).
Proof.
  apply scrubs_both.
  - intros o vis Hin. exists 1%nat. intros [|fuel] Hf; [lia|].
    simpl. by rewrite decide_True.
  - intros o vis entries out vis' Hnin Ho _ [n IH]. exists (S n).
    intros [|fuel] Hf; [lia|].
    simpl. rewrite decide_False by done. rewrite Ho. simpl.
    by rewrite IH by lia.
  - intros vis. by exists 0%nat.
  - intros key v rest vis out vis' Hs _ [n IH]. exists n. intros fuel Hf.
    simpl. by rewrite Hs, IH.
  - intros key p rest vis out vis' Hs _ [n IH]. exists n. intros fuel Hf.
    simpl. by rewrite Hs, IH.
  - intros key l rest vis out vis' Hs Hl _ [n IH]. exists n. intros fuel Hf.
    simpl. rewrite Hs, decide_True by done. by rewrite IH.
  - intros key l rest vis t vis1 out vis2 Hs Hl _ [n1 IH1] _ [n2 IH2].
    exists (n1 `max` n2). intros fuel Hf.
    simpl. rewrite Hs, decide_False by done. rewrite IH1 by lia. simpl.
    by rewrite IH2 by lia.
Qed.

(** *** The loop, cut in two at any entry *)

Lemma scrubs_keys_split entries vis out vis' (i : nat) :
  scrubs_keys h sf entries vis out vis' →
  ∃ vi, scrubs_keys h sf (take i entries) vis (take i out) vi
        ∧ scrubs_keys h sf (drop i entries) vi (drop i out) vis'.
Proof.
  intros Hrun. revert i.
  induction Hrun as [vis | key v rest vis out vis' Hs Hrun IH
                    | key p rest vis out vis' Hs Hrun IH
                    | key l rest vis out vis' Hs Hl Hrun IH
                    | key l rest vis t vis1 out vis2 Hs Hl Hone Hrun IH];
    intros [|i]; simpl.
  - exists vis. split; constructor.
  - exists vis. split; constructor.
  - exists vis. split; [constructor|by apply sk_masked].
  - destruct (IH i) as (vi & H1 & H2). exists vi. split; [by apply sk_masked|done].
  - exists vis. split; [constructor|by apply sk_prim].
  - destruct (IH i) as (vi & H1 & H2). exists vi. split; [by apply sk_prim|done].
  - exists vis. split; [constructor|by apply sk_seen].
  - destruct (IH i) as (vi & H1 & H2). exists vi. split; [by apply sk_seen|done].
  - exists vis. split; [constructor|by eapply sk_new].
  - destruct (IH i) as (vi & H1 & H2). exists vi. split; [by eapply sk_new|done].
Qed.

Lemma seen_take o vis entries i (vi : gset loc) :
  (∀ x, x ∈ vi ↔ x ∈ ({[o]} ∪ vis : gset loc)
          ∨ ∃ key l, (key, VRef l) ∈ take i entries ∧ is_sensitive sf key = false
                     ∧ marks h sf ({[o]} ∪ vis) l x) →
  ∀ x, x ∈ vi ↔ seen h sf vis o entries i x.
Proof.
  intros Hvi x. rewrite Hvi. unfold seen.
  rewrite elem_of_union, elem_of_singleton. split.
  - intros [[->|?]|(key & l & Hin & Hs & Hm)]; [by right; left|by left|].
    apply elem_of_take in Hin as (j & Hj & Hlt).
    right; right. by exists j, key, l.
  - intros [?|[->|(j & key & l & Hlt & Hj & Hs & Hm)]];
      [left; by right|left; by left|].
    right. exists key, l. split_and!; [|done|done].
    apply elem_of_take. by exists j.
Qed.

(** *** Each entry, exactly *)

Lemma scrubs_keys_entry o vis entries out vis' i key v :
  scrubs_keys h sf entries ({[o]} ∪ vis) out vis' →
  entries !! i = Some (key, v) →
  ∃ t, out !! i = Some (key, t) ∧ entry_rule h sf vis o entries i key v t.
Proof.
  intros Hrun Hi.
  destruct (scrubs_keys_split _ _ _ _ i Hrun) as (vi & Hpre & Hsuf).
  pose proof (seen_take o vis entries i vi
                (proj2 scrubs_marks_both _ _ _ _ Hpre)) as Hvi.
  rewrite (drop_S _ _ _ Hi) in Hsuf.
  assert (Hout : ∀ t rest, (key, t) :: rest = drop i out → out !! i = Some (key, t)).
  { intros t rest Hd. rewrite <- (Nat.add_0_r i), <- lookup_drop, <- Hd. done. }
  unfold entry_rule.
  inversion Hsuf as [|? ? ? ? out0 ? Hs Hk [Hv Hr] Hvis Heq
                     |? ? ? ? out0 ? Hs Hk [Hv Hr] Hvis Heq
                     |? ? ? ? out0 ? Hs Hin Hk [Hv Hr] Hvis Heq
                     |? ? ? ? t vis1 out0 ? Hs Hnin Hone Hk [Hv Hr] Hvis Heq];
    subst; rewrite Hs.
  - exists SCRUBBED. split; [by eapply Hout|done].
  - exists (TPrim p). split; [by eapply Hout|done].
  - exists CIRCULAR. split; [by eapply Hout|]. split; [done|].
    intros Hn. destruct Hn. by apply Hvi.
  - exists t. split; [by eapply Hout|]. split.
    + intros Hseen. by apply Hvi in Hseen.
    + intros _.
      inversion Hone as [|? ? lentries fields ? _ Hl Hkeys]; subst; [done|].
      destruct (proj1 scrubs_complete_both _ _ _ _ Hone) as [n Hn].
      exists fields, n, vi, vis1. split_and!; [done|done|by apply Hn].
Qed.

(** *** Each call, exactly *)

Lemma scrubs_call o vis t vis' :
  scrubs h sf o vis t vis' →
  (o ∈ vis → t = CIRCULAR ∧ vis' = vis)
  ∧ (o ∉ vis →
       ∃ entries out,
         h !! o = Some entries ∧ t = TObj out ∧ length out = length entries
         ∧ (∀ i key v, entries !! i = Some (key, v) →
              ∃ t', out !! i = Some (key, t')
                    ∧ entry_rule h sf vis o entries i key v t')
         ∧ ∀ x, x ∈ vis' ↔ x ∈ vis ∨ rtc (wedge h sf vis) o x).
Proof.
  intros Hrun. split; intros Ho.
  - by inversion Hrun; subst.
  - pose proof (proj1 scrubs_marks_both _ _ _ _ Hrun Ho) as Hvis.
    inversion Hrun as [|? ? entries out ? _ Hentries Hkeys]; subst; [done|].
    exists entries, out. split_and!; [done|done| | |done].
    + by destruct (scrubs_keys_lookup _ _ _ _ Hkeys).
    + intros i key v Hi. by eapply scrubs_keys_entry.
Qed.

(** *** Every object of the result comes from a call *)

Lemma walk_enter o path srcs tgt :
  walk h sf o path srcs tgt →
  ∀ vis t vis' fields,
    scrubs h sf o vis t vis' → o ∉ vis →
    tree_at t path = Some (TObj fields) →
    ∃ vis0 vis1,
      scrubs h sf tgt vis0 (TObj fields) vis1
      ∧ (tgt ∉ vis0) ∧ vis ⊆ vis0 ∧ ∀ s, s ∈ srcs → s ∈ vis0.
Proof.
  induction 1 as [l | l entries i key l' path srcs tgt Hl Hi Hs Hw IH];
    intros vis t vis' fields Hrun Hnin Hat.
  - simpl in Hat. injection Hat as ->. exists vis, vis'.
    split_and!; [done|done|done|]. intros s Hin. by apply elem_of_nil in Hin.
  - inversion Hrun as [? ? Hin|? ? entries' out ? _ Hl' Hkeys]; subst; [done|].
    rewrite Hl in Hl'. injection Hl' as <-.
    destruct (scrubs_keys_lookup _ _ _ _ Hkeys) as [_ Hlook].
    destruct (Hlook i key (VRef l') Hi) as (vi & ti & Hsub & _ & Hout & Hrun_i & _).
    simpl in Hat. rewrite Hout in Hat. simpl in Hat.
    unfold entry_run in Hrun_i. rewrite Hs in Hrun_i.
    destruct Hrun_i as [[Hin ->] | [Hnin' [vi' Hrun']]].
    { by destruct path. }
    destruct (IH vi ti vi' fields Hrun' Hnin' Hat) as (vis0 & vis1 & H0 & Ht & Hsub0 & Hsrcs).
    exists vis0, vis1. split_and!; [done|done|set_solver|].
    intros s [->|Hin]%elem_of_cons; [set_solver|by apply Hsrcs].
Qed.

End ScrubFacts.

(** *** The values of sensitive keys have no influence *)

Section Agreement.
Import Js Scrub.

Variable sf : list string.

Lemma scrubKeys_agree (rec1 rec2 : loc → gset loc → option (jtree * gset loc)) :
  (∀ l vis, rec1 l vis = rec2 l vis) →
  ∀ e1 e2 vis, entries_agree sf e1 e2 →
    scrubKeys rec1 sf e1 vis = scrubKeys rec2 sf e2 vis.
Proof.
  intros Hrec e1 e2 vis Hag. revert vis.
  induction Hag as [|[k1 v1] [k2 v2] e1 e2 [Hk Hv] _ IH]; intros vis; [done|].
  simpl in Hk, Hv. subst k2. simpl.
  destruct (is_sensitive sf k1) eqn:Hs.
  - by rewrite IH.
  - rewrite <- (Hv eq_refl). destruct v1 as [p|l].
    + by rewrite IH.
    + destruct (decide (l ∈ vis)); [by rewrite IH|].
      rewrite Hrec. destruct (rec2 l vis) as [[t vis1]|]; [|done].
      simpl. by rewrite IH.
Qed.

Lemma scrubObject_agree (h1 h2 : gmap loc obj) :
  stores_agree sf h1 h2 →
  ∀ fuel o vis, scrubObject fuel h1 sf o vis = scrubObject fuel h2 sf o vis.
Proof.
  intros Hag fuel. induction fuel as [|fuel IH]; intros o vis; [done|].
  simpl. destruct (decide (o ∈ vis)); [done|].
  destruct (Hag o) as [e1 e2 He|]; [|done]. simpl.
  by rewrite (scrubKeys_agree _ _ IH e1 e2 _ He).
Qed.

Lemma stores_agree_size (h1 h2 : gmap loc obj) :
  stores_agree sf h1 h2 → size h1 = size h2.
Proof.
  intros Hag. rewrite <- !size_dom. f_equal. apply set_eq. intros l.
  rewrite !elem_of_dom. destruct (Hag l); split; intros [? ?]; by eauto.
Qed.

Lemma scrub_agree (h1 h2 : gmap loc obj) (o : loc) :
  stores_agree sf h1 h2 → scrub h1 sf o = scrub h2 sf o.
Proof.
  intros Hag. unfold scrub. rewrite (stores_agree_size _ _ Hag).
  by apply scrubObject_agree.
Qed.

End Agreement.

(** ** The claims about [scrubObject] *)

Section ScrubClaims.
Import Js Scrub Client.

Lemma closed_check (h : gmap loc obj) : closedb h = true → closed h.
Proof.
  unfold closedb, closed. intros Hb l entries key l' Hl Hin.
  rewrite forallb_forall in Hb.
  assert (Hle : In (l, entries) (map_to_list h)).
  { apply list_elem_of_In. by apply elem_of_map_to_list. }
  specialize (Hb (l, entries) Hle). simpl in Hb.
  rewrite forallb_forall in Hb.
  assert (Hkv : In (key, VRef l') entries) by by apply list_elem_of_In.
  specialize (Hb (key, VRef l') Hkv). simpl in Hb.
  by apply bool_decide_eq_true in Hb.
Qed.

Lemma scrubKeys_lookup (h : gmap loc obj) (sf : list string) (fuel : nat)
    (entries : obj) vis out vis' :
  scrubKeys (scrubObject fuel h sf) sf entries vis = Some (out, vis') →
  length out = length entries ∧
  ∀ i key v, entries !! i = Some (key, v) →
    ∃ t, out !! i = Some (key, t) ∧ scrubbed_entry h sf key v t.
Proof.
  revert vis out vis'.
  induction entries as [|[k v0] rest IH]; intros vis out vis' H; simpl in H.
  { injection H as <- <-. split; [done|]. intros i ? ? Hi. by destruct i. }
  assert (Hstep : ∀ t0 out0 vis0 vis1,
            scrubKeys (scrubObject fuel h sf) sf rest vis0 = Some (out0, vis1) →
            scrubbed_entry h sf k v0 t0 →
            length ((k, t0) :: out0) = length ((k, v0) :: rest) ∧
            ∀ i key v, ((k, v0) :: rest) !! i = Some (key, v) →
              ∃ t, ((k, t0) :: out0) !! i = Some (key, t)
                   ∧ scrubbed_entry h sf key v t).
  { intros t0 out0 vis0 vis1 E Ht0. destruct (IH _ _ _ E) as [Hlen Hl].
    split; [simpl; congruence|]. intros [|i] key v Hi; simpl in Hi.
    - injection Hi as <- <-. by exists t0.
    - by apply Hl. }
  unfold scrubbed_entry in Hstep at 1.
  destruct (is_sensitive sf k) eqn:Hs.
  - destruct (scrubKeys _ sf rest vis) as [[out0 vis0]|] eqn:E; [|done].
    injection H as <- <-. by eapply Hstep.
  - destruct v0 as [p|l].
    + destruct (scrubKeys _ sf rest vis) as [[out0 vis0]|] eqn:E; [|done].
      injection H as <- <-. by eapply Hstep.
    + destruct (decide (l ∈ vis)) as [Hin|Hnin].
      * destruct (scrubKeys _ sf rest vis) as [[out0 vis0]|] eqn:E; [|done].
        injection H as <- <-. eapply Hstep; [done|by left].
      * destruct (scrubObject fuel h sf l vis) as [[t vis1]|] eqn:Er; [|done].
        simpl in H.
        destruct (scrubKeys _ sf rest vis1) as [[out0 vis0]|] eqn:E; [|done].
        injection H as <- <-. eapply Hstep; [done|]. right. by exists fuel, vis, vis1.
Qed.

Lemma ascii_names_check (h : gmap loc obj) (sf : list string) :
  ascii_namesb h sf = true → ascii_names h sf.
Proof.
  unfold ascii_namesb, ascii_names. intros [Hf Hk]%andb_true_iff.
  rewrite forallb_forall in Hf, Hk. split.
  - intros f Hin. apply Hf. by apply list_elem_of_In.
  - intros l entries key v Hl Hin.
    assert (Hle : In (l, entries) (map_to_list h)).
    { apply list_elem_of_In. by apply elem_of_map_to_list. }
    specialize (Hk (l, entries) Hle). simpl in Hk.
    rewrite forallb_forall in Hk.
    apply (Hk (key, v)). by apply list_elem_of_In.
Qed.

(** C1 (amended). For every finite mapping (a closed store with ASCII
    names, and a container [root] of it), cyclic or not, [scrubObject]
    terminates and returns an object with one field per entry, each field
    as [entry_rule] says: a sensitive key holds "[SCRUBBED]" whatever its
    value, a reference included; any other primitive is kept; any other
    reference holds "[Circular Reference]" exactly when its container is
    in the visited set as the loop comes to it (it is [root] itself, or a
    call made for an earlier entry marked it), and otherwise the object
    that the recursive call on it returns.  The same rule holds in every
    object of the result, at any depth, with a visited set that holds
    every container on the way down to it, and in every call of
    [scrubObject], which marks exactly what it reaches without entering
    what was marked.  So an edge back to a container on the way down, the
    mapping itself included, is the edge that is replaced; every walk that
    comes back to a container it has passed is cut somewhere along it; and
    a second reference to a container that an earlier entry has led to is
    replaced too, cycle or no cycle.  A sibling that is a primitive is
    kept; a sibling that is a tree of containers, none of them [root] or
    reachable from an earlier entry and none with a sensitive key, is
    copied container by container and key by key, each container as a
    plain object (an array too, its indices as keys). *)
Theorem C1_scrubObject_terminates_and_cuts_cycles
    (h : gmap loc obj) (sf : list string) (root : loc) (entries : obj)
    (Hclosed : closed h) (Hascii : ascii_names h sf)
    (Hroot : h !! root = Some entries) :
  ∃ out vis,
    scrub h sf root = Some (TObj out, vis)
    ∧ length out = length entries
    ∧ (∀ i key v, entries !! i = Some (key, v) →
         ∃ t, out !! i = Some (key, t)
              ∧ entry_rule h sf ∅ root entries i key v t)
    ∧ (∀ path srcs tgt fields,
         walk h sf root path srcs tgt →
         tree_at (TObj out) path = Some (TObj fields) →
         ∃ tentries vis0,
           h !! tgt = Some tentries ∧ length fields = length tentries
           ∧ (tgt ∉ vis0) ∧ (∀ s, s ∈ srcs → s ∈ vis0)
           ∧ ∀ i key v, tentries !! i = Some (key, v) →
               ∃ t, fields !! i = Some (key, t)
                    ∧ entry_rule h sf vis0 tgt tentries i key v t)
    ∧ (∀ path srcs tgt fields tentries i key l,
         walk h sf root path srcs tgt →
         tree_at (TObj out) path = Some (TObj fields) →
         h !! tgt = Some tentries → tentries !! i = Some (key, VRef l) →
         is_sensitive sf key = false → l = tgt ∨ l ∈ srcs →
         fields !! i = Some (key, CIRCULAR))
    ∧ (∀ path srcs tgt, walk h sf root path srcs tgt → path ≠ [] → tgt ∈ srcs →
         ∃ q, q `prefix_of` path ∧ q ≠ [] ∧ tree_at (TObj out) q = Some CIRCULAR)
    ∧ (∀ i j key key' l l',
         (j < i)%nat → entries !! j = Some (key', VRef l') →
         is_sensitive sf key' = false → marks h sf {[root]} l' l →
         entries !! i = Some (key, VRef l) → is_sensitive sf key = false →
         out !! i = Some (key, CIRCULAR))
    ∧ (∀ i key v, entries !! i = Some (key, v) →
         is_sensitive sf key = true → out !! i = Some (key, SCRUBBED))
    ∧ (∀ i key, entries !! i = Some (key, VRef root) →
         is_sensitive sf key = false → out !! i = Some (key, CIRCULAR))
    ∧ (∀ i key p, entries !! i = Some (key, VPrim p) →
         is_sensitive sf key = false → out !! i = Some (key, TPrim p))
    ∧ (∀ i key v t F, entries !! i = Some (key, v) →
         is_sensitive sf key = false →
         owns h v t F → clean sf t = true → root ∉ F →
         (∀ j key' l' x, (j < i)%nat → entries !! j = Some (key', VRef l') →
            is_sensitive sf key' = false → rtc (edge h sf) l' x → x ∉ F) →
         unfolds h v t ∧ out !! i = Some (key, t))
    ∧ (∀ fuel o vis0 t vis',
         scrubObject fuel h sf o vis0 = Some (t, vis') →
         (o ∈ vis0 → t = CIRCULAR ∧ vis' = vis0)
         ∧ (o ∉ vis0 →
              ∃ oentries fields,
                h !! o = Some oentries ∧ t = TObj fields
                ∧ length fields = length oentries
                ∧ (∀ i key v, oentries !! i = Some (key, v) →
                     ∃ t', fields !! i = Some (key, t')
                           ∧ entry_rule h sf vis0 o oentries i key v t')
                ∧ ∀ x, x ∈ vis' ↔ x ∈ vis0 ∨ rtc (wedge h sf vis0) o x)).
Proof.
  assert (Hdom : root ∈ dom h) by (apply elem_of_dom; eauto).
  destruct (scrub_total h sf root Hclosed Hdom) as (out & vis & Hscrub & Hrun).
  exists out, vis. split; [done|].
  assert (Hnin : root ∉ (∅ : gset loc)) by set_solver.
  destruct (proj2 (scrubs_call h sf _ _ _ _ Hrun) Hnin)
    as (entries' & out' & Hroot' & [= <-] & Hlen & Hrule & _).
  pose proof (eq_trans (eq_sym Hroot') Hroot) as [= ->]. clear Hroot'.
  inversion Hrun as [|? ? entries' ? ? _ Hroot' Hkeys]; subst.
  rewrite Hroot in Hroot'. injection Hroot' as <-.
  destruct (scrubs_keys_lookup _ _ _ _ _ _ Hkeys) as [_ Hlook].
  assert (Hnested : ∀ path srcs tgt fields,
    walk h sf root path srcs tgt →
    tree_at (TObj out) path = Some (TObj fields) →
    ∃ tentries vis0,
      h !! tgt = Some tentries ∧ length fields = length tentries
      ∧ (tgt ∉ vis0) ∧ (∀ s, s ∈ srcs → s ∈ vis0)
      ∧ ∀ i key v, tentries !! i = Some (key, v) →
          ∃ t, fields !! i = Some (key, t)
               ∧ entry_rule h sf vis0 tgt tentries i key v t).
  { intros path srcs tgt fields Hw Hat.
    destruct (walk_enter h sf _ _ _ _ Hw _ _ _ _ Hrun Hnin Hat)
      as (vis0 & vis1 & Hcall & Htgt & _ & Hsrcs).
    destruct (proj2 (scrubs_call h sf _ _ _ _ Hcall) Htgt)
      as (tentries & fields' & Ht & [= <-] & Hlen' & Hrule' & _).
    by exists tentries, vis0. }
  split_and!.
  - done.
  - done.
  - done.
  - intros path srcs tgt fields tentries i key l Hw Hat Ht Hi Hs Hl.
    destruct (Hnested path srcs tgt fields Hw Hat)
      as (tentries' & vis0 & Ht' & _ & _ & Hsrcs & Hrule').
    pose proof (eq_trans (eq_sym Ht') Ht) as [= ->].
    destruct (Hrule' i key _ Hi) as (t & Hout & Hent).
    unfold entry_rule in Hent. rewrite Hs in Hent. destruct Hent as [Hseen _].
    rewrite Hout, Hseen; [done|].
    destruct Hl as [->|Hl]; [right; by left|left; by apply Hsrcs].
  - intros path srcs tgt Hw Hne Htgt.
    eapply (walk_cut h sf); eauto.
  - intros i j key key' l l' Hlt Hj Hs' Hm Hi Hs.
    destruct (Hrule i key _ Hi) as (t & Hout & Hent).
    unfold entry_rule in Hent. rewrite Hs in Hent. destruct Hent as [Hseen _].
    rewrite Hout, Hseen; [done|].
    right; right. exists j, key', l'. split_and!; try done.
    by replace ({[root]} ∪ ∅ : gset loc) with ({[root]} : gset loc) by set_solver.
  - intros i key v Hi Hs.
    destruct (Hrule i key _ Hi) as (t & Hout & Hent).
    unfold entry_rule in Hent. rewrite Hs in Hent. by subst t.
  - intros i key Hi Hs.
    destruct (Hrule i key _ Hi) as (t & Hout & Hent).
    unfold entry_rule in Hent. rewrite Hs in Hent. destruct Hent as [Hseen _].
    rewrite Hout, Hseen; [done|]. right; by left.
  - intros i key p Hi Hs.
    destruct (Hrule i key _ Hi) as (t & Hout & Hent).
    unfold entry_rule in Hent. rewrite Hs in Hent. by subst t.
  - intros i key v t F Hi Hs Hown Hclean HrootF Hsep.
    split; [by eapply owns_unfolds|].
    destruct (Hlook i key _ Hi) as (vi & t0 & _ & _ & Hout & Hent & Hb).
    assert (Hdisj : ∀ x, x ∈ vi → x ∉ F).
    { intros x Hx. destruct (Hb x Hx) as [Hx0|(j & k' & l' & ? & ? & ? & ?)].
      - assert (x = root) as -> by set_solver. done.
      - eapply Hsep; eauto. }
    unfold entry_run in Hent. rewrite Hs in Hent.
    pose proof (owns_scrubs h sf v t F Hown Hclean) as Hcopy.
    destruct v as [p|l].
    + by subst.
    + assert (HlF : l ∈ F) by (inversion Hown; subst; set_solver).
      destruct Hent as [[Hin _]|[_ [vi' Hrun']]].
      * exfalso. by apply (Hdisj l).
      * destruct (Hcopy _ _ _ Hrun') as [-> _]; [|done].
        intros x HxF Hxv. by apply (Hdisj x).
  - intros fuel o vis0 t vis' Hcall.
    apply scrubObject_sound in Hcall. by apply scrubs_call.
Qed.

Lemma C1_witness :
  ∃ out vis fields,
    scrub Examples.family_store DEFAULT_SCRUB_FIELDS 1%positive = Some (TObj out, vis)
    ∧ length out = 2%nat
    ∧ tree_at (TObj out) [1%nat] = Some (TObj fields)
    ∧ fields !! 1%nat = Some ("parent", CIRCULAR).
Proof.
  assert (Hclosed : closed Examples.family_store)
    by (apply closed_check; vm_compute; reflexivity).
  assert (Hascii : ascii_names Examples.family_store DEFAULT_SCRUB_FIELDS)
    by (apply ascii_names_check; vm_compute; reflexivity).
  assert (Hroot : Examples.family_store !! 1%positive
                  = Some [("name", VPrim (PStr "parent")); ("child", VRef 2%positive)])
    by (vm_compute; reflexivity).
  assert (Hchild : Examples.family_store !! 2%positive
                   = Some [("name", VPrim (PStr "child")); ("parent", VRef 1%positive)])
    by (vm_compute; reflexivity).
  destruct (C1_scrubObject_terminates_and_cuts_cycles
              Examples.family_store DEFAULT_SCRUB_FIELDS 1%positive _
              Hclosed Hascii Hroot)
    as (out & vis & Hscrub & Hlen & _ & _ & Hback & _).
  assert (Hat : ∃ fields, tree_at (TObj out) [1%nat] = Some (TObj fields)).
  { vm_compute in Hscrub. injection Hscrub as <- _. eexists. reflexivity. }
  destruct Hat as [fields Hat].
  exists out, vis, fields. split_and!; [done|done|done|].
  apply (Hback [1%nat] [1%positive] 2%positive fields
           [("name", VPrim (PStr "child")); ("parent", VRef 1%positive)]
           1%nat "parent" 1%positive);
    [|done|exact Hchild|reflexivity|reflexivity|right; by left].
  eapply walk_cons; [exact Hroot|reflexivity|reflexivity|constructor].
Defined.

(** C1, as it is worded, fails on [order]: the second reference to the
    address, which lies on no cycle, is replaced by the marker. *)
Lemma C1_counterexample :
  ¬ AsStated.C1 Examples.order_store DEFAULT_SCRUB_FIELDS 1%positive.
Proof.
  intros H.
  destruct (H Examples.order_entries) as (out & vis & Hscrub & _ & Hsib).
  - apply closed_check. vm_compute. reflexivity.
  - vm_compute. reflexivity.
  - exists 1%positive. split; [constructor|]. apply tc_once.
    exists Examples.order_entries, "self". split_and!.
    + vm_compute. reflexivity.
    + unfold Examples.order_entries. set_solver.
    + reflexivity.
  - specialize (Hsib 3%nat "shipping" (VRef 2%positive) Examples.addr_tree eq_refl).
    assert (Hout : out !! 3%nat = Some ("shipping", CIRCULAR)).
    { vm_compute in Hscrub. injection Hscrub as <- _. reflexivity. }
    rewrite Hout in Hsib. discriminate Hsib.
    eapply unfolds_ref; [vm_compute; reflexivity|]. repeat constructor.
Qed.

(** C2 (amended). A key is sensitive exactly when its name matches a
    configured field name case-insensitively.  For every mapping passed to
    [scrubObject] (a closed store with ASCII names, a container not yet
    visited), the call returns, and it returns an object in which a
    sensitive key holds "[SCRUBBED]", any other key holds its value
    unchanged when the value is a primitive, and any other key whose value
    is a container holds "[Circular Reference]" when that container is in
    the visited set as the loop comes to the key (it was visited before
    the call, or it is the mapping itself, or a call made for an earlier
    key marked it), and otherwise the object that the recursive call on
    that container returns, a call entered with exactly that visited set.
    The scrub fields a client is constructed with are added to the
    built-in list: the client masks every key that matches a built-in
    name or one of its own. *)
Theorem C2_scrubObject_masks_sensitive_keys
    (h : gmap loc obj) (sf : list string) (root : loc) (entries : obj)
    (Hclosed : closed h) (Hascii : ascii_names h sf)
    (Hroot : h !! root = Some entries) :
  (∀ key, is_sensitive sf key = true ↔ ∃ f, f ∈ sf ∧ matches_ci key f)
  ∧ (∃ out vis, scrub h sf root = Some (TObj out, vis))
  ∧ (∀ vis, ∃ fuel t vis', scrubObject fuel h sf root vis = Some (t, vis'))
  ∧ (∀ fuel vis t vis', root ∉ vis →
       scrubObject fuel h sf root vis = Some (t, vis') →
       ∃ out, t = TObj out ∧ length out = length entries
         ∧ ∀ i key v, entries !! i = Some (key, v) →
             ((∃ f, f ∈ sf ∧ matches_ci key f) → out !! i = Some (key, SCRUBBED))
             ∧ (¬ (∃ f, f ∈ sf ∧ matches_ci key f) →
                  ∃ t', out !! i = Some (key, t') ∧
                    match v with
                    | VPrim p => t' = TPrim p
                    | VRef l =>
                        (seen h sf vis root entries i l → t' = CIRCULAR)
                        ∧ (¬ seen h sf vis root entries i l →
                             ∃ fields fuel' vi vi',
                               t' = TObj fields
                               ∧ (∀ x, x ∈ vi ↔ seen h sf vis root entries i x)
                               ∧ scrubObject fuel' h sf l vi = Some (t', vi'))
                    end))
  ∧ (∀ cfg this, constructor cfg = inr this →
       (∀ f, f ∈ DEFAULT_SCRUB_FIELDS ∨ f ∈ default [] (scrubFields cfg) →
          f ∈ this_scrubFields this)
       ∧ (∀ f, f ∈ this_scrubFields this →
          f ∈ DEFAULT_SCRUB_FIELDS ∨ f ∈ default [] (scrubFields cfg))).
Proof.
  assert (Hdom : root ∈ dom h) by (apply elem_of_dom; eauto).
  split_and!.
  - intros key. apply is_sensitive_spec.
  - destruct (scrub_total h sf root Hclosed Hdom) as (out & vis & Hscrub & _).
    eauto.
  - intros vis.
    destruct (scrubObject_total h sf (S (size (dom h ∖ vis))) root vis Hclosed Hdom)
      as (t & vis' & Hcall & _); [lia|].
    by exists (S (size (dom h ∖ vis))), t, vis'.
  - intros fuel vis t vis' Hnin Hcall. apply scrubObject_sound in Hcall.
    destruct (proj2 (scrubs_call h sf _ _ _ _ Hcall) Hnin)
      as (entries' & out & Hroot' & -> & Hlen & Hrule & _).
    pose proof (eq_trans (eq_sym Hroot') Hroot) as [= ->].
    exists out. split_and!; try done.
    intros i key v Hi. destruct (Hrule i key v Hi) as (t & Hout & Hent).
    unfold entry_rule in Hent. split.
    + intros Hm. apply is_sensitive_spec in Hm. rewrite Hm in Hent. by subst t.
    + intros Hm. destruct (is_sensitive sf key) eqn:Hs.
      { apply is_sensitive_spec in Hs. contradiction. }
      exists t. split; [done|]. by destruct v.
  - intros cfg this Hc. unfold constructor in Hc.
    destruct (negb (truthy (accessToken cfg))); [done|].
    assert (Heq : this_scrubFields this
                  = DEFAULT_SCRUB_FIELDS ++ default [] (scrubFields cfg))
      by (injection Hc as <-; reflexivity).
    rewrite Heq. split; intros f; rewrite elem_of_app; tauto.
Qed.

Lemma C2_witness :
  ∃ out vis, scrub Examples.cart_store DEFAULT_SCRUB_FIELDS 1%positive
             = Some (TObj out, vis)
             ∧ out !! 1%nat = Some ("shipping", CIRCULAR).
Proof.
  assert (Hclosed : closed Examples.cart_store)
    by (apply closed_check; vm_compute; reflexivity).
  assert (Hascii : ascii_names Examples.cart_store DEFAULT_SCRUB_FIELDS)
    by (apply ascii_names_check; vm_compute; reflexivity).
  assert (Hroot : Examples.cart_store !! 1%positive = Some Examples.cart_entries)
    by (vm_compute; reflexivity).
  destruct (C2_scrubObject_masks_sensitive_keys
              Examples.cart_store DEFAULT_SCRUB_FIELDS 1%positive _
              Hclosed Hascii Hroot)
    as (_ & (out & vis & Hscrub) & _ & Hrule & _).
  exists out, vis. split; [done|].
  destruct (Hrule (S (size Examples.cart_store)) ∅ (TObj out) vis)
    as (out' & Heq & _ & Hent); [set_solver|exact Hscrub|].
  injection Heq as <-.
  destruct (Hent 1%nat "shipping" (VRef 2%positive) eq_refl) as [_ Hkeep].
  destruct Hkeep as (t' & Hout & Hseen & _).
  { intros Hm. apply is_sensitive_spec in Hm. vm_compute in Hm. discriminate Hm. }
  rewrite Hout, Hseen; [done|].
  right; right. exists 0%nat, "billing", 2%positive.
  split_and!; [lia|done|done|]. split; [set_solver|constructor].
Defined.

(** C2, as it is worded, fails on [cart]: [shipping] matches no sensitive
    field name and holds an address, yet the result holds the marker. *)
Lemma C2_counterexample :
  ¬ AsStated.C2 Examples.cart_store DEFAULT_SCRUB_FIELDS 1%positive.
Proof.
  intros H.
  assert (Hscrub : ∃ vis, scrub Examples.cart_store DEFAULT_SCRUB_FIELDS 1%positive
            = Some (TObj [("billing", Examples.addr_tree); ("shipping", CIRCULAR)], vis)).
  { eexists. vm_compute. reflexivity. }
  destruct Hscrub as [vis Hscrub].
  destruct (H Examples.cart_entries _ vis ltac:(vm_compute; reflexivity) Hscrub
              1%nat "shipping" (VRef 2%positive) eq_refl) as [_ Hkeep].
  assert (Hno : ¬ (∃ f, f ∈ DEFAULT_SCRUB_FIELDS ∧ matches_ci "shipping" f)).
  { intros Hm. apply is_sensitive_spec in Hm. vm_compute in Hm. discriminate Hm. }
  specialize (Hkeep Hno Examples.addr_tree).
  discriminate Hkeep.
  eapply unfolds_ref; [vm_compute; reflexivity|]. repeat constructor.
Qed.

(** C9. In every scrub of a closed store, a sensitive key holds
    "[SCRUBBED]" even when its value is a container; the run marks as
    visited only containers that can be reached from the root through keys
    that are not sensitive; and the result (the object and the visited
    set) is the same for every store that differs only in the values of
    sensitive keys, so whatever can be reached through sensitive keys
    alone, cycles included, leaves no trace, no marker either. *)
Theorem C9_sensitive_containers_are_not_entered
    (h : gmap loc obj) (sf : list string) (root : loc) (entries : obj)
    (Hclosed : closed h) (Hroot : h !! root = Some entries) :
  ∃ out vis,
    scrub h sf root = Some (TObj out, vis)
    ∧ (∀ i key l, entries !! i = Some (key, VRef l) →
         is_sensitive sf key = true → out !! i = Some (key, SCRUBBED))
    ∧ (∀ x, x ∈ vis → rtc (edge h sf) root x)
    ∧ (∀ h', stores_agree sf h h' → scrub h' sf root = Some (TObj out, vis)).
Proof.
  assert (Hdom : root ∈ dom h) by (apply elem_of_dom; eauto).
  destruct (scrub_total h sf root Hclosed Hdom) as (out & vis & Hscrub & Hrun).
  exists out, vis. split_and!.
  - done.
  - inversion Hrun as [|? ? entries' ? ? _ Hroot' Hkeys]; subst.
    rewrite Hroot in Hroot'. injection Hroot' as <-.
    destruct (scrubs_keys_lookup _ _ _ _ _ _ Hkeys) as [_ Hlook].
    intros i key l Hi Hs.
    destruct (Hlook i key _ Hi) as (vi & t & _ & _ & Hout & Hent & _).
    unfold entry_run in Hent. rewrite Hs in Hent. by subst t.
  - intros x Hx. destruct (scrubs_bound _ _ _ _ _ _ Hrun x Hx); [set_solver|done].
  - intros h' Hag. by rewrite <- (scrub_agree sf h h' root Hag).
Qed.

Lemma C9_witness :
  ∃ out vis,
    scrub Examples.session_store DEFAULT_SCRUB_FIELDS 1%positive = Some (TObj out, vis)
    ∧ out !! 2%nat = Some ("secret", SCRUBBED).
Proof.
  assert (Hclosed : closed Examples.session_store)
    by (apply closed_check; vm_compute; reflexivity).
  assert (Hroot : Examples.session_store !! 1%positive = Some Examples.session_entries)
    by (vm_compute; reflexivity).
  destruct (C9_sensitive_containers_are_not_entered
              Examples.session_store DEFAULT_SCRUB_FIELDS 1%positive _ Hclosed Hroot)
    as (out & vis & Hscrub & Hmask & _).
  exists out, vis. split; [done|].
  apply (Hmask 2%nat "secret" 2%positive); reflexivity.
Defined.

End ScrubClaims.

(** ** The stack parser *)

Section StackParserClaims.
Import Js Regex StackParser Examples.

Lemma collect_app (lines : list string) (frames : list StackFrame) :
  collect lines frames = frames ++ omap parseStackLine lines.
Proof.
  revert frames. induction lines as [|line rest IH]; intros frames; simpl.
  - by rewrite app_nil_r.
  - destruct (parseStackLine line) as [frame|]; rewrite IH; [|done].
    by rewrite <- app_assoc.
Qed.

(** The lines that give no frame: the blank ones, and those that start
    with the literal [Error:] or are the literal [Error]. *)
Lemma parseStackLine_None (line : string) :
  parseStackLine line = None ↔
  trim line = "" ∨ startsWith (trim line) "Error:" = true ∨ trim line = "Error".
Proof.
  unfold parseStackLine.
  destruct (String.eqb_spec (trim line) "") as [He|He];
    [split; [by left|done]|].
  destruct (startsWith (trim line) "Error:") eqn:Hs;
    [split; [by (right; left)|done]|].
  destruct (String.eqb_spec (trim line) "Error") as [Hb|Hb];
    [split; [by (right; right)|done]|].
  simpl. split.
  - intros H. repeat (destruct (try_format _ _ _); [done|]). done.
  - intros [?|[?|?]]; done.
Qed.

(** Every frame of a trace with at least one frame is returned, in reverse
    order of the lines. *)
Lemma parseStackFrames_rev (error : Error) (text : string) :
  stack error = Some text → text ≠ "" →
  omap parseStackLine (split newline text) ≠ [] →
  parseStackFrames error = rev (omap parseStackLine (split newline text)).
Proof.
  intros Hst Hne Hfr. unfold parseStackFrames. rewrite Hst. simpl.
  destruct text as [|c text]; [done|]. cbn [truthy default].
  rewrite collect_app. simpl app.
  destruct (omap parseStackLine _) as [|f fs]; [done|]. reflexivity.
Qed.

(** C4. On the trace "Error: msg\n  at foo (a.js:1:2)\n  at b.js:3:4" the
    parser returns two frames, the reverse of the two it collected, and the
    last of them has method "foo", filename "a.js", line 1 and column 2. *)
Theorem C4_parseStackFrames_example :
  parseStackFrames example_error
  = [ {| filename := Some "b.js"; lineno := Some 3%N; colno := Some 4%N;
         method := Some "(anonymous)" |};
      {| filename := Some "a.js"; lineno := Some 1%N; colno := Some 2%N;
         method := Some "foo" |} ]
  ∧ length (parseStackFrames example_error) = 2%nat
  ∧ last (parseStackFrames example_error)
    = Some {| filename := Some "a.js"; lineno := Some 1%N; colno := Some 2%N;
              method := Some "foo" |}
  ∧ parseStackFrames example_error
    = rev (collect (split newline example_stack) []).
Proof. vm_compute. done. Qed.

(** C5 (the code at the failing input). The summary line of a [TypeError]
    is not discarded: it comes back as an "(unparsed)" frame, the last of
    the sequence, so that [getErrorLocation] finds no location. *)
Theorem C5_summary_line_of_TypeError_is_kept :
  parseStackLine "TypeError: boom"
  = Some {| filename := Some "(unparsed)"; lineno := None; colno := None;
            method := Some "TypeError: boom" |}
  ∧ parseStackFrames type_error
    = [ {| filename := Some "a.js"; lineno := Some 1%N; colno := Some 2%N;
           method := Some "foo" |};
        {| filename := Some "(unparsed)"; lineno := None; colno := None;
           method := Some "TypeError: boom" |} ]
  ∧ getErrorLocation type_error = None.
Proof. vm_compute. done. Qed.

End StackParserClaims.

(** ** The constructor *)

Section ConstructorClaims.
Import Js Scrub Client.

Lemma truthy_Some (s : string) : s ≠ "" → truthy (Some s) = true.
Proof. by destruct s. Qed.

(** C7. Constructing a client with a missing or empty access token throws
    (the error "Rollbar accessToken is required") and gives no instance;
    with any non-empty access token it returns an instance, which holds
    that token. *)
Theorem C7_constructor_requires_accessToken (cfg : RollbarConfig) :
  (accessToken cfg = None ∨ accessToken cfg = Some "" →
     constructor cfg = inl "Rollbar accessToken is required"
     ∧ ∀ this, constructor cfg ≠ inr this)
  ∧ (∀ token, accessToken cfg = Some token → token ≠ "" →
       ∃ this, constructor cfg = inr this
               ∧ accessToken (config this) = Some token).
Proof.
  unfold constructor. split.
  - intros [H|H]; rewrite H; simpl; by split.
  - intros token H Hne. rewrite H, (truthy_Some token Hne). simpl. eauto.
Qed.

Lemma C7_witness :
  constructor (mkConfig (Some "") None None None None None None None)
  = inl "Rollbar accessToken is required"
  ∧ ∃ this,
      constructor (mkConfig (Some "test-token") None None None None None None None)
      = inr this.
Proof.
  split.
  - apply (C7_constructor_requires_accessToken
             (mkConfig (Some "") None None None None None None None)).
    by right.
  - destruct (C7_constructor_requires_accessToken
                (mkConfig (Some "test-token") None None None None None None None))
      as [_ H].
    destruct (H "test-token" eq_refl) as (this & Hthis & _); [done|].
    by exists this.
Defined.

End ConstructorClaims.

(** ** Sending *)

Section SendClaims.
Import Js Scrub Client Examples.

Ltac run_send :=
  unfold send, when, try_catch, lift, emit, throw, mbind, M_bind, mret, M_ret;
  simpl.

(** With verbose logging on, a payload [JSON.stringify] refuses makes
    [send] throw: the logging call is outside the [try]. *)
Lemma send_verbose_throws (this : Rollbar) (env : Env) (p : RollbarPayload) e :
  verbose (config this) = Some true →
  stringify env (Some 2) p = inl e →
  send this env p = ([], Throw e).
Proof. intros Hv He. run_send. by rewrite Hv, He. Qed.

(** In every other case [send] returns: [null] after logging the failure
    when the transport throws, the acknowledgement when it answers, with
    the service's message logged when the error code is not zero. *)
Lemma send_returns (this : Rollbar) (env : Env) (p : RollbarPayload) :
  default false (verbose (config this)) = false
    ∨ (∃ s, stringify env (Some 2) p = inr s) →
  ∃ t r, send this env p = (t, Return r)
    ∧ (∀ content e, stringify env None p = inr content →
         fetch env ROLLBAR_API_URL content = inl e →
         r = None
         ∧ ConsoleError "[Rollbar] Failed to send:" (LThrown e) ∈ t)
    ∧ (∀ content ack, stringify env None p = inr content →
         fetch env ROLLBAR_API_URL content = inr (inr ack) →
         r = Some ack
         ∧ (err ack ≠ 0%Z →
              ConsoleError "[Rollbar] Error response:" (LMessage (rmessage ack)) ∈ t)).
Proof.
  intros Hv. run_send.
  destruct (default false (verbose (config this))) eqn:Hverb;
    [destruct Hv as [?|[s Hs]]; [done|]; rewrite Hs|];
    simpl;
    (destruct (stringify env None p) as [e0|content] eqn:Hc; simpl;
     [|destruct (fetch env ROLLBAR_API_URL content) as [e1|[e2|ack]] eqn:Hf; simpl;
       [| |destruct (err ack =? 0)%Z eqn:Herr; simpl]]);
    (eexists _, _; split; [reflexivity|]);
    (split; intros c x Hc' Hf';
     try discriminate Hc'; injection Hc' as <-;
     rewrite Hf in Hf'; try discriminate Hf'; injection Hf' as <-;
     (split; [reflexivity|]);
     try (intros Hn; apply Z.eqb_eq in Herr; contradiction);
     try (intros _); set_solver).
Qed.

(** C6 (the code at the failing input). A client made with [verbose: true]
    reports custom data that holds a [BigInt]: [JSON.stringify] throws in
    the verbose logging call, before the [try], and the exception leaves
    [send] and the reporting call.  The same report through a client
    without [verbose] is caught, logged, and answered with [null]. *)
Theorem C6_send_raises_when_verbose_logging_throws :
  buildPayload verbose_client bigint_store (now accepting_env) LInfo
               (Some bigint_context)
  = Some (with_body bigint_payload BodyEmpty)
  ∧ send verbose_client accepting_env bigint_payload = ([], Throw bigint_error)
  ∧ info verbose_client accepting_env bigint_store "Test" (Some bigint_context)
    = Some ([], Throw bigint_error)
  ∧ send test_client accepting_env bigint_payload
    = ([ConsoleError "[Rollbar] Failed to send:" (LThrown bigint_error)],
       Return None).
Proof. vm_compute. done. Qed.

End SendClaims.

(** ** Objects as lists of entries *)

Section EntryFacts.
Import Js Scrub Client.
Context {A : Type}.
Implicit Types (l a b : list (string * A)) (k : string) (v : A).

Lemma get_key_None k l : get_key k l = None ↔ k ∉ l.*1.
Proof.
  induction l as [|[k0 x] l IH]; simpl.
  - split; [intros _; apply not_elem_of_nil|done].
  - rewrite not_elem_of_cons. destruct (String.eqb_spec k0 k) as [->|Hne].
    + split; [done|]. by intros [? _].
    + rewrite IH. split; [intros ?; split; [congruence|done]|by intros [_ ?]].
Qed.

Lemma get_key_lookup k v l i :
  NoDup l.*1 → l !! i = Some (k, v) → get_key k l = Some v.
Proof.
  revert i. induction l as [|[k0 x] l IH]; intros i Hnd Hi; [by destruct i|].
  simpl in *. apply NoDup_cons in Hnd as [Hk0 Hnd].
  destruct i as [|i]; simpl in Hi.
  - injection Hi as -> ->. by rewrite String.eqb_refl.
  - destruct (String.eqb_spec k0 k) as [->|Hne]; [|by eapply IH].
    exfalso. apply Hk0. apply list_elem_of_fmap. exists (k, v).
    split; [done|]. by eapply list_elem_of_lookup_2.
Qed.

Lemma get_key_set_key k k' v l :
  get_key k' (set_key k v l) = if String.eqb k k' then Some v else get_key k' l.
Proof.
  induction l as [|[k0 x] l IH]; simpl.
  - done.
  - destruct (String.eqb_spec k0 k) as [->|Hne]; simpl.
    + by destruct (String.eqb k k').
    + rewrite IH. destruct (String.eqb_spec k0 k') as [->|?]; [|done].
      destruct (String.eqb_spec k k'); [congruence|done].
Qed.

Lemma set_key_keys k v l :
  (set_key k v l).*1 = if decide (k ∈ l.*1) then l.*1 else l.*1 ++ [k].
Proof.
  induction l as [|[k0 x] l IH].
  - destruct (decide (k ∈ ([] : list (string * A)).*1)) as [Hin|_]; [|done].
    by apply elem_of_nil in Hin.
  - cbn [set_key].
    destruct (String.eqb_spec k0 k) as [->|Hne]; rewrite !fmap_cons; cbn [fst].
    + rewrite decide_True; [done|by left].
    + rewrite IH. destruct (decide (k ∈ l.*1)) as [Hin|Hnin].
      * rewrite decide_True; [done|by right].
      * rewrite decide_False; [done|]. rewrite not_elem_of_cons. by split.
Qed.

Lemma set_key_NoDup k v l : NoDup l.*1 → NoDup (set_key k v l).*1.
Proof.
  intros Hnd. rewrite set_key_keys. destruct (decide (k ∈ l.*1)); [done|].
  apply NoDup_app. split_and!; [done| |apply NoDup_singleton].
  intros x Hx ->%list_elem_of_singleton. done.
Qed.

Lemma get_key_spread_None k a b :
  get_key k b = None → get_key k (spread a b) = get_key k a.
Proof.
  unfold spread. revert a. induction b as [|[k0 x] b IH]; intros a Hb; [done|].
  simpl in *. destruct (String.eqb_spec k0 k) as [->|Hne]; [done|].
  rewrite (IH _ Hb), get_key_set_key.
  destruct (String.eqb_spec k0 k); [congruence|done].
Qed.

Lemma get_key_spread_Some k v a b :
  NoDup b.*1 → get_key k b = Some v → get_key k (spread a b) = Some v.
Proof.
  unfold spread. revert a. induction b as [|[k0 x] b IH]; intros a Hnd Hb; [done|].
  simpl in *. apply NoDup_cons in Hnd as [Hk0 Hnd].
  destruct (String.eqb_spec k0 k) as [->|Hne].
  - injection Hb as ->.
    assert (Hn : get_key k b = None) by by apply get_key_None.
    fold (spread (set_key k v a) b). rewrite (get_key_spread_None _ _ _ Hn).
    by rewrite get_key_set_key, String.eqb_refl.
  - by apply IH.
Qed.

Lemma elem_of_set_key k v l (x : string * A) :
  x ∈ set_key k v l → x = (k, v) ∨ x ∈ l.
Proof.
  induction l as [|[k0 y] l IH]; simpl.
  - intros ->%list_elem_of_singleton. by left.
  - destruct (String.eqb_spec k0 k) as [->|Hne]; rewrite !elem_of_cons.
    + intros [->|?]; [by left|right; by right].
    + intros [->|Hin]; [right; by left|].
      destruct (IH Hin); [by left|right; by right].
Qed.

Lemma get_key_Some_lookup k v l :
  get_key k l = Some v → ∃ i, l !! i = Some (k, v).
Proof.
  induction l as [|[k0 y] l IH]; simpl; [done|].
  destruct (String.eqb_spec k0 k) as [->|Hne].
  - intros [= ->]. by exists 0%nat.
  - intros H. destruct (IH H) as [i Hi]. by exists (S i).
Qed.

End EntryFacts.

(** ** Building a payload, wrapping a handler *)

Section ClientClaims.
Import Js Scrub Client Examples.

Lemma scrubs_keys_keys h sf entries vis out vis' :
  scrubs_keys h sf entries vis out vis' → out.*1 = entries.*1.
Proof. induction 1; rewrite ?fmap_cons; cbn [fst]; [done|congruence..]. Qed.

Lemma scrub_fields (h : gmap loc obj) (sf : list string) (o : loc) :
  closed h → o ∈ dom h →
  ∃ entries out vis,
    h !! o = Some entries ∧ scrub h sf o = Some (TObj out, vis)
    ∧ out.*1 = entries.*1 ∧ scrubs_keys h sf entries {[o]} out vis.
Proof.
  intros Hcl Ho. destruct (scrub_total h sf o Hcl Ho) as (out & vis & Hs & Hrun).
  inversion Hrun as [|? ? entries ? ? _ Hentries Hkeys]; subst.
  exists entries, out, vis. split_and!; try done.
  - by eapply scrubs_keys_keys.
  - by replace ({[o]} : gset loc) with ({[o]} ∪ ∅ : gset loc) by set_solver.
Qed.

Lemma buildPayload_defined (this : Rollbar) (h : gmap loc obj) (t : Z)
    (level : LogLevel) (context : option ReportContext) :
  closed h →
  (∀ p, payload (config this) = Some p → p ∈ dom h) →
  (∀ c, context ≫= custom = Some c → c ∈ dom h) →
  body_scrubs this h context →
  ∃ pl, buildPayload this h t level context = Some pl
        ∧ d_person pl = context ≫= person
        ∧ d_custom pl = custom_of this h context.
Proof.
  intros Hcl Hp Hc Hb. unfold buildPayload, custom_of, merge_custom. cbv zeta.
  assert (Hscr : ∀ o, o ∈ dom h →
            ∃ out vis, scrub h (this_scrubFields this) o = Some (TObj out, vis)).
  { intros o Ho.
    destruct (scrub_total h (this_scrubFields this) o Hcl Ho) as (out & vis & Hs & _).
    eauto. }
  assert (Hbody : ∀ rq, context ≫= request = Some rq →
    ∃ rbody,
      match default false (includeRequestBody (config this)), body rq with
      | true, Some (VRef b) =>
          r ← scrub h (this_scrubFields this) b; Some (Some r.1)
      | true, Some (VPrim p) => if prim_truthy p then None else Some None
      | _, _ => Some None
      end = Some rbody).
  { intros rq Hrq. specialize (Hb rq Hrq).
    destruct (default false (includeRequestBody (config this))); [|by eexists].
    specialize (Hb eq_refl). destruct (body rq) as [[p|b]|]; [| |by eexists].
    - rewrite Hb. by eexists.
    - destruct (Hscr b Hb) as (? & ? & ->). by eexists. }
  destruct (payload (config this)) as [p|];
    [destruct (Hscr p (Hp p eq_refl)) as (? & ? & Hsp); rewrite ?Hsp|];
  (destruct (context ≫= custom) as [c|];
    [destruct (Hscr c (Hc c eq_refl)) as (? & ? & Hsc); rewrite ?Hsc|]);
  (destruct (context ≫= request) as [rq|];
    [destruct (Hbody rq eq_refl) as [rbody ->]|]);
  simpl; rewrite ?Hsp, ?Hsc; simpl; eexists; split_and!; reflexivity.
Qed.

Lemma reportError_defined (this : Rollbar) (env : Env) (h : gmap loc obj)
    (errors : gmap loc StackParser.Error) (level : LogLevel) (l : loc)
    (context : option ReportContext) :
  closed h →
  (∀ p, payload (config this) = Some p → p ∈ dom h) →
  (∀ c, context ≫= custom = Some c → c ∈ dom h) →
  body_scrubs this h context →
  l ∈ dom errors →
  ∃ report, reportError this env h errors level l context = Some report.
Proof.
  intros Hcl Hp Hc Hb [e He]%elem_of_dom. unfold reportError. rewrite He. simpl.
  destruct (buildPayload_defined this h (now env) level context Hcl Hp Hc Hb)
    as (pl & -> & _). simpl. eauto.
Qed.

Lemma wrap_tail (report : M (option RollbarResponse)) (has_waitUntil : bool) (l : loc) :
  let m : M HttpResponse :=
    (if has_waitUntil then detach report else report;; mret tt);;
    throw (ThrownError l) in
  m.1 = report.1 ++ (if has_waitUntil then [WaitUntil] else [])
  ∧ (has_waitUntil = true ∨ (∃ r, report.2 = Return r) → m.2 = Throw (ThrownError l)).
Proof.
  destruct report as [t [r|e]], has_waitUntil; simpl; rewrite ?app_nil_r;
    (split; [done|]); try done; intros [?|[? ?]]; done.
Qed.

(** C8 (amended). With [rethrow] enabled, when the handler throws an
    [Error] instance, the report call is issued with that same object and,
    unless the report call itself rejects while it is awaited, the wrapped
    handler throws that same object (the store of [Error] objects is as it
    was: no copy, no wrapper).  When the handler throws anything else, a
    new [Error] is made, with name "Error" and the string form of the
    thrown value as message, and it is that new object that is reported
    and thrown. *)
Theorem C8_wrap_rethrows_the_reported_error
    (this : Rollbar) (env : Env) (h : gmap loc obj)
    (handler : Request → outcome HttpResponse) (options : WrapperOptions)
    (rq : Request) (has_waitUntil : bool) (errors : gmap loc StackParser.Error)
    (v : thrown)
    (Hclosed : closed h)
    (Hpayload : ∀ p, payload (config this) = Some p → p ∈ dom h)
    (Hcustom : ∀ c, context options ≫= custom = Some c → c ∈ dom h)
    (Hthrows : handler rq = Throw v)
    (Hrethrow : rethrow options = Some true)
    (Hobject : ∀ l, v = ThrownError l → l ∈ dom errors) :
  ∃ l errors' report m,
    wrap this env h handler options rq has_waitUntil errors = Some (errors', m)
    ∧ match v with
      | ThrownError l0 => l = l0 ∧ errors' = errors
      | ThrownOther str =>
          (l ∉ dom errors)
          ∧ errors' = <[l := StackParser.mkError "Error" str (new_stack env str)]> errors
      end
    ∧ error this env h errors' l (Some (report_context this options rq)) = Some report
    ∧ m.1 = report.1 ++ (if has_waitUntil then [WaitUntil] else [])
    ∧ (has_waitUntil = true ∨ (∃ r, report.2 = Return r) →
         m.2 = Throw (ThrownError l)).
Proof.
  assert (Hc : ∀ c, Some (report_context this options rq) ≫= custom = Some c →
                    c ∈ dom h).
  { intros c Hc. apply Hcustom. simpl in Hc.
    destruct (context options); [done|discriminate Hc]. }
  assert (Hb : body_scrubs this h (Some (report_context this options rq)))
    by by intros rq0 [= <-].
  destruct v as [l0|str].
  - destruct (reportError_defined this env h errors LError l0
                (Some (report_context this options rq)) Hclosed Hpayload Hc Hb)
      as [report Hreport]; [by apply Hobject|].
    exists l0, errors, report. unfold wrap. rewrite Hthrows, Hrethrow.
    cbv beta iota zeta. fold (report_context this options rq).
    unfold error. rewrite Hreport. cbn [mbind option_bind default].
    eexists. split; [reflexivity|]. split; [done|]. split; [done|].
    apply wrap_tail.
  - set (l := fresh (dom errors)).
    set (errors' := <[l := StackParser.mkError "Error" str (new_stack env str)]> errors).
    destruct (reportError_defined this env h errors' LError l
                (Some (report_context this options rq)) Hclosed Hpayload Hc Hb)
      as [report Hreport].
    { subst errors'. rewrite dom_insert. set_solver. }
    exists l, errors', report. unfold wrap. rewrite Hthrows, Hrethrow.
    cbv beta iota zeta. fold l. fold errors'. fold (report_context this options rq).
    unfold error. rewrite Hreport. cbn [mbind option_bind default].
    eexists. split; [reflexivity|]. split; [split; [apply is_fresh|done]|].
    split; [done|]. apply wrap_tail.
Qed.

Lemma C8_witness :
  ∃ errors' t,
    wrap test_client accepting_env ∅ error_thrower rethrow_options test_request
         false rethrow_me
    = Some (errors', (t, Throw (ThrownError 1%positive))).
Proof.
  destruct (C8_wrap_rethrows_the_reported_error
              test_client accepting_env ∅ error_thrower rethrow_options
              test_request false rethrow_me (ThrownError 1%positive))
    as (l & errors' & report & [t o] & Hwrap & [-> ->] & Hreport & _ & Hthrow).
  - intros ? ? ? ? Hl. by rewrite lookup_empty in Hl.
  - intros p Hp. discriminate Hp.
  - intros c Hc. discriminate Hc.
  - reflexivity.
  - reflexivity.
  - intros l [= <-]. vm_compute. reflexivity.
  - exists rethrow_me, t. rewrite Hwrap. simpl in Hthrow. rewrite Hthrow; [done|].
    right. vm_compute in Hreport. injection Hreport as <-. by eexists.
Defined.

(** C8, as it is worded, fails when the handler throws a string: what the
    wrapped handler throws is a new [Error] object, not the string. *)
Lemma C8_counterexample :
  ¬ AsStated.C8 test_client accepting_env ∅ string_thrower rethrow_options
      test_request false ∅.
Proof.
  intros H.
  destruct (H (ThrownOther "String error") eq_refl eq_refl) as (errors' & t & Hw).
  vm_compute in Hw. discriminate Hw.
Qed.

Lemma withPerson_spec (cfg : RollbarConfig) (this : Rollbar) (h : gmap loc obj)
    (who : loc) :
  constructor cfg = inr this →
  withPerson this h who
  = (<[fresh (dom h) := set_key "person" (VRef who) (payload_entries this h)]> h,
     inr {| config := mkConfig (accessToken (config this)) (environment (config this))
                        (codeVersion (config this)) (host (config this))
                        (scrubFields (config this))
                        (includeRequestBody (config this))
                        (Some (fresh (dom h))) (verbose (config this));
            this_scrubFields := this_scrubFields this |}).
Proof.
  intros Hctor. unfold constructor in Hctor.
  destruct (truthy (accessToken cfg)) eqn:E; simpl in Hctor; [|done].
  injection Hctor as <-. unfold withPerson, payload_entries, constructor.
  cbn [config accessToken environment codeVersion host scrubFields
       includeRequestBody payload verbose this_scrubFields].
  rewrite E. reflexivity.
Qed.

Lemma withPerson_closed (h : gmap loc obj) (this : Rollbar) (who : loc) :
  closed h → who ∈ dom h →
  closed (<[fresh (dom h) := set_key "person" (VRef who) (payload_entries this h)]> h).
Proof.
  intros Hcl Hwho l entries key l' Hl Hin. rewrite dom_insert.
  apply elem_of_union. right.
  destruct (decide (l = fresh (dom h))) as [->|Hne].
  - rewrite lookup_insert_eq in Hl. injection Hl as <-.
    apply elem_of_set_key in Hin as [[= -> ->]|Hin]; [done|].
    unfold payload_entries in Hin. destruct (payload (config this)) as [p|].
    + destruct (h !! p) as [old|] eqn:Hp; simpl in Hin.
      * by eapply Hcl.
      * by apply elem_of_nil in Hin.
    + by apply elem_of_nil in Hin.
  - rewrite lookup_insert_ne in Hl by done. by eapply Hcl.
Qed.

(** C10 (amended). [withPerson(person)] returns a new client; it leaves
    every object of the store as it was (the payload object of the parent
    included) and gives the new client a payload object of its own, the
    parent's entries with [person] set; everything else of the
    configuration, the scrub fields too, is the parent's.  Every payload
    the new client builds (on a closed store with ASCII names) has
    [data.person] equal to the person of the per-call context, absent when
    there is none.  [data.custom.person] is what the scrubber stored under
    [person]: in its copy of the per-call custom data when these have a
    key [person] of their own, which then takes the place of the bound
    person, and in its copy of the payload object of the new client
    otherwise.  What the scrubber stores there is as [entry_rule] says;
    for the bound person: "[SCRUBBED]" if [person] is a scrub field,
    otherwise the marker exactly when the person object is in the visited
    set as the loop comes to the key (an earlier entry of the payload has
    led to it), and the object that the scrub of the person object returns
    otherwise.  Every message and error report of the new client sends
    that payload, with a body. *)
Theorem C10_withPerson_puts_person_under_custom
    (cfg : RollbarConfig) (this : Rollbar) (h : gmap loc obj) (who : loc)
    (Hctor : constructor cfg = inr this)
    (Hclosed : closed h) (Hascii : ascii_names h (this_scrubFields this))
    (Hwho : who ∈ dom h)
    (Hpayload : ∀ p, payload (config this) = Some p →
                  ∃ old, h !! p = Some old ∧ NoDup old.*1) :
  ∃ h' derived p' entries out vis i t,
    withPerson this h who = (h', inr derived)
    ∧ (p' ∉ dom h)
    ∧ (∀ l, l ≠ p' → h' !! l = h !! l)
    ∧ h' !! p' = Some entries
    ∧ (∀ k, get_key k entries
            = if String.eqb "person" k then Some (VRef who)
              else get_key k (payload_entries this h))
    ∧ config derived
      = mkConfig (accessToken (config this)) (environment (config this))
          (codeVersion (config this)) (host (config this))
          (scrubFields (config this)) (includeRequestBody (config this))
          (Some p') (verbose (config this))
    ∧ this_scrubFields derived = this_scrubFields this
    ∧ scrub h' (this_scrubFields derived) p' = Some (TObj out, vis)
    ∧ entries !! i = Some ("person", VRef who)
    ∧ out !! i = Some ("person", t)
    ∧ get_key "person" out = Some t
    ∧ entry_rule h' (this_scrubFields derived) ∅ p' entries i "person" (VRef who) t
    ∧ ∀ env level context,
        (∀ c, context ≫= custom = Some c → c ∈ dom h) →
        body_scrubs this h context →
        ∃ pl,
          buildPayload derived h' (now env) level context = Some pl
          ∧ d_person pl = context ≫= person
          ∧ ((∀ c centries, context ≫= custom = Some c → h !! c = Some centries →
                get_key "person" centries = None) →
             d_custom pl ≫= get_key "person" = Some t)
          ∧ (∀ c centries j v,
               context ≫= custom = Some c → h !! c = Some centries →
               NoDup centries.*1 → centries !! j = Some ("person", v) →
               ∃ outc visc tc,
                 scrub h' (this_scrubFields derived) c = Some (TObj outc, visc)
                 ∧ outc !! j = Some ("person", tc)
                 ∧ entry_rule h' (this_scrubFields derived) ∅ c centries j
                     "person" v tc
                 ∧ d_custom pl ≫= get_key "person" = Some tc)
          ∧ (∀ msg, ∃ b, logMessage derived env h' level msg context
                         = Some (send derived env (with_body pl b)))
          ∧ (∀ errors l, l ∈ dom errors →
               ∃ b, reportError derived env h' errors level l context
                    = Some (send derived env (with_body pl b))).
Proof.
  set (p' := fresh (dom h)).
  set (entries := set_key "person" (VRef who) (payload_entries this h)).
  set (h' := <[p' := entries]> h).
  set (derived := {| config := mkConfig (accessToken (config this))
                       (environment (config this)) (codeVersion (config this))
                       (host (config this)) (scrubFields (config this))
                       (includeRequestBody (config this)) (Some p')
                       (verbose (config this));
                     this_scrubFields := this_scrubFields this |}).
  assert (Hfresh : p' ∉ dom h) by apply is_fresh.
  assert (Hcl' : closed h') by by apply withPerson_closed.
  assert (Hp' : h' !! p' = Some entries) by apply lookup_insert_eq.
  assert (Hdom' : ∀ l, l ∈ dom h → l ∈ dom h').
  { intros l Hl. subst h'. rewrite dom_insert. set_solver. }
  assert (Hold : ∀ c, c ∈ dom h → h' !! c = h !! c).
  { intros c Hc. subst h'. rewrite lookup_insert_ne; [done|].
    intros <-. by apply Hfresh. }
  assert (Hnd : NoDup entries.*1).
  { apply set_key_NoDup. unfold payload_entries.
    destruct (payload (config this)) as [p|]; [|constructor].
    destruct (Hpayload p eq_refl) as (old & -> & Hnd). done. }
  destruct (scrub_fields h' (this_scrubFields derived) p' Hcl')
    as (entries0 & out & vis & Hp0 & Hscrub & Hkeys & Hrun).
  { apply elem_of_dom. eauto. }
  pose proof (eq_trans (eq_sym Hp0) Hp') as [= ->].
  assert (Hget : get_key "person" entries = Some (VRef who)).
  { subst entries. by rewrite get_key_set_key, String.eqb_refl. }
  destruct (get_key_Some_lookup _ _ _ Hget) as [i Hi].
  replace ({[p']} : gset loc) with ({[p']} ∪ ∅ : gset loc) in Hrun by set_solver.
  destruct (scrubs_keys_entry h' (this_scrubFields derived) p' ∅ entries out vis
              i "person" (VRef who) Hrun Hi) as (t & Hout & Hent).
  assert (Hnd_out : NoDup out.*1) by by rewrite Hkeys.
  assert (Hget_out : get_key "person" out = Some t) by by eapply get_key_lookup.
  exists h', derived, p', entries, out, vis, i, t. split_and!; try done.
  - by apply (withPerson_spec cfg).
  - intros l Hl. subst h'. by rewrite lookup_insert_ne.
  - intros k. subst entries. by rewrite get_key_set_key.
  - intros env level context Hc Hb.
    destruct (buildPayload_defined derived h' (now env) level context Hcl')
      as (pl & Hpl & Hperson & Hcustom).
    { intros p [= <-]. apply elem_of_dom. eauto. }
    { intros c Hcc. by apply Hdom', Hc. }
    { intros rq Hrq Hinc. specialize (Hb rq Hrq Hinc).
      destruct (body rq) as [[p|b]|]; [done|by apply Hdom'|done]. }
    assert (Hcustom' : d_custom pl
              = match context ≫= custom with
                | Some c =>
                    Some (spread (spread [] out)
                            (default [] (fields_of ∘ fst
                               <$> scrub h' (this_scrubFields this) c)))
                | None => Some (spread [] out)
                end).
    { rewrite Hcustom. unfold custom_of.
      cbn [payload config derived fmap option_fmap option_map].
      change (this_scrubFields derived) with (this_scrubFields this) in *.
      rewrite Hscrub.
      cbn [fmap option_fmap option_map default from_option id compose fst fields_of].
      done. }
    assert (H1 : get_key "person" (spread [] out) = Some t)
      by by apply get_key_spread_Some.
    exists pl. split_and!; try done.
    + intros Hown. rewrite Hcustom'.
      destruct (context ≫= custom) as [c|] eqn:Ec; [|done].
      cbn [mbind option_bind]. rewrite get_key_spread_None; [done|].
      destruct (scrub_fields h' (this_scrubFields this) c Hcl')
        as (centries & outc & visc & Hc0 & -> & Hkc & _).
      { by apply Hdom', Hc. }
      change (get_key "person" outc = None).
      apply get_key_None. rewrite Hkc. apply get_key_None.
      apply (Hown c centries eq_refl).
      rewrite <- Hc0. symmetry. by apply Hold, Hc.
    + intros c centries j v Ec Hcen Hndc Hj.
      destruct (scrub_fields h' (this_scrubFields this) c Hcl')
        as (centries0 & outc & visc & Hc0 & Hsc & Hkc & Hrunc).
      { by apply Hdom', Hc. }
      pose proof (eq_trans (eq_sym Hc0) (eq_trans (Hold c (Hc c Ec)) Hcen))
        as [= ->].
      replace ({[c]} : gset loc) with ({[c]} ∪ ∅ : gset loc) in Hrunc by set_solver.
      destruct (scrubs_keys_entry h' (this_scrubFields this) c ∅ centries outc visc
                  j "person" v Hrunc Hj) as (tc & Houtc & Hentc).
      exists outc, visc, tc. split_and!; try done.
      rewrite Hcustom', Ec, Hsc.
      cbn [fmap option_fmap option_map default from_option id compose fst fields_of
           mbind option_bind].
      apply get_key_spread_Some; [by rewrite Hkc|].
      eapply get_key_lookup; [by rewrite Hkc|done].
    + intros msg. unfold logMessage. rewrite Hpl. cbn [mbind option_bind].
      destruct (context ≫= custom) as [c|] eqn:Ec.
      * destruct (scrub_fields h' (this_scrubFields derived) c Hcl')
          as (? & ? & ? & _ & -> & _); [by apply Hdom', Hc|].
        cbn [mbind option_bind]. by eexists.
      * cbn [mbind option_bind]. by eexists.
    + intros errors l [e He]%elem_of_dom. unfold reportError.
      rewrite He, Hpl. cbn [mbind option_bind]. by eexists.
Qed.

Lemma C10_witness :
  ∃ h' derived pl,
    withPerson test_client person_store 1%positive = (h', inr derived)
    ∧ this_scrubFields derived = DEFAULT_SCRUB_FIELDS
    ∧ buildPayload derived h' (now accepting_env) LInfo (Some own_person_context)
      = Some pl
    ∧ d_custom pl ≫= get_key "person" = Some (TPrim (PStr "someone else")).
Proof.
  destruct (C10_withPerson_puts_person_under_custom
              (test_config None) test_client person_store 1%positive)
    as (h' & derived & p' & entries & out & vis & i & t & Hwith & _ & _ & _ & _ & _
        & Hsf & _ & _ & _ & _ & _ & Hreports).
  - reflexivity.
  - apply closed_check. vm_compute. reflexivity.
  - apply ascii_names_check. vm_compute. reflexivity.
  - apply elem_of_dom. eexists. vm_compute. reflexivity.
  - intros p Hp. discriminate Hp.
  - destruct (Hreports accepting_env LInfo (Some own_person_context))
      as (pl & Hpl & _ & _ & Hown & _).
    + intros c [= <-]. apply elem_of_dom. eexists. vm_compute. reflexivity.
    + intros rq Hrq. discriminate Hrq.
    + destruct (Hown 2%positive [("person", VPrim (PStr "someone else"))] 0%nat
                  (VPrim (PStr "someone else")) eq_refl)
        as (outc & visc & tc & _ & _ & Hrule & Hcu).
      * vm_compute. reflexivity.
      * apply NoDup_singleton.
      * reflexivity.
      * unfold entry_rule in Hrule. rewrite Hsf in Hrule. simpl in Hrule.
        subst tc. by exists h', derived, pl.
Defined.

(** C10, as it is worded, fails for a report whose custom data has a
    [person] of its own: that value is what [data.custom.person] holds. *)
Lemma C10_counterexample :
  ¬ AsStated.C10 test_client person_store 1%positive 0 LInfo
      (Some own_person_context).
Proof.
  intros H.
  assert (Hwith : ∃ h' derived, withPerson test_client person_store 1%positive
                                = (h', inr derived)).
  { eexists _, _. vm_compute. reflexivity. }
  destruct Hwith as (h' & derived & Hwith).
  unfold AsStated.C10 in H. rewrite Hwith in H. simpl in H.
  assert (Hp : ∃ p', payload (config derived) = Some p').
  { vm_compute in Hwith. injection Hwith as _ <-. by eexists. }
  destruct Hp as [p' Hp].
  assert (Hs : ∃ out vis, scrub h' (this_scrubFields derived) p' = Some (TObj out, vis)
                          ∧ get_key "person" out = Some person_tree).
  { vm_compute in Hwith. injection Hwith as <- <-. simpl in Hp.
    injection Hp as <-. eexists _, _. split; vm_compute; reflexivity. }
  destruct Hs as (out & vis & Hs & Hget).
  assert (Hb : ∃ pl, buildPayload derived h' 0 LInfo (Some own_person_context) = Some pl
                     ∧ d_custom pl ≫= get_key "person"
                       = Some (TPrim (PStr "someone else"))).
  { vm_compute in Hwith. injection Hwith as <- <-.
    eexists. split; vm_compute; reflexivity. }
  destruct Hb as (pl & Hb & Hcu).
  destruct (H derived p' out vis pl eq_refl Hp Hs Hb) as [Hc _].
  rewrite Hcu, Hget in Hc. discriminate Hc.
Qed.

End ClientClaims.

(** ** The worded claims on the inputs of the tests

    Each of the four claims above that fails in general holds, as it is
    worded, on the input of the test of the repository it comes from. *)

Section WordedClaimsOnTests.
Import Js Scrub Client Examples.

Lemma circular_store_does_not_unfold t : ¬ unfolds circular_store (VRef 1%positive) t.
Proof.
  intros H. revert H.
  enough (Hgen : ∀ v t, unfolds circular_store v t → v = VRef 1%positive → False)
    by (intros H; by eapply Hgen).
  apply (unfolds_mut circular_store
           (fun v _ => v = VRef 1%positive → False)
           (fun entries _ => ("self", VRef 1%positive) ∈ entries → False)).
  - discriminate.
  - intros l entries fields Hl _ IH [= ->]. apply IH.
    vm_compute in Hl. injection Hl as <-. set_solver.
  - intros Hin. by apply elem_of_nil in Hin.
  - intros key v t0 entries fields _ IHv _ IHe Hin.
    apply elem_of_cons in Hin as [[= <- <-]|Hin]; auto.
Qed.

Lemma C1_as_worded_on_the_test :
  AsStated.C1 circular_store DEFAULT_SCRUB_FIELDS 1%positive.
Proof.
  intros entries _ Hroot _. vm_compute in Hroot. injection Hroot as <-.
  eexists _, _. split; [vm_compute; reflexivity|]. split.
  - intros path srcs tgt Hw Hnd Htgt.
    inversion Hw as [|? entries i key l' path' srcs' ? Hl Hi _ Hw']; subst.
    { by apply elem_of_nil in Htgt. }
    vm_compute in Hl. injection Hl as <-.
    destruct i as [|[|[|i]]]; try discriminate Hi. injection Hi as <- <-.
    apply NoDup_cons in Hnd as [Hnin _].
    inversion Hw'; subst; [reflexivity|]. exfalso. apply Hnin. by left.
  - intros i key v t Hi Hu.
    destruct i as [|[|[|i]]]; try discriminate Hi; injection Hi as <- <-.
    + by inversion Hu.
    + by inversion Hu.
    + by apply circular_store_does_not_unfold in Hu.
Qed.

Lemma C2_as_worded_on_the_test :
  AsStated.C2 credentials_store DEFAULT_SCRUB_FIELDS 1%positive.
Proof.
  intros entries out vis Hroot Hscrub i key v Hi.
  vm_compute in Hroot. injection Hroot as <-.
  vm_compute in Hscrub. injection Hscrub as <- _.
  destruct i as [|[|[|i]]]; try discriminate Hi; injection Hi as <- <-;
    (split; [intros Hm|intros Hm t Hu]);
    rewrite <- is_sensitive_spec in Hm; vm_compute in Hm;
    try discriminate Hm; try (by exfalso; apply Hm);
    try reflexivity.
  by inversion Hu.
Qed.

Lemma C8_as_worded_on_the_test :
  AsStated.C8 test_client accepting_env ∅ error_thrower rethrow_options
    test_request false rethrow_me.
Proof.
  intros v [= <-] _. eexists _, _. vm_compute. reflexivity.
Qed.

Lemma C10_as_worded_on_the_test :
  AsStated.C10 test_client person_store 1%positive 0 LInfo None.
Proof.
  intros derived p' out vis pl Hd Hp Hs Hb.
  vm_compute in Hd. injection Hd as <-.
  vm_compute in Hp. injection Hp as <-.
  vm_compute in Hs. injection Hs as <- _.
  vm_compute in Hb. injection Hb as <-.
  split; reflexivity.
Qed.

End WordedClaimsOnTests.

(** ** The tests of the repository, on the model *)

Section Tests.
Import Js Scrub Client StackParser Examples.

Example test_scrub_default_fields :
  fst <$> scrub credentials_store DEFAULT_SCRUB_FIELDS 1%positive
  = Some (TObj [("password", SCRUBBED); ("username", TPrim (PStr "testuser"));
                ("apiKey", SCRUBBED)]).
Proof. vm_compute. reflexivity. Qed.

Example test_nested_circular_reference :
  fst <$> scrub family_store DEFAULT_SCRUB_FIELDS 1%positive
  = Some (TObj [("name", TPrim (PStr "parent"));
                ("child", TObj [("name", TPrim (PStr "child"));
                                ("parent", CIRCULAR)])]).
Proof. vm_compute. reflexivity. Qed.

Example test_request_headers :
  map_to_list (scrubHeaders request_headers DEFAULT_SCRUB_FIELDS)
  = [("content-type", "application/json"); ("authorization", "[SCRUBBED]");
     ("x-custom-header", "value")].
Proof. vm_compute. reflexivity. Qed.

Example test_v8_stack :
  parseStackFrames (mkError "Error" "Test error" (Some v8_stack))
  = [ mkFrame (Some "file:///path/to/anonymous.js") (Some 30%N) (Some 35%N)
              (Some "(anonymous)");
      mkFrame (Some "file:///path/to/other.js") (Some 20%N) (Some 25%N)
              (Some "anotherFunction");
      mkFrame (Some "file:///path/to/file.js") (Some 10%N) (Some 15%N)
              (Some "functionName") ].
Proof. vm_compute. reflexivity. Qed.

Example test_no_stack :
  parseStackFrames (mkError "TypeError" "Type mismatch" None)
  = [mkFrame (Some "(no stack trace)") None None (Some "TypeError")]
  ∧ parseStackFrames (mkError "Error" "Empty stack" (Some ""))
    = [mkFrame (Some "(no stack trace)") None None (Some "Error")].
Proof. vm_compute. done. Qed.

Example test_wrap_answers_500 :
  snd <$> wrap test_client accepting_env ∅ error_thrower (mkOptions None None None)
               test_request false rethrow_me
  = Some ([Fetch ROLLBAR_API_URL "{...}"],
          Return (mkHttpResponse 500 (Some "application/json") internal_server_error)).
Proof. vm_compute. reflexivity. Qed.

Example test_fetch_error_gives_null :
  error test_client offline_env ∅ rethrow_me 1%positive None
  = Some ([Fetch ROLLBAR_API_URL "{...}";
           ConsoleError "[Rollbar] Failed to send:" (LThrown network_error)],
          Return None).
Proof. vm_compute. reflexivity. Qed.

End Tests.

(** * Further properties *)

(** ** The object scrubber, at every depth *)

Section ScrubDepth.
Import Js Scrub Client Shape Examples.

Variable h : gmap loc obj.
Variable sf : list string.

Lemma masked_cons key t fields :
  masked sf (TObj ((key, t) :: fields))
  = (if is_sensitive sf key then is_scrubbed t else masked sf t)
    && masked sf (TObj fields).
Proof. reflexivity. Qed.


Lemma scrubs_masked o vis t vis' : scrubs h sf o vis t vis' → masked sf t = true.
Proof.
  revert o vis t vis'.
  apply (scrubs_mut h sf (fun _ _ t _ => masked sf t = true)
                         (fun _ _ out _ => masked sf (TObj out) = true));
    try done; intros; rewrite masked_cons; simplify_eq;
    repeat match goal with H : is_sensitive _ _ = _ |- _ => rewrite H end;
    by apply andb_true_intro.
Qed.

Lemma masked_tree_at t path fields i key t' :
  masked sf t = true →
  tree_at t path = Some (TObj fields) → fields !! i = Some (key, t') →
  is_sensitive sf key = true → t' = SCRUBBED.
Proof.
  assert (Hfield : ∀ fs j k u, masked sf (TObj fs) = true → fs !! j = Some (k, u) →
            if is_sensitive sf k then is_scrubbed u = true else masked sf u = true).
  { induction fs as [|[k0 u0] fs IH]; intros j k u Hm Hj; [by destruct j|].
    rewrite masked_cons in Hm. apply andb_true_iff in Hm as [H0 Hrest].
    destruct j as [|j]; simpl in Hj; [|by eapply IH].
    injection Hj as <- <-. by destruct (is_sensitive sf k0). }
  revert t. induction path as [|j path IH]; intros t Hm Hat Hi Hs; simpl in Hat.
  - injection Hat as ->. specialize (Hfield _ _ _ _ Hm Hi). rewrite Hs in Hfield.
    destruct t' as [[| | | | |s]|]; try discriminate Hfield.
    simpl in Hfield. apply String.eqb_eq in Hfield. by subst.
  - destruct t as [|fs]; [done|].
    destruct (fs !! j) as [[k u]|] eqn:Hj; [|done]. simpl in Hat.
    specialize (Hfield _ _ _ _ Hm Hj).
    destruct (is_sensitive sf k).
    + destruct u as [[| | | | |s]|]; try discriminate Hfield.
      by destruct path.
    + by apply (IH u).
Qed.



End ScrubDepth.

Section ScrubberProperties.
Import Js Scrub Client Shape Examples.

(** X1. A scrub that starts with a fresh visited set returns an object in
    which every key that matches a scrub field, however deep below the
    root it lies, holds "[SCRUBBED]". *)
Theorem X1_scrub_masks_at_every_depth
    (h : gmap loc obj) (sf : list string) (root : loc)
    (Hclosed : closed h) (Hroot : root ∈ dom h) :
  ∃ out vis,
    scrub h sf root = Some (TObj out, vis)
    ∧ ∀ path fields i key t,
        tree_at (TObj out) path = Some (TObj fields) →
        fields !! i = Some (key, t) →
        is_sensitive sf key = true → t = SCRUBBED.
Proof.
  destruct (scrub_total h sf root Hclosed Hroot) as (out & vis & Hscrub & Hrun).
  exists out, vis. split; [done|].
  intros path fields i key t. apply masked_tree_at. by eapply scrubs_masked.
Qed.

Lemma X1_witness :
  ∃ out vis,
    scrub session_store DEFAULT_SCRUB_FIELDS 1%positive = Some (TObj out, vis)
    ∧ ∀ path fields i key t,
        tree_at (TObj out) path = Some (TObj fields) →
        fields !! i = Some (key, t) →
        is_sensitive DEFAULT_SCRUB_FIELDS key = true → t = SCRUBBED.
Proof.
  apply X1_scrub_masks_at_every_depth.
  - apply closed_check. vm_compute. reflexivity.
  - apply elem_of_dom. exists session_entries. vm_compute. reflexivity.
Defined.



End ScrubberProperties.

(** ** The header scrubber, composed *)

Section HeaderProperties.
Import Js Scrub Client Examples.

Lemma header_sensitive_app (sf1 sf2 : list string) (key : string) :
  header_sensitive (sf1 ++ sf2) key = header_sensitive sf1 key || header_sensitive sf2 key.
Proof. unfold header_sensitive. apply existsb_app. Qed.

(** X3. Scrubbing headers that were already scrubbed, with other extra
    fields, gives what one pass with both lists of extra fields gives; in
    particular a second pass with the same fields changes nothing, and a
    masked header is never unmasked. *)
Theorem X3_scrubHeaders_composes
    (hs : gmap string string) (extra1 extra2 : list string) :
  scrubHeaders (scrubHeaders hs extra1) extra2 = scrubHeaders hs (extra1 ++ extra2)
  ∧ scrubHeaders (scrubHeaders hs extra1) extra1 = scrubHeaders hs extra1
  ∧ ∀ key, scrubHeaders hs extra1 !! key = Some "[SCRUBBED]" →
           scrubHeaders (scrubHeaders hs extra1) extra2 !! key = Some "[SCRUBBED]".
Proof.
  assert (Hlook : ∀ e1 e2 key,
    scrubHeaders (scrubHeaders hs e1) e2 !! key
    = (fun v => if header_sensitive (DEFAULT_SCRUB_HEADERS ++ e1) key
                   || header_sensitive (DEFAULT_SCRUB_HEADERS ++ e2) key
                then "[SCRUBBED]" else v) <$> hs !! key).
  { intros e1 e2 key. rewrite !scrubHeaders_lookup. unfold mask.
    destruct (hs !! key) as [v|]; [|done]. cbn [fmap option_fmap option_map].
    by destruct (header_sensitive (DEFAULT_SCRUB_HEADERS ++ e1) key),
               (header_sensitive (DEFAULT_SCRUB_HEADERS ++ e2) key). }
  split_and!.
  - apply map_eq. intros key. rewrite Hlook, scrubHeaders_lookup. unfold mask.
    rewrite !header_sensitive_app.
    destruct (hs !! key) as [v|]; [|done]. cbn [fmap option_fmap option_map].
    by destruct (header_sensitive DEFAULT_SCRUB_HEADERS key),
               (header_sensitive extra1 key), (header_sensitive extra2 key).
  - apply map_eq. intros key. rewrite Hlook, scrubHeaders_lookup. unfold mask.
    destruct (hs !! key) as [v|]; [|done]. cbn [fmap option_fmap option_map].
    by destruct (header_sensitive (DEFAULT_SCRUB_HEADERS ++ extra1) key).
  - intros key Hkey. rewrite scrubHeaders_lookup, Hkey. unfold mask.
    cbn [fmap option_fmap option_map].
    by destruct (header_sensitive (DEFAULT_SCRUB_HEADERS ++ extra2) key).
Qed.

(** X23. The header scrubber is at least as strict as the object
    scrubber: a header whose name is one of the given fields, whatever the
    case, is masked (the header scrubber asks only that the name contains
    the field), so every header named like a scrub field of the client is
    masked in the request context [buildRequestContext] builds. *)
Theorem X23_headers_named_like_a_scrub_field_are_masked
    (hs : gmap string string) (sf : list string) (key value : string)
    (Hkey : hs !! key = Some value)
    (Hfield : is_sensitive sf key = true) :
  scrubHeaders hs sf !! key = Some "[SCRUBBED]"
  ∧ ∀ this rq, req_headers rq = hs → this_scrubFields this = sf →
      headers (buildRequestContext this rq) ≫= (.!! key) = Some "[SCRUBBED]".
Proof.
  assert (Hmask : scrubHeaders hs sf !! key = Some "[SCRUBBED]").
  { rewrite scrubHeaders_lookup, Hkey. unfold mask.
    assert (Hs : header_sensitive (DEFAULT_SCRUB_HEADERS ++ sf) key = true).
    { apply is_sensitive_spec in Hfield as (f & Hf & Hm).
      apply header_sensitive_spec. exists f. split; [apply elem_of_app; by right|].
      exists "", "". unfold matches_ci in Hm. rewrite Hm.
      assert (Hr : ∀ s : string, s = s +:+ "").
      { induction s as [|c s IH]; [done|].
        change (String c s = String c (s +:+ "")). by rewrite <- IH. }
      change ("" +:+ toLowerCase f +:+ "") with (toLowerCase f +:+ ""). apply Hr. }
    by rewrite Hs. }
  split; [done|]. intros this rq <- <-. exact Hmask.
Qed.

Lemma X23_witness :
  scrubHeaders {[ "Token" := "abc" ]} DEFAULT_SCRUB_FIELDS !! "Token"
  = Some "[SCRUBBED]".
Proof.
  refine (proj1 (X23_headers_named_like_a_scrub_field_are_masked
                   {[ "Token" := "abc" ]} DEFAULT_SCRUB_FIELDS "Token" "abc" _ _));
    vm_compute; reflexivity.
Defined.

End HeaderProperties.

(** ** The payload builder *)

Section PayloadProperties.
Import Js Scrub Client Shape Trace Examples Samples.

Lemma scrub_Some (h : gmap loc obj) (sf : list string) (o : loc) r :
  scrub h sf o = Some r →
  ∃ entries out, h !! o = Some entries ∧ r.1 = TObj out
                 ∧ scrubs h sf o ∅ (TObj out) r.2
                 ∧ scrubs_keys h sf entries {[o]} out r.2.
Proof.
  destruct r as [t vis]. unfold scrub. intros E.
  apply scrubObject_sound in E.
  inversion E as [|? ? entries out ? _ Ho Hkeys]; subst; [set_solver|].
  exists entries, out. split_and!; try done.
  by replace ({[o]} : gset loc) with ({[o]} ∪ ∅ : gset loc) by set_solver.
Qed.

Lemma buildPayload_inv (this : Rollbar) (h : gmap loc obj) (t : Z)
    (level : LogLevel) (context : option ReportContext) (pl : RollbarPayload) :
  buildPayload this h t level context = Some pl →
  ∃ custom1,
    match payload (config this) with
    | Some p => Some <$> merge_custom this h p None
    | None => Some None
    end = Some custom1
    ∧ match context ≫= request with
      | Some rq =>
          rbody ← match default false (includeRequestBody (config this)), body rq with
                  | true, Some (VRef b) =>
                      r ← scrub h (this_scrubFields this) b; Some (Some r.1)
                  | true, Some (VPrim p) =>
                      if prim_truthy p then None else Some None
                  | _, _ => Some None
                  end;
          Some (Some {| rq_url := url rq; rq_method := rmethod rq;
                        rq_headers := headers rq; rq_params := params rq;
                        rq_user_ip := userIp rq; rq_body := rbody |})
      | None => Some None
      end = Some (d_request pl)
    ∧ match context ≫= custom with
      | Some c => Some <$> merge_custom this h c custom1
      | None => Some custom1
      end = Some (d_custom pl)
    ∧ access_token pl = default "" (accessToken (config this))
    ∧ d_environment pl = default "" (environment (config this))
    ∧ d_level pl = level
    ∧ d_timestamp pl = (t `div` 1000)%Z
    ∧ d_body pl = BodyEmpty
    ∧ d_person pl = context ≫= person
    ∧ d_code_version pl
      = (if truthy (codeVersion (config this)) then codeVersion (config this) else None)
    ∧ d_server pl = (if truthy (host (config this)) then host (config this) else None).
Proof.
  unfold buildPayload. cbv zeta. intros H.
  apply bind_Some in H as (custom1 & H1 & H).
  apply bind_Some in H as (request1 & H2 & H).
  apply bind_Some in H as (custom2 & H3 & H).
  injection H as <-. exists custom1. cbn [d_request d_custom access_token
    d_environment d_level d_timestamp d_body d_person d_code_version d_server].
  split_and!; done.
Qed.

(** X4. The request of a context goes through [buildPayload] as follows,
    on a closed store that holds the configured payload, the custom data
    and the body when it is an object.  The call throws exactly when the
    client was configured with [includeRequestBody] and the body is a
    truthy value that is not an object (a non-empty string, a non-zero
    number, [true]): [scrubObject] is called on it and its [visited.add]
    rejects it.  Otherwise the call returns a payload, and in it the
    fields of the request other than the body (the headers too) are copied
    as the caller gave them; the body is absent when the option is off,
    when the context has no body and when the body is a falsy primitive;
    and a body that is an object is sent, when the option is on, as its
    scrubbed copy, every scrub field masked at every depth. *)
Theorem X4_request_body_is_sent_only_when_enabled
    (this : Rollbar) (h : gmap loc obj) (t : Z) (level : LogLevel)
    (ctx : ReportContext) (rq : RequestContext)
    (Hrq : request ctx = Some rq)
    (Hclosed : closed h)
    (Hpayload : ∀ p, payload (config this) = Some p → p ∈ dom h)
    (Hcustom : ∀ c, custom ctx = Some c → c ∈ dom h)
    (Hobject : ∀ b, body rq = Some (VRef b) → b ∈ dom h) :
  (buildPayload this h t level (Some ctx) = None
   ↔ includeRequestBody (config this) = Some true
     ∧ ∃ p, body rq = Some (VPrim p) ∧ prim_truthy p = true)
  ∧ (includeRequestBody (config this) = Some true
     ∧ (∃ p, body rq = Some (VPrim p) ∧ prim_truthy p = true)
     ∨ ∃ pl, buildPayload this h t level (Some ctx) = Some pl)
  ∧ ∀ pl, buildPayload this h t level (Some ctx) = Some pl →
      ∃ rd, d_request pl = Some rd
        ∧ rq_url rd = url rq ∧ rq_method rd = rmethod rq
        ∧ rq_headers rd = headers rq ∧ rq_params rd = params rq
        ∧ rq_user_ip rd = userIp rq
        ∧ (includeRequestBody (config this) ≠ Some true ∨ body rq = None
           ∨ (∃ p, body rq = Some (VPrim p)) → rq_body rd = None)
        ∧ (∀ b, includeRequestBody (config this) = Some true →
             body rq = Some (VRef b) →
             ∃ out vis,
               scrub h (this_scrubFields this) b = Some (TObj out, vis)
               ∧ rq_body rd = Some (TObj out)
               ∧ ∀ path fields i key t',
                   tree_at (TObj out) path = Some (TObj fields) →
                   fields !! i = Some (key, t') →
                   is_sensitive (this_scrubFields this) key = true →
                   t' = SCRUBBED).
Proof.
  assert (Hthrows : includeRequestBody (config this) = Some true
            ∧ (∃ p, body rq = Some (VPrim p) ∧ prim_truthy p = true) →
            buildPayload this h t level (Some ctx) = None).
  { intros (Hon & p & Hp & Htruthy). unfold buildPayload. cbv zeta.
    assert (Hreq : match Some ctx ≫= request with
              | Some rq =>
                  rbody ← match default false (includeRequestBody (config this)),
                                body rq with
                          | true, Some (VRef b) =>
                              r ← scrub h (this_scrubFields this) b; Some (Some r.1)
                          | true, Some (VPrim p) =>
                              if prim_truthy p then None else Some None
                          | _, _ => Some None
                          end;
                  Some (Some {| rq_url := url rq; rq_method := rmethod rq;
                                rq_headers := headers rq; rq_params := params rq;
                                rq_user_ip := userIp rq; rq_body := rbody |})
              | None => Some None
              end = None).
    { cbn [mbind option_bind]. rewrite Hrq, Hon, Hp. cbn [default from_option id].
      by rewrite Htruthy. }
    rewrite Hreq.
    by destruct (match payload (config this) with
                 | Some p => Some <$> merge_custom this h p None
                 | None => Some None
                 end). }
  assert (Hreturns : ¬ (includeRequestBody (config this) = Some true
            ∧ ∃ p, body rq = Some (VPrim p) ∧ prim_truthy p = true) →
            ∃ pl, buildPayload this h t level (Some ctx) = Some pl).
  { intros Hno.
    destruct (buildPayload_defined this h t level (Some ctx) Hclosed Hpayload Hcustom)
      as (pl & Hpl & _); [|by exists pl].
    intros rq0 Hrq0 Hon. cbn [mbind option_bind] in Hrq0.
    rewrite Hrq in Hrq0. injection Hrq0 as <-.
    destruct (body rq) as [[p|b]|] eqn:Hb; [|by apply Hobject|done].
    destruct (prim_truthy p) eqn:Htruthy; [|done].
    destruct Hno. split; [|by exists p].
    by destruct (includeRequestBody (config this)) as [[|]|]. }
  assert (Hcases : includeRequestBody (config this) = Some true
            ∧ (∃ p, body rq = Some (VPrim p) ∧ prim_truthy p = true)
            ∨ ¬ (includeRequestBody (config this) = Some true
                 ∧ ∃ p, body rq = Some (VPrim p) ∧ prim_truthy p = true)).
  { destruct (includeRequestBody (config this)) as [[|]|];
      [|right; by intros [? _]..].
    destruct (body rq) as [[p|b]|];
      [|right; by intros (_ & ? & ? & _)..].
    destruct (prim_truthy p) eqn:Htruthy.
    - left. split; [done|]. by exists p.
    - right. intros (_ & p' & [= <-] & Hp'). congruence. }
  split_and!.
  - split; [|exact Hthrows]. intros Hnone.
    destruct Hcases as [Hyes|Hno]; [done|].
    destruct (Hreturns Hno) as [pl Hpl]. congruence.
  - destruct Hcases as [Hyes|Hno]; [by left|right; by apply Hreturns].
  - intros pl Hpl.
    apply buildPayload_inv in Hpl as (custom1 & _ & Hreq & _).
    cbn [mbind option_bind] in Hreq. rewrite Hrq in Hreq.
    apply bind_Some in Hreq as (rbody & Hbody & Hreq).
    injection Hreq as <-. eexists. split; [reflexivity|].
    cbn [rq_url rq_method rq_headers rq_params rq_user_ip rq_body].
    split_and!; try done.
    + intros [Hoff|[Hnone|[p Hp]]].
      * destruct (includeRequestBody (config this)) as [[|]|]; try done;
          cbn [default from_option id] in Hbody; congruence.
      * rewrite Hnone in Hbody.
        destruct (default false (includeRequestBody (config this))); congruence.
      * rewrite Hp in Hbody.
        destruct (default false (includeRequestBody (config this)));
          [|congruence].
        destruct (prim_truthy p); congruence.
    + intros b Hon Hb. rewrite Hon, Hb in Hbody.
      cbn [default from_option id] in Hbody.
      apply bind_Some in Hbody as ([r vis] & Hscrub & Hbody). injection Hbody as <-.
      destruct (scrub_Some _ _ _ _ Hscrub) as (entries & out & _ & Hr & Hrun & _).
      cbn [fst snd] in *. subst r. exists out, vis. split_and!; try done.
      intros path fields i key t'. apply masked_tree_at. by eapply scrubs_masked.
Qed.

Lemma X4_witness :
  buildPayload body_client credentials_store 1700000000000 LError
    (Some login_context) = Some login_payload
  ∧ ∃ rd, d_request login_payload = Some rd
          ∧ rq_url rd = "https://example.com/login"
          ∧ rq_body rd = Some (TObj [("password", SCRUBBED);
                                     ("username", TPrim (PStr "testuser"));
                                     ("apiKey", SCRUBBED)]).
Proof.
  assert (Hpl : buildPayload body_client credentials_store 1700000000000 LError
                  (Some login_context) = Some login_payload)
    by (vm_compute; reflexivity).
  split; [exact Hpl|].
  assert (Hclosed : closed credentials_store).
  { apply closed_check. vm_compute. reflexivity. }
  assert (Hin : ∀ b, Some (VRef 1%positive) = Some (VRef b) → b ∈ dom credentials_store).
  { intros b [= <-]. apply elem_of_dom. vm_compute. eauto. }
  destruct (X4_request_body_is_sent_only_when_enabled body_client credentials_store
              1700000000000 LError login_context login_request
              eq_refl Hclosed ltac:(by intros ? [=]) ltac:(by intros ? [=]) Hin)
    as (_ & _ & Hsent).
  destruct (Hsent login_payload Hpl) as (rd & Hrd & Hurl & _).
  exists rd. split; [done|]. split; [done|].
  vm_compute in Hrd. injection Hrd as <-. reflexivity.
Defined.

Lemma spread_NoDup {A : Type} (a b : list (string * A)) :
  NoDup a.*1 → NoDup (spread a b).*1.
Proof.
  unfold spread. revert a. induction b as [|[k v] b IH]; intros a Ha; [done|].
  simpl. apply IH. by apply set_key_NoDup.
Qed.

Lemma get_key_spread {A : Type} (k : string) (a b : list (string * A)) :
  NoDup b.*1 →
  get_key k (spread a b)
  = match get_key k b with Some v => Some v | None => get_key k a end.
Proof.
  intros Hb. destruct (get_key k b) as [v|] eqn:E.
  - by apply get_key_spread_Some.
  - by apply get_key_spread_None.
Qed.

Lemma scrub_top_masked (h : gmap loc obj) (sf : list string) (o : loc) out vis k v :
  scrub h sf o = Some (TObj out, vis) →
  get_key k out = Some v → is_sensitive sf k = true → v = SCRUBBED.
Proof.
  intros Hs Hk Hsens. destruct (scrub_Some _ _ _ _ Hs) as (? & out' & _ & Ho & Hrun & _).
  cbn [fst snd] in *. injection Ho as <-.
  destruct (get_key_Some_lookup _ _ _ Hk) as [i Hi].
  apply (masked_tree_at sf (TObj out) [] out i k v); [by eapply scrubs_masked|done..].
Qed.

Lemma merge_custom_Some (this : Rollbar) (h : gmap loc obj) (o : loc) custom0 r :
  Some <$> merge_custom this h o custom0 = Some r →
  ∃ entries out vis,
    h !! o = Some entries
    ∧ scrub h (this_scrubFields this) o = Some (TObj out, vis)
    ∧ out.*1 = entries.*1
    ∧ r = Some (spread (default [] custom0) out).
Proof.
  intros H. apply fmap_Some in H as (merged & H & ->).
  unfold merge_custom in H. apply bind_Some in H as ([t vis] & Hs & H).
  injection H as <-.
  destruct (scrub_Some _ _ _ _ Hs) as (entries & out & He & Ht & _ & Hkeys).
  cbn [fst snd] in *. subst t. exists entries, out, vis. split_and!; try done.
  by eapply scrubs_keys_keys.
Qed.

(** X5. When both the configuration and the call bring custom data,
    [data.custom] holds the scrubbed copies of both, merged key by key: a
    key of the call's data wins over the same key of the configured
    payload, every other key of either is kept, and whatever key of the
    result is a scrub field holds "[SCRUBBED]". *)
Theorem X5_per_call_custom_overrides_configured_payload
    (this : Rollbar) (h : gmap loc obj) (t : Z) (level : LogLevel)
    (ctx : ReportContext) (p c : loc) (pentries centries : obj)
    (pl : RollbarPayload)
    (Hp : payload (config this) = Some p) (Hc : custom ctx = Some c)
    (Hpe : h !! p = Some pentries) (Hce : h !! c = Some centries)
    (Hpn : NoDup pentries.*1) (Hcn : NoDup centries.*1)
    (Hpl : buildPayload this h t level (Some ctx) = Some pl) :
  ∃ outp visp outc visc merged,
    scrub h (this_scrubFields this) p = Some (TObj outp, visp)
    ∧ scrub h (this_scrubFields this) c = Some (TObj outc, visc)
    ∧ d_custom pl = Some merged
    ∧ (∀ k, get_key k merged
            = match get_key k outc with
              | Some v => Some v
              | None => get_key k outp
              end)
    ∧ NoDup merged.*1
    ∧ (∀ k v, get_key k merged = Some v →
              is_sensitive (this_scrubFields this) k = true → v = SCRUBBED).
Proof.
  apply buildPayload_inv in Hpl as (custom1 & H1 & _ & H3 & _).
  rewrite Hp in H1. cbn [mbind option_bind] in H3. rewrite Hc in H3.
  apply merge_custom_Some in H1 as (pe & outp & visp & Hpe' & Hsp & Hkp & ->).
  apply merge_custom_Some in H3 as (ce & outc & visc & Hce' & Hsc & Hkc & H3).
  pose proof (eq_trans (eq_sym Hpe') Hpe) as [= ->].
  pose proof (eq_trans (eq_sym Hce') Hce) as [= ->].
  cbn [default from_option id] in H3.
  assert (Hnp : NoDup outp.*1) by by rewrite Hkp.
  assert (Hnc : NoDup outc.*1) by by rewrite Hkc.
  assert (Hget : ∀ k, get_key k (spread (spread [] outp) outc)
                      = match get_key k outc with
                        | Some v => Some v
                        | None => get_key k outp
                        end).
  { intros k. rewrite !get_key_spread by done.
    destruct (get_key k outc); [done|]. by destruct (get_key k outp). }
  exists outp, visp, outc, visc, (spread (spread [] outp) outc).
  split_and!; try done.
  - apply spread_NoDup, spread_NoDup. apply NoDup_nil_2.
  - intros k v Hk Hsens. rewrite Hget in Hk.
    destruct (get_key k outc) as [v'|] eqn:E.
    + injection Hk as <-. by apply (scrub_top_masked h (this_scrubFields this) c outc visc k v').
    + by apply (scrub_top_masked h (this_scrubFields this) p outp visp k v).
Qed.

Lemma X5_witness :
  ∃ pl merged,
    buildPayload team_client custom_store 0 LInfo (Some region_context) = Some pl
    ∧ d_custom pl = Some merged
    ∧ get_key "region" merged = Some (TPrim (PStr "us"))
    ∧ get_key "team" merged = Some (TPrim (PStr "core"))
    ∧ get_key "password" merged = Some SCRUBBED.
Proof.
  destruct (buildPayload team_client custom_store 0 LInfo (Some region_context))
    as [pl|] eqn:Hpl; [|vm_compute in Hpl; discriminate Hpl].
  assert (Hn1 : NoDup ["team"; "region"])
    by (apply (bool_decide_unpack (NoDup ["team"; "region"])); vm_compute; exact I).
  assert (Hn2 : NoDup ["region"; "password"])
    by (apply (bool_decide_unpack (NoDup ["region"; "password"])); vm_compute; exact I).
  destruct (X5_per_call_custom_overrides_configured_payload team_client custom_store
              0 LInfo region_context 1%positive 2%positive
              [("team", VPrim (PStr "core")); ("region", VPrim (PStr "eu"))]
              [("region", VPrim (PStr "us")); ("password", VPrim (PStr "x"))]
              pl eq_refl eq_refl eq_refl eq_refl Hn1 Hn2 Hpl)
    as (outp & visp & outc & visc & merged & Hsp & Hsc & Hcu & Hget & _).
  exists pl, merged. split; [done|]. split; [done|]. rewrite !Hget.
  vm_compute in Hsp. vm_compute in Hsc.
  injection Hsp as <- _. injection Hsc as <- _. by vm_compute.
Defined.

(** X6. A message report sends the payload of [buildPayload] with a
    message object that starts from [body: message] and takes every key of
    the scrubbed custom data of the call: without custom data the object
    holds the text alone, and custom data with a key [body] of its own
    replaces the text of the message. *)
Theorem X6_custom_body_replaces_the_message_text
    (this : Rollbar) (env : Env) (h : gmap loc obj) (level : LogLevel)
    (msg : string) (context : option ReportContext)
    (m : M (option RollbarResponse))
    (Hm : logMessage this env h level msg context = Some m) :
  ∃ pl fields,
    buildPayload this h (now env) level context = Some pl
    ∧ d_level pl = level
    ∧ m = send this env (with_body pl (BodyMessage fields))
    ∧ (context ≫= custom = None → fields = [("body", TPrim (PStr msg))])
    ∧ (∀ c centries,
         context ≫= custom = Some c → h !! c = Some centries → NoDup centries.*1 →
         ∃ out vis,
           scrub h (this_scrubFields this) c = Some (TObj out, vis)
           ∧ get_key "body" fields
             = Some (default (TPrim (PStr msg)) (get_key "body" out))
           ∧ ∀ k, k ≠ "body" → get_key k fields = get_key k out).
Proof.
  unfold logMessage in Hm.
  apply bind_Some in Hm as (pl & Hpl & Hm).
  apply bind_Some in Hm as (scrubbedCustom & Hsc & Hm).
  injection Hm as <-. exists pl, (spread [("body", TPrim (PStr msg))] scrubbedCustom).
  split; [done|]. split.
  { by apply buildPayload_inv in Hpl as (? & _ & _ & _ & _ & _ & ? & _). }
  split; [done|]. split.
  - intros Hnone. rewrite Hnone in Hsc. by injection Hsc as <-.
  - intros c centries Hc Hce Hnd. rewrite Hc in Hsc.
    apply bind_Some in Hsc as ([t vis] & Hscrub & Hsc). injection Hsc as <-.
    destruct (scrub_Some _ _ _ _ Hscrub) as (entries & out & He & Ht & _ & Hkeys).
    cbn [fst snd] in *. subst t. exists out, vis. split; [done|].
    pose proof (eq_trans (eq_sym He) Hce) as [= ->].
    assert (Hno : NoDup out.*1) by by rewrite (scrubs_keys_keys _ _ _ _ _ _ Hkeys).
    cbn [fields_of]. split.
    + rewrite get_key_spread by done. by destruct (get_key "body" out).
    + intros k Hk. rewrite get_key_spread by done.
      destruct (get_key k out); [done|]. cbn [get_key].
      destruct (String.eqb_spec "body" k); [congruence|done].
Qed.

Lemma X6_witness :
  ∃ pl fields,
    info test_client accepting_env own_body_store "Test" (Some own_body_context)
    = Some (send test_client accepting_env (with_body pl (BodyMessage fields)))
    ∧ get_key "body" fields = Some (TPrim (PStr "mine")).
Proof.
  unfold info.
  destruct (logMessage test_client accepting_env own_body_store LInfo "Test"
              (Some own_body_context)) as [m|] eqn:Hm;
    [|vm_compute in Hm; discriminate Hm].
  destruct (X6_custom_body_replaces_the_message_text _ _ _ _ _ _ _ Hm)
    as (pl & fields & _ & _ & -> & _ & Hbody).
  exists pl, fields. split; [done|].
  assert (Hnd : NoDup ["user"; "body"])
    by (apply (bool_decide_unpack (NoDup ["user"; "body"])); vm_compute; exact I).
  destruct (Hbody 1%positive
              [("user", VPrim (PStr "ann")); ("body", VPrim (PStr "mine"))]
              eq_refl eq_refl Hnd) as (out & vis & Hs & -> & _).
  vm_compute in Hs. injection Hs as <- _. reflexivity.
Defined.

(** X7. Every payload of a client that was constructed carries the access
    token of the configuration, which is never empty; the environment of
    the configuration, "production" when it names none (an empty name is
    kept); the level asked for; the time in whole seconds; and the code
    version and the host exactly when they are configured and not empty. *)
Theorem X7_payload_carries_token_environment_and_time
    (cfg : RollbarConfig) (this : Rollbar) (h : gmap loc obj) (t : Z)
    (level : LogLevel) (context : option ReportContext) (pl : RollbarPayload)
    (Hctor : constructor cfg = inr this)
    (Hpl : buildPayload this h t level context = Some pl) :
  accessToken cfg = Some (access_token pl)
  ∧ access_token pl ≠ ""
  ∧ d_environment pl = default "production" (environment cfg)
  ∧ d_level pl = level
  ∧ (d_timestamp pl * 1000 <= t < d_timestamp pl * 1000 + 1000)%Z
  ∧ (∀ v, d_code_version pl = Some v ↔ codeVersion cfg = Some v ∧ v ≠ "")
  ∧ (∀ v, d_server pl = Some v ↔ host cfg = Some v ∧ v ≠ "").
Proof.
  assert (Hkeep : ∀ (o : option string) v,
            (if truthy o then o else None) = Some v ↔ o = Some v ∧ v ≠ "").
  { intros [[|a s]|] v; simpl; split; try done.
    - by intros [[= <-] ?].
    - by intros [= <-].
    - by intros [? _].
    - by intros [? _]. }
  apply buildPayload_inv in Hpl
    as (_ & _ & _ & _ & Htok & Henv & Hlev & Htime & _ & _ & Hcv & Hhost).
  unfold constructor in Hctor.
  destruct (accessToken cfg) as [[|a tok]|] eqn:Etok; simpl in Hctor; try done.
  injection Hctor as <-. cbn [config accessToken environment codeVersion host] in *.
  rewrite Htok, Henv, Hlev, Htime, Hcv, Hhost. cbn [default from_option id].
  split_and!; try done;
    pose proof (Z.div_mod t 1000 ltac:(lia));
    pose proof (Z.mod_pos_bound t 1000 ltac:(lia)); lia.
Qed.

Lemma X7_witness :
  access_token (with_body bigint_payload BodyEmpty) ≠ ""
  ∧ d_environment (with_body bigint_payload BodyEmpty) = "production".
Proof.
  assert (Hpl : buildPayload test_client bigint_store 1700000000000 LInfo
                  (Some bigint_context) = Some (with_body bigint_payload BodyEmpty))
    by (vm_compute; reflexivity).
  destruct (X7_payload_carries_token_environment_and_time (test_config None)
              test_client bigint_store 1700000000000 LInfo (Some bigint_context)
              (with_body bigint_payload BodyEmpty) eq_refl Hpl)
    as (_ & Htok & Henv & _).
  split; [exact Htok|exact Henv].
Defined.

End PayloadProperties.

(** ** The transport *)

Section TransportProperties.
Import Js Scrub Client Shape Trace Examples Samples.

Ltac run_transport :=
  unfold requests, unlogged, send, when, try_catch, lift, emit, throw,
    mbind, M_bind, mret, M_ret;
  simpl.

Lemma send_fetches (this : Rollbar) (env : Env) (p : RollbarPayload) to content :
  Fetch to content ∈ (send this env p).1 →
  to = ROLLBAR_API_URL ∧ stringify env None p = inr content.
Proof.
  run_transport.
  destruct (default false (verbose (config this)));
    [destruct (stringify env (Some 2) p) as [e|s]|]; simpl;
    (destruct (stringify env None p) as [e0|c] eqn:Hc; simpl;
     [|destruct (fetch env ROLLBAR_API_URL c) as [e1|[e2|ack]]; simpl;
       [| |destruct (err ack =? 0)%Z; simpl]]);
    intros Hin; repeat (apply elem_of_cons in Hin as [Hin|Hin]; [try discriminate Hin|]);
    try (by apply elem_of_nil in Hin);
    by injection Hin as -> ->.
Qed.

(** X8. [send] posts at most once, to the address of the collector and
    with the payload as [JSON.stringify] gave it; it posts nothing when
    the payload cannot be serialised; and, the verbose log line apart, a
    failure of any step (serialising, the network, reading the answer) ends
    in [null] with the failure logged, never in an exception. *)
Theorem X8_send_posts_at_most_once (this : Rollbar) (env : Env) (p : RollbarPayload) :
  let logs := default false (verbose (config this)) in
  (∀ e, logs = true → stringify env (Some 2) p = inl e →
        requests (send this env p) = [])
  ∧ (logs = false ∨ (∃ s, stringify env (Some 2) p = inr s) →
     (∀ content, stringify env None p = inr content →
        requests (send this env p) = [Fetch ROLLBAR_API_URL content])
     ∧ (∀ e, stringify env None p = inl e →
          requests (send this env p) = []
          ∧ (send this env p).2 = Return None
          ∧ ConsoleError "[Rollbar] Failed to send:" (LThrown e) ∈ (send this env p).1)
     ∧ (∀ content e, stringify env None p = inr content →
          fetch env ROLLBAR_API_URL content = inr (inl e) →
          (send this env p).2 = Return None
          ∧ ConsoleError "[Rollbar] Failed to send:" (LThrown e) ∈ (send this env p).1)).
Proof.
  cbv zeta. split.
  - intros e Hv He. run_transport. by rewrite Hv, He.
  - intros Hv. run_transport.
    destruct (default false (verbose (config this)));
      [destruct Hv as [?|[s Hs]]; [done|]; rewrite Hs|]; simpl;
      (destruct (stringify env None p) as [e0|c] eqn:Hc; simpl;
       [|destruct (fetch env ROLLBAR_API_URL c) as [e1|[e2|ack]] eqn:Hf; simpl;
         [| |destruct (err ack =? 0)%Z; simpl]]);
      (split_and!;
       [intros ? [= <-] || (intros ? [=]) |
        intros ? [= <-] || (intros ? [=]) |
        intros ? ? [= <-] Hf' || (intros ? ? [=])];
       rewrite ?Hf in *; try discriminate; try done;
       try (injection Hf' as <-); split_and!; try done; set_solver).
Qed.

(** X9. Verbose logging changes nothing but the log: when the payload can
    be printed, a verbose client and a quiet one end [send] the same way
    and do the same to the outside, [console.log] lines apart. *)
Theorem X9_verbose_only_adds_log_lines
    (this that : Rollbar) (env : Env) (p : RollbarPayload) (s : string)
    (Hverbose : verbose (config this) = Some true)
    (Hquiet : default false (verbose (config that)) = false)
    (Hprints : stringify env (Some 2) p = inr s) :
  (send this env p).2 = (send that env p).2
  ∧ unlogged (send this env p) = (send that env p).1
  ∧ unlogged (send that env p) = (send that env p).1.
Proof.
  run_transport. rewrite Hverbose, Hquiet, Hprints. simpl.
  destruct (stringify env None p) as [e0|c]; simpl; [done|].
  destruct (fetch env ROLLBAR_API_URL c) as [e1|[e2|ack]]; simpl; [done..|].
  by destruct (err ack =? 0)%Z.
Qed.

Lemma X9_witness :
  (send verbose_client accepting_env login_payload).2
  = (send test_client accepting_env login_payload).2
  ∧ unlogged (send verbose_client accepting_env login_payload)
    = (send test_client accepting_env login_payload).1.
Proof.
  destruct (X9_verbose_only_adds_log_lines verbose_client test_client accepting_env
              login_payload "{...}" eq_refl eq_refl eq_refl) as (H1 & H2 & _).
  split; [exact H1|exact H2].
Defined.

End TransportProperties.

(** ** The wrapped handler *)

Section WrapProperties.
Import Js Scrub Client Shape Trace Examples Samples.

Lemma wrap_then (report : M (option RollbarResponse)) (has_waitUntil : bool)
    (k : M HttpResponse) :
  k.1 = [] →
  let m : M HttpResponse :=
    (if has_waitUntil then detach report else report;; mret tt);; k in
  m.1 = report.1 ++ (if has_waitUntil then [WaitUntil] else [])
  ∧ (has_waitUntil = true ∨ (∃ r, report.2 = Return r) → m.2 = k.2)
  ∧ (has_waitUntil = false → ∀ e, report.2 = Throw e → m.2 = Throw e).
Proof.
  destruct k as [kt ko]. simpl. intros ->.
  destruct report as [t [r|e]], has_waitUntil; simpl; rewrite ?app_nil_r;
    split_and!; try done.
  - intros [?|[? ?]]; done.
  - by intros _ ? [= <-].
Qed.

(** The answer of the wrapped handler once the report is done with. *)
Lemma wrap_Throw (this : Rollbar) (env : Env) (h : gmap loc obj)
    (handler : Request → outcome HttpResponse) (options : WrapperOptions)
    (rq : Request) (has_waitUntil : bool) (errors : gmap loc StackParser.Error)
    (v : thrown) errors' m :
  handler rq = Throw v →
  wrap this env h handler options rq has_waitUntil errors = Some (errors', m) →
  ∃ l report,
    match v with
    | ThrownError l0 => l = l0 ∧ errors' = errors
    | ThrownOther str =>
        l = fresh (dom errors)
        ∧ errors' = <[l := StackParser.mkError "Error" str (new_stack env str)]> errors
    end
    ∧ error this env h errors' l (Some (report_context this options rq)) = Some report
    ∧ m = ((if has_waitUntil then detach report else report;; mret tt);;
           if default false (rethrow options) then throw (ThrownError l)
           else match errorResponse options with
                | Some f => mret (f l)
                | None => mret {| status := 500;
                                  content_type := Some "application/json";
                                  text := internal_server_error |}
                end).
Proof.
  intros Hthrows. unfold wrap. rewrite Hthrows.
  destruct v as [l0|str]; cbv beta iota zeta;
    fold (report_context this options rq); intros H;
    apply bind_Some in H as (report & Hreport & H); injection H as <- <-;
    eexists _, report; split_and!; done.
Qed.

(** X10. A response of the handler passes through untouched, with nothing
    reported.  When the handler throws and [rethrow] is not set, the error
    is reported and the answer is what [errorResponse] makes of the error,
    or else the JSON 500 response; with [waitUntil] the answer does not
    wait for the report nor depend on how it ends, without it a report
    that rejects makes the wrapped handler reject the same way. *)
Theorem X10_wrap_answers_for_a_failed_handler
    (this : Rollbar) (env : Env) (h : gmap loc obj)
    (handler : Request → outcome HttpResponse) (options : WrapperOptions)
    (rq : Request) (has_waitUntil : bool) (errors : gmap loc StackParser.Error) :
  (∀ resp, handler rq = Return resp →
     wrap this env h handler options rq has_waitUntil errors
     = Some (errors, ([], Return resp)))
  ∧ (∀ v errors' m,
       handler rq = Throw v → rethrow options ≠ Some true →
       wrap this env h handler options rq has_waitUntil errors = Some (errors', m) →
       ∃ l report,
         error this env h errors' l (Some (report_context this options rq))
         = Some report
         ∧ (∀ l0, v = ThrownError l0 → l = l0)
         ∧ (∀ str, v = ThrownOther str →
              errors' !! l = Some (StackParser.mkError "Error" str (new_stack env str)))
         ∧ m.1 = report.1 ++ (if has_waitUntil then [WaitUntil] else [])
         ∧ (has_waitUntil = true ∨ (∃ r, report.2 = Return r) →
              m.2 = Return match errorResponse options with
                           | Some f => f l
                           | None => {| status := 500;
                                        content_type := Some "application/json";
                                        text := internal_server_error |}
                           end)
         ∧ (has_waitUntil = false → ∀ e, report.2 = Throw e → m.2 = Throw e)).
Proof.
  split.
  - intros resp Hresp. unfold wrap. by rewrite Hresp.
  - intros v errors' m Hthrows Hrethrow Hwrap.
    destruct (wrap_Throw _ _ _ _ _ _ _ _ _ _ _ Hthrows Hwrap)
      as (l & report & Hv & Hreport & ->).
    exists l, report. split; [done|].
    assert (Hoff : default false (rethrow options) = false).
    { destruct (rethrow options) as [[|]|]; done. }
    rewrite Hoff.
    set (k := match errorResponse options with
              | Some f => mret (f l)
              | None => mret {| status := 500;
                                content_type := Some "application/json";
                                text := internal_server_error |}
              end : M HttpResponse).
    assert (Hk : k.1 = [] ∧ k.2 = Return match errorResponse options with
                           | Some f => f l
                           | None => {| status := 500;
                                        content_type := Some "application/json";
                                        text := internal_server_error |}
                           end).
    { subst k. by destruct (errorResponse options). }
    destruct Hk as [Hk1 Hk2].
    destruct (wrap_then report has_waitUntil k Hk1) as (Hev & Hret & Hrej).
    split_and!.
    + intros l0 ->. by destruct Hv.
    + intros str ->. destruct Hv as [_ ->]. by rewrite lookup_insert_eq.
    + done.
    + intros Hok. rewrite <- Hk2. by apply Hret.
    + done.
Qed.

(** X11. Whatever the handler threw, the report [wrap] sends describes
    the request by its address, its method, its parameters, the headers as
    [scrubHeaders] leaves them with the scrub fields of the client, and the
    [cf-connecting-ip] header as the user's address; it never carries the
    body of the request, [includeRequestBody] or not.  The only request the
    wrapped handler issues is the post of that report to the collector. *)
Theorem X11_wrap_reports_the_request_without_its_body
    (this : Rollbar) (env : Env) (h : gmap loc obj)
    (handler : Request → outcome HttpResponse) (options : WrapperOptions)
    (rq : Request) (has_waitUntil : bool) (errors : gmap loc StackParser.Error)
    (v : thrown) (errors' : gmap loc StackParser.Error) (m : M HttpResponse)
    (Hthrows : handler rq = Throw v)
    (Hwrap : wrap this env h handler options rq has_waitUntil errors
             = Some (errors', m)) :
  ∃ pl rd e,
    buildPayload this h (now env) LError (Some (report_context this options rq))
    = Some pl
    ∧ d_request pl = Some rd
    ∧ rq_body rd = None
    ∧ rq_url rd = req_url rq ∧ rq_method rd = req_method rq
    ∧ rq_params rd = Some (searchParams rq)
    ∧ rq_headers rd = Some (scrubHeaders (req_headers rq) (this_scrubFields this))
    ∧ rq_user_ip rd = req_headers rq !! "cf-connecting-ip"
    ∧ (∀ to content, Fetch to content ∈ m.1 →
         to = ROLLBAR_API_URL
         ∧ stringify env None
             (with_body pl (BodyTrace (StackParser.parseStackFrames e)
                                      (StackParser.name e) (StackParser.message e)))
           = inr content).
Proof.
  destruct (wrap_Throw _ _ _ _ _ _ _ _ _ _ _ Hthrows Hwrap)
    as (l & report & _ & Hreport & Hm).
  assert (Hev : m.1 = report.1 ++ (if has_waitUntil then [WaitUntil] else [])).
  { rewrite Hm. refine (proj1 (wrap_then report has_waitUntil _ _)).
    destruct (default false (rethrow options)); [done|].
    by destruct (errorResponse options). }
  unfold error, reportError in Hreport.
  apply bind_Some in Hreport as (e & He & Hreport).
  apply bind_Some in Hreport as (pl & Hpl & Hreport). injection Hreport as <-.
  pose proof Hpl as Hinv.
  apply buildPayload_inv in Hinv as (_ & _ & Hreq & _).
  cbn [mbind option_bind report_context request buildRequestContext body] in Hreq.
  assert (Hrd : d_request pl
                = Some {| rq_url := req_url rq; rq_method := req_method rq;
                          rq_headers := Some (scrubHeaders (req_headers rq)
                                                (this_scrubFields this));
                          rq_params := Some (searchParams rq);
                          rq_user_ip := req_headers rq !! "cf-connecting-ip";
                          rq_body := None |}).
  { destruct (default false (includeRequestBody (config this)));
      cbn [mbind option_bind url rmethod headers params userIp] in Hreq;
      by injection Hreq as <-. }
  eexists pl, _, e. split; [done|]. split; [exact Hrd|].
  cbn [rq_body rq_url rq_method rq_params rq_headers rq_user_ip].
  split_and!; try done.
  intros to content Hin. rewrite Hev in Hin.
  apply elem_of_app in Hin as [Hin|Hin]; [by apply send_fetches in Hin|].
  destruct has_waitUntil; set_solver.
Qed.

Lemma X11_witness :
  ∃ errors' m pl rd,
    wrap body_client accepting_env ∅ string_thrower (mkOptions None None None)
         test_request false ∅ = Some (errors', m)
    ∧ buildPayload body_client ∅ (now accepting_env) LError
        (Some (report_context body_client (mkOptions None None None) test_request))
      = Some pl
    ∧ d_request pl = Some rd
    ∧ rq_body rd = None.
Proof.
  destruct (wrap body_client accepting_env ∅ string_thrower
              (mkOptions None None None) test_request false ∅)
    as [[errors' m]|] eqn:Hwrap; [|vm_compute in Hwrap; discriminate Hwrap].
  destruct (X11_wrap_reports_the_request_without_its_body body_client accepting_env
              ∅ string_thrower (mkOptions None None None) test_request false ∅
              (ThrownOther "String error") errors' m eq_refl Hwrap)
    as (pl & rd & e & Hpl & Hrd & Hbody & _).
  by exists errors', m, pl, rd.
Defined.

End WrapProperties.

(** ** Clients derived with a person *)

Section WithPersonProperties.
Import Js Scrub Client Shape Trace Examples Samples.

(** X12. Deriving a client with one person and, from that one, a client
    with another leaves the last person in the payload of the second: the
    key [person] is there once, every other key of the parent's payload
    is kept, the scrub fields are the parent's, and the payload of the
    first derived client is not touched. *)
Theorem X12_withPerson_twice_keeps_the_last_person
    (cfg : RollbarConfig) (this : Rollbar) (h : gmap loc obj) (a b : loc)
    (Hctor : constructor cfg = inr this) :
  ∃ h1 d1 h2 d2,
    withPerson this h a = (h1, inr d1)
    ∧ withPerson d1 h1 b = (h2, inr d2)
    ∧ get_key "person" (payload_entries d1 h1) = Some (VRef a)
    ∧ get_key "person" (payload_entries d2 h2) = Some (VRef b)
    ∧ (∀ k, k ≠ "person" →
            get_key k (payload_entries d2 h2) = get_key k (payload_entries this h))
    ∧ (payload_entries d2 h2).*1 = (payload_entries d1 h1).*1
    ∧ payload_entries d1 h2 = payload_entries d1 h1
    ∧ this_scrubFields d2 = this_scrubFields this.
Proof.
  rewrite (withPerson_spec cfg this h a Hctor).
  set (p1 := fresh (dom h)).
  set (e1 := set_key "person" (VRef a) (payload_entries this h)).
  set (h1 := <[p1 := e1]> h).
  set (d1 := {| config := mkConfig (accessToken (config this)) (environment (config this))
                            (codeVersion (config this)) (host (config this))
                            (scrubFields (config this))
                            (includeRequestBody (config this))
                            (Some p1) (verbose (config this));
                this_scrubFields := this_scrubFields this |}).
  assert (Hd1 : ∃ cfg1, constructor cfg1 = inr d1).
  { pose proof (withPerson_spec cfg this h a Hctor) as Hs.
    unfold withPerson in Hs. cbv zeta in Hs. eexists. by injection Hs. }
  destruct Hd1 as [cfg1 Hd1].
  exists h1, d1. rewrite (withPerson_spec cfg1 d1 h1 b Hd1).
  set (p2 := fresh (dom h1)).
  assert (He1 : payload_entries d1 h1 = e1).
  { unfold payload_entries. subst d1 h1. cbn [config payload].
    by rewrite lookup_insert_eq. }
  assert (Hne : p2 ≠ p1).
  { intros Heq. apply (is_fresh (dom h1)). fold p2. rewrite Heq. subst h1.
    rewrite dom_insert. set_solver. }
  eexists _, _. split; [reflexivity|]. split; [reflexivity|].
  assert (He2 : ∀ v, payload_entries
            {| config := mkConfig (accessToken (config d1)) (environment (config d1))
                            (codeVersion (config d1)) (host (config d1))
                            (scrubFields (config d1))
                            (includeRequestBody (config d1))
                            (Some p2) (verbose (config d1));
               this_scrubFields := this_scrubFields d1 |}
            (<[p2 := v]> h1) = v).
  { intros v. unfold payload_entries. cbn [config payload].
    by rewrite lookup_insert_eq. }
  rewrite He2, He1. subst e1. split_and!.
  - by rewrite get_key_set_key, String.eqb_refl.
  - by rewrite get_key_set_key, String.eqb_refl.
  - intros k Hk. rewrite !get_key_set_key.
    destruct (String.eqb_spec "person" k); [congruence|done].
  - rewrite (set_key_keys "person" (VRef b)). rewrite decide_True; [done|].
    rewrite set_key_keys. destruct (decide ("person" ∈ (payload_entries this h).*1));
      [done|set_solver].
  - unfold payload_entries at 1. subst d1. cbn [config payload].
    rewrite lookup_insert_ne by done. subst h1. by rewrite lookup_insert_eq.
  - done.
Qed.

Lemma X12_witness :
  ∃ h1 d1 h2 d2,
    withPerson test_client person_store 1%positive = (h1, inr d1)
    ∧ withPerson d1 h1 2%positive = (h2, inr d2)
    ∧ get_key "person" (payload_entries d2 h2) = Some (VRef 2%positive).
Proof.
  destruct (X12_withPerson_twice_keeps_the_last_person (test_config None) test_client
              person_store 1%positive 2%positive eq_refl)
    as (h1 & d1 & h2 & d2 & H1 & H2 & _ & Hb & _).
  by exists h1, d1, h2, d2.
Defined.

End WithPersonProperties.

(** ** The stack parser, line by line *)

Section FrameProperties.
Import Js Regex StackParser Lines Examples.

Lemma fmap_rev {A B : Type} (f : A → B) (l : list A) : f <$> rev l = rev (f <$> l).
Proof.
  induction l as [|x l IH]; [done|]. simpl. by rewrite fmap_app, IH.
Qed.

Lemma last_rev {A : Type} (l : list A) : last (rev l) = head l.
Proof. destruct l as [|x l]; [done|]. simpl. by rewrite last_snoc. Qed.

Lemma parseStackLine_skipped (line : string) :
  parseStackLine line = None ↔ skipped line = true.
Proof.
  unfold parseStackLine, skipped. cbv zeta.
  destruct (String.eqb (trim line) "" || startsWith (trim line) "Error:"
            || String.eqb (trim line) "Error"); [done|].
  split; [|done]. intros H. repeat (destruct (try_format _ _ _); [done|]). done.
Qed.

Lemma omap_kept (lines : list string) :
  Some <$> omap parseStackLine lines
  = parseStackLine <$> List.filter (fun line => negb (skipped line)) lines.
Proof.
  induction lines as [|line lines IH]; [done|]. cbn [omap list_omap List.filter].
  destruct (parseStackLine line) as [f|] eqn:E.
  - destruct (skipped line) eqn:Hs; [apply parseStackLine_skipped in Hs; congruence|].
    cbn [negb]. rewrite !fmap_cons, E. by f_equal.
  - apply parseStackLine_skipped in E. by rewrite E.
Qed.

Lemma parseStackFrames_cases (e : Error) :
  (∃ text, stack e = Some text ∧ kept_lines text ≠ []
           ∧ parseStackFrames e = rev (omap parseStackLine (split newline text)))
  ∨ ((stack e = None ∨ ∃ text, stack e = Some text ∧ kept_lines text = [])
     ∧ parseStackFrames e = placeholder e).
Proof.
  unfold parseStackFrames. destruct (stack e) as [text|] eqn:Hst; [|right; by eauto].
  destruct text as [|c text]; [right; split; [right; by exists ""|done]|].
  cbn [truthy default from_option id]. cbv zeta. rewrite collect_app. cbn [app].
  pose proof (omap_kept (split newline (String c text))) as Hk.
  fold (kept_lines (String c text)) in Hk.
  destruct (omap parseStackLine (split newline (String c text))) as [|f fs] eqn:Ho.
  - right. split; [|done]. right. exists (String c text). split; [done|].
    by destruct (kept_lines (String c text)).
  - left. exists (String c text). split; [done|]. split; [|by rewrite Ho].
    destruct (kept_lines (String c text)); [discriminate Hk|done].
Qed.

Lemma parseStackFrames_nonempty (e : Error) : parseStackFrames e ≠ [].
Proof.
  destruct (parseStackFrames_cases e) as [(text & Hst & Hk & Hf)|[_ Hf]];
    rewrite Hf; [|done].
  intros Hnil. apply (f_equal (fmap (M := list) Some)) in Hnil.
  rewrite fmap_rev, omap_kept in Hnil. fold (kept_lines text) in Hnil.
  destruct (kept_lines text) as [|l ls]; [done|].
  rewrite fmap_cons in Hnil. simpl in Hnil.
  by destruct (rev (parseStackLine <$> ls)).
Qed.

(** X13. [parseStackFrames] never returns an empty sequence and loses no
    line: when some line of the trace is neither blank nor an [Error]
    summary line, the frames are the frames of those lines, one for each,
    in reverse order; with no such line, or no trace at all, the result is
    the single placeholder frame, named after the error and "Error" when
    the error has no name. *)
Theorem X13_parseStackFrames_keeps_every_line (e : Error) :
  parseStackFrames e ≠ []
  ∧ (∀ text, stack e = Some text → kept_lines text ≠ [] →
       Some <$> parseStackFrames e = parseStackLine <$> rev (kept_lines text))
  ∧ (stack e = None ∨ (∃ text, stack e = Some text ∧ kept_lines text = []) →
       parseStackFrames e
       = [ {| filename := Some "(no stack trace)"; lineno := None; colno := None;
              method := Some (if String.eqb (name e) "" then "Error" else name e) |} ]).
Proof.
  assert (Hph : placeholder e
    = [ {| filename := Some "(no stack trace)"; lineno := None; colno := None;
           method := Some (if String.eqb (name e) "" then "Error" else name e) |} ]).
  { unfold placeholder. by destruct (name e). }
  destruct (parseStackFrames_cases e) as [(text & Hst & Hk & Hf)|[Hno Hf]]; split_and!.
  - rewrite Hf. intros Hnil. apply (f_equal (fmap (M := list) Some)) in Hnil.
    rewrite fmap_rev, omap_kept in Hnil. fold (kept_lines text) in Hnil.
    destruct (kept_lines text) as [|l ls]; [done|].
    rewrite fmap_cons in Hnil. simpl in Hnil.
    by destruct (rev (parseStackLine <$> ls)).
  - intros text' Hst' _. rewrite Hst in Hst'. injection Hst' as <-.
    rewrite Hf, !fmap_rev. f_equal. apply omap_kept.
  - intros [Hnone|(text' & Hst' & Hk')]; [congruence|].
    rewrite Hst in Hst'. injection Hst' as <-. congruence.
  - by rewrite Hf, Hph.
  - intros text Hst Hk. destruct Hno as [Hnone|(text' & Hst' & Hk')]; [congruence|].
    rewrite Hst in Hst'. injection Hst' as <-. congruence.
  - intros _. by rewrite Hf.
Qed.

(** X14. [getErrorLocation] answers with the frame of the first line of
    the trace that is neither blank nor an [Error] summary line, provided
    that frame is not the "(unparsed)" one (nor names the file of the
    placeholder); in every other case, an error without a trace included,
    it answers [null]. *)
Theorem X14_getErrorLocation_reads_the_first_kept_line (e : Error) (f : StackFrame) :
  getErrorLocation e = Some f ↔
  ∃ text line rest,
    stack e = Some text ∧ kept_lines text = line :: rest
    ∧ parseStackLine line = Some f
    ∧ filename f ≠ Some "(no stack trace)" ∧ filename f ≠ Some "(unparsed)".
Proof.
  unfold getErrorLocation. cbv zeta.
  assert (Hlast : ∀ fs : list StackFrame, fs !! (length fs - 1)%nat = last fs).
  { intros fs. rewrite last_lookup. f_equal. lia. }
  rewrite Hlast.
  assert (Htest : ∀ g : StackFrame,
    (if bool_decide (filename g = Some "(no stack trace)")
        || bool_decide (filename g = Some "(unparsed)")
     then None else Some g) = Some f
    ↔ g = f ∧ filename f ≠ Some "(no stack trace)" ∧ filename f ≠ Some "(unparsed)").
  { intros g. do 2 case_bool_decide; simpl; split; try done.
    - intros [-> [? _]]. done.
    - intros [-> [? _]]. done.
    - intros [-> [_ ?]]. done.
    - by intros [= ->].
    - by intros [-> _]. }
  destruct (parseStackFrames_cases e) as [(text & Hst & Hk & Hf)|[Hno Hf]].
  - rewrite Hf, last_rev.
    pose proof (omap_kept (split newline text)) as Ho. fold (kept_lines text) in Ho.
    destruct (kept_lines text) as [|line rest] eqn:Hkept; [done|].
    destruct (omap parseStackLine (split newline text)) as [|g gs]; [done|].
    rewrite !fmap_cons in Ho. injection Ho as Hg _. cbn [head].
    rewrite Htest. split.
    + intros (-> & H1 & H2). by exists text, line, rest.
    + intros (text' & line' & rest' & Hst' & Hk' & Hp & H1 & H2).
      rewrite Hst in Hst'. injection Hst' as <-. rewrite Hkept in Hk'.
      injection Hk' as <- <-. split; [congruence|done].
  - rewrite Hf. unfold placeholder. cbn [last filename]. split; [done|].
    intros (text & line & rest & Hst & Hk & _).
    destruct Hno as [?|(text' & Hst' & Hk')]; [congruence|].
    rewrite Hst in Hst'. injection Hst' as <-. congruence.
Qed.

End FrameProperties.

(** ** The matcher *)

Section RegexFacts.
Import Js Regex StackParser Lines.
Implicit Types (p : ascii → bool) (s a : string) (g : ParsedGroups).

Lemma str_cons (c : ascii) a s : String c a +:+ s = String c (a +:+ s).
Proof. reflexivity. Qed.



Lemma str_assoc a b s : (a +:+ b) +:+ s = a +:+ (b +:+ s).
Proof. induction a as [|c a IH]; [done|]. by rewrite !str_cons, IH. Qed.

Lemma str_length a s : String.length (a +:+ s) = (String.length a + String.length s)%nat.
Proof. induction a as [|c a IH]; [done|]. rewrite str_cons. simpl. by rewrite IH. Qed.

Lemma str_app_inv_head a s1 s2 : a +:+ s1 = a +:+ s2 → s1 = s2.
Proof.
  induction a as [|c a IH]; [done|]. rewrite !str_cons. intros [= H]. by apply IH.
Qed.

Lemma all_chars_cons p (c : ascii) s : all_chars p (String c s) = p c && all_chars p s.
Proof. reflexivity. Qed.



Lemma consumed_app a s : consumed (a +:+ s) s = a.
Proof.
  unfold consumed. rewrite str_length.
  replace (String.length a + String.length s - String.length s)%nat
    with (String.length a) by lia.
  induction a as [|c a IH].
  - by destruct s.
  - change (String c (substring 0 (String.length a) (a +:+ s)) = String c a).
    by rewrite IH.
Qed.

(** *** Repetition *)

Lemma rep_sound p (greedy : bool) s (k : string → option ParsedGroups) g :
  rep p greedy s k = Some g →
  ∃ a s', s = a +:+ s' ∧ all_chars p a = true ∧ k s' = Some g.
Proof.
  induction s as [|c s IH]; simpl.
  - intros H. by exists "", "".
  - destruct (p c) eqn:Hc; [|intros H; by exists "", (String c s)].
    assert (Hrec : rep p greedy s k = Some g →
              ∃ a s', String c s = a +:+ s' ∧ all_chars p a = true ∧ k s' = Some g).
    { intros H. destruct (IH H) as (a & s' & -> & Ha & Hk).
      exists (String c a), s'. by rewrite all_chars_cons, Hc, Ha. }
    destruct greedy.
    + destruct (rep p true s k) eqn:E.
      * intros [= <-]. by apply Hrec.
      * intros H. by exists "", (String c s).
    + destruct (k (String c s)) eqn:E.
      * intros [= <-]. by exists "", (String c s).
      * done.
Qed.



Lemma rep_mono p (greedy : bool) s (k1 k2 : string → option ParsedGroups) :
  (∀ s', k1 s' ≠ None → k2 s' ≠ None) →
  rep p greedy s k1 ≠ None → rep p greedy s k2 ≠ None.
Proof.
  intros Hk. induction s as [|c s IH]; simpl; [by apply Hk|].
  destruct (p c); [|by apply Hk]. destruct greedy.
  - destruct (rep p true s k1) eqn:E1.
    + intros _. destruct (rep p true s k2) eqn:E2; [done|]. by destruct IH.
    + intros H. destruct (rep p true s k2); [done|]. by apply Hk.
  - destruct (k1 (String c s)) eqn:E1.
    + intros _. destruct (k2 (String c s)) eqn:E2; [done|].
      destruct (Hk (String c s)); [by rewrite E1|done].
    + intros H. destruct (k2 (String c s)); [done|]. by apply IH.
Qed.

(** *** One step of a pattern *)

Implicit Types (k : string → ParsedGroups → option ParsedGroups).

Lemma run_lit (w : string) s g k : run (lit w) (w +:+ s) g k = k s g.
Proof.
  induction w as [|c w IH]; [done|]. rewrite str_cons. destruct w as [|c' w].
  - cbn [lit run]. by rewrite Ascii.eqb_refl.
  - change (lit (String c (String c' w))) with (RSeq (RLit c) (lit (String c' w))).
    cbn [run]. by rewrite Ascii.eqb_refl.
Qed.


Lemma run_char_sound (c : ascii) s g k g' :
  run (RLit c) s g k = Some g' → ∃ s', s = String c s' ∧ k s' g = Some g'.
Proof.
  cbn [run]. destruct s as [|x s]; [done|].
  destruct (Ascii.eqb_spec c x) as [->|]; [|done]. by exists s.
Qed.


Lemma run_group_sound (n : group) p (greedy : bool) s g k g' :
  run (RGroup n (RPlus p greedy)) s g k = Some g' →
  ∃ x a s', s = String x (a +:+ s') ∧ p x = true ∧ all_chars p a = true
            ∧ k s' (set_group n (String x a) g) = Some g'.
Proof.
  cbn [run]. destruct s as [|x s]; [done|]. destruct (p x) eqn:Hx; [|done].
  intros H. apply rep_sound in H as (a & s' & -> & Ha & Hk).
  rewrite <- str_cons, consumed_app in Hk. by exists x, a, s'.
Qed.

Lemma run_end_sound s g k g' :
  run REnd s g k = Some g' → s = "" ∧ k "" g = Some g'.
Proof. cbn [run]. by destruct s. Qed.







Lemma run_opt_some (r : regex) s g k :
  k s g ≠ None → run (ROpt r) s g k ≠ None.
Proof. intros H. cbn [run]. by destruct (run r s g k). Qed.

(** *** Any pattern *)

(** A match hands the continuation a suffix of the input. *)
Lemma run_suffix (r : regex) s g k g' :
  run r s g k = Some g' → ∃ a s' g1, s = a +:+ s' ∧ k s' g1 = Some g'.
Proof.
  revert s g k. induction r as [| c | p | p | p gr | r1 IH1 r2 IH2 | r IH | n r IH | ];
    intros s g k; cbn [run].
  - intros H. by exists "", s, g.
  - destruct s as [|x s]; [done|]. destruct (Ascii.eqb c x); [|done].
    intros H. by exists (String x ""), s, g.
  - destruct s as [|x s]; [done|]. destruct (p x); [|done].
    intros H. by exists (String x ""), s, g.
  - intros H. apply rep_sound in H as (a & s' & -> & _ & Hk). by exists a, s', g.
  - destruct s as [|x s]; [done|]. destruct (p x); [|done].
    intros H. apply rep_sound in H as (a & s' & -> & _ & Hk).
    by exists (String x a), s', g.
  - intros H. apply IH1 in H as (a & s1 & g1 & -> & H).
    apply IH2 in H as (b & s2 & g2 & -> & H).
    exists (a +:+ b), s2, g2. by rewrite str_assoc.
  - destruct (run r s g k) eqn:E.
    + intros [= <-]. by apply IH in E.
    + intros H. by exists "", s, g.
  - intros H. apply IH in H as (a & s1 & g1 & -> & H). by eauto.
  - destruct s; [|done]. intros H. by exists "", "", g.
Qed.

(** Whether a match is found does not depend on the groups, and a
    continuation that accepts more finds more. *)
Lemma run_mono (r : regex) s g1 g2 k1 k2 :
  (∀ s' h1 h2, k1 s' h1 ≠ None → k2 s' h2 ≠ None) →
  run r s g1 k1 ≠ None → run r s g2 k2 ≠ None.
Proof.
  revert s g1 g2 k1 k2.
  induction r as [| c | p | p | p gr | r1 IH1 r2 IH2 | r IH | n r IH | ];
    intros s g1 g2 k1 k2 Hk; cbn [run].
  - by apply Hk.
  - destruct s as [|x s]; [done|]. destruct (Ascii.eqb c x); [|done]. by apply Hk.
  - destruct s as [|x s]; [done|]. destruct (p x); [|done]. by apply Hk.
  - apply rep_mono. intros s'. by apply Hk.
  - destruct s as [|x s]; [done|]. destruct (p x); [|done].
    apply rep_mono. intros s'. by apply Hk.
  - apply IH1. intros s' h1 h2. by apply IH2.
  - destruct (run r s g1 k1) eqn:E1.
    + intros _. destruct (run r s g2 k2) eqn:E2; [done|].
      destruct (IH s g1 g2 k1 k2 Hk); [by rewrite E1|done].
    + intros H. destruct (run r s g2 k2); [done|]. by eapply Hk.
  - apply IH. intros s' h1 h2. by apply Hk.
  - destruct s; [|done]. by apply Hk.
Qed.

(** *** The end of the three patterns *)

Lemma run_seq (r1 r2 : regex) s g k :
  run (RSeq r1 r2) s g k = run r1 s g (fun s' g' => run r2 s' g' k).
Proof. reflexivity. Qed.


Lemma run_opt_sound (r : regex) s g k g' :
  run (ROpt r) s g k = Some g' → run r s g k = Some g' ∨ k s g = Some g'.
Proof. cbn [run]. destruct (run r s g k); [intros [= <-]; by left|by right]. Qed.



Lemma digits_head (c : ascii) s :
  is_digit c = false → head_in is_digit (String c s) = false.
Proof. done. Qed.

(** What the numbers of a location look like. *)
Lemma numbers_sound (close : bool) s g k g' :
  run (numbers_tail close) s g k = Some g' →
  ∃ l c cl,
    s = ":" +:+ l +:+ ":" +:+ c +:+ cl
    ∧ l ≠ "" ∧ all_chars is_digit l = true
    ∧ c ≠ "" ∧ all_chars is_digit c = true
    ∧ (cl = "" ∨ (close = true ∧ cl = ")"))
    ∧ k "" (set_group Gcolno c (set_group Glineno l g)) = Some g'.
Proof.
  intros H. unfold numbers_tail in H.
  assert (Hstart : ∃ x1 a1 x2 a2 s4,
    s = String ":" (String x1 (a1 +:+ String ":" (String x2 (a2 +:+ s4))))
    ∧ all_chars is_digit (String x1 a1) = true
    ∧ all_chars is_digit (String x2 a2) = true
    ∧ (if close
       then run (RSeq (ROpt (RLit ")")) REnd) s4
                (set_group Gcolno (String x2 a2) (set_group Glineno (String x1 a1) g)) k
       else run REnd s4
                (set_group Gcolno (String x2 a2) (set_group Glineno (String x1 a1) g)) k)
      = Some g').
  { destruct close; cbn [seq] in H;
      rewrite run_seq in H; apply run_char_sound in H as (s1 & -> & H1); cbv beta in H1;
      rewrite run_seq in H1;
      apply run_group_sound in H1 as (x1 & a1 & s2 & -> & Hx1 & Ha1 & H2);
      cbv beta in H2;
      rewrite run_seq in H2; apply run_char_sound in H2 as (s3 & -> & H3);
      cbv beta in H3; rewrite ?run_seq in H3;
      apply run_group_sound in H3 as (x2 & a2 & s4 & -> & Hx2 & Ha2 & H4);
      cbv beta in H4;
      exists x1, a1, x2, a2, s4; rewrite !all_chars_cons, Hx1, Ha1, Hx2, Ha2;
      split_and!; done. }
  clear H. destruct Hstart as (x1 & a1 & x2 & a2 & s4 & -> & Hl & Hc & H).
  exists (String x1 a1), (String x2 a2), s4. split; [reflexivity|].
  split; [done|]. split; [done|]. split; [done|]. split; [done|].
  destruct close.
  - rewrite run_seq in H. apply run_opt_sound in H as [H1|H1].
    + apply run_char_sound in H1 as (s5 & -> & H2). cbv beta in H2.
      apply run_end_sound in H2 as [-> H3]. split; [by right|done].
    + apply run_end_sound in H1 as [-> H2]. split; [by left|done].
  - apply run_end_sound in H as [-> H1]. split; [by left|done].
Qed.



(** The same from the file name on. *)
Lemma location_sound (close : bool) s g k g' :
  run (location_tail close) s g k = Some g' →
  ∃ fn l c cl,
    s = fn +:+ ":" +:+ l +:+ ":" +:+ c +:+ cl
    ∧ fn ≠ "" ∧ all_chars is_dot fn = true
    ∧ l ≠ "" ∧ all_chars is_digit l = true
    ∧ c ≠ "" ∧ all_chars is_digit c = true
    ∧ (cl = "" ∨ (close = true ∧ cl = ")"))
    ∧ k "" (set_group Gcolno c (set_group Glineno l (set_group Gfilename fn g)))
      = Some g'.
Proof.
  unfold location_tail. rewrite run_seq. intros H.
  apply run_group_sound in H as (x & a & s1 & -> & Hx & Ha & H1). cbv beta in H1.
  apply numbers_sound in H1 as (l & c & cl & -> & Hl & Hdl & Hc & Hdc & Hcl & H2).
  exists (String x a), l, c, cl. rewrite all_chars_cons, Hx, Ha. split_and!; done.
Qed.


End RegexFacts.

(** ** The three formats of a frame *)

Section FormatFacts.
Import Js Regex StackParser Lines Examples.
Implicit Types (p : ascii → bool) (s a : string) (g : ParsedGroups).

Lemma V8_FRAME_shape :
  V8_FRAME_REGEX
  = RSeq (RStar is_space) (RSeq (lit "at") (RSeq (RPlus is_space true)
      (RSeq (ROpt (RSeq (lit "async") (RPlus is_space true)))
         (RSeq (ROpt (RSeq (RGroup Gmethod (RPlus is_method_char true))
                           (RSeq (RPlus is_space true) (RLit "("))))
               (location_tail true))))).
Proof. reflexivity. Qed.

Lemma V8_ANONYMOUS_shape :
  V8_ANONYMOUS_REGEX
  = RSeq (RStar is_space) (RSeq (lit "at") (RSeq (RPlus is_space true)
      (location_tail false))).
Proof. reflexivity. Qed.

Lemma FIREFOX_shape :
  FIREFOX_REGEX
  = RSeq (ROpt (RGroup Gmethod (RPlus is_method_char true)))
         (RSeq (RLit "@") (location_tail false)).
Proof. reflexivity. Qed.

(** Every match of one of the three patterns ends in a location. *)
Lemma exec_located (r : regex) (t : string) (groups : ParsedGroups) :
  r = V8_FRAME_REGEX ∨ r = V8_ANONYMOUS_REGEX ∨ r = FIREFOX_REGEX →
  exec r t = Some groups →
  ∃ pre fn l c cl,
    t = pre +:+ fn +:+ ":" +:+ l +:+ ":" +:+ c +:+ cl
    ∧ (cl = "" ∨ cl = ")")
    ∧ fn ≠ "" ∧ all_chars is_dot fn = true
    ∧ l ≠ "" ∧ all_chars is_digit l = true
    ∧ c ≠ "" ∧ all_chars is_digit c = true
    ∧ g_filename groups = Some fn ∧ g_lineno groups = Some l
    ∧ g_colno groups = Some c.
Proof.
  assert (Hend : ∀ close s g pre,
    t = pre +:+ s →
    run (location_tail close) s g (fun _ g => Some g) = Some groups →
    ∃ pre fn l c cl,
      t = pre +:+ fn +:+ ":" +:+ l +:+ ":" +:+ c +:+ cl
      ∧ (cl = "" ∨ cl = ")")
      ∧ fn ≠ "" ∧ all_chars is_dot fn = true
      ∧ l ≠ "" ∧ all_chars is_digit l = true
      ∧ c ≠ "" ∧ all_chars is_digit c = true
      ∧ g_filename groups = Some fn ∧ g_lineno groups = Some l
      ∧ g_colno groups = Some c).
  { intros close s g pre -> H.
    apply location_sound in H
      as (fn & l & c & cl & -> & Hfn & Hdfn & Hl & Hdl & Hc & Hdc & Hcl & Hk).
    injection Hk as <-. exists pre, fn, l, c, cl. split_and!; try done.
    destruct Hcl as [?|[_ ?]]; [by left|by right]. }
  unfold exec. intros [-> | [-> | ->]] H.
  - rewrite V8_FRAME_shape in H.
    rewrite run_seq in H. apply run_suffix in H as (a1 & s1 & g1 & -> & H1).
    rewrite run_seq in H1. apply run_suffix in H1 as (a2 & s2 & g2 & -> & H2).
    rewrite run_seq in H2. apply run_suffix in H2 as (a3 & s3 & g3 & -> & H3).
    rewrite run_seq in H3. apply run_suffix in H3 as (a4 & s4 & g4 & -> & H4).
    rewrite run_seq in H4. apply run_suffix in H4 as (a5 & s5 & g5 & -> & H5).
    apply (Hend true s5 g5 (a1 +:+ a2 +:+ a3 +:+ a4 +:+ a5)); [|done].
    by rewrite !str_assoc.
  - rewrite V8_ANONYMOUS_shape in H.
    rewrite run_seq in H. apply run_suffix in H as (a1 & s1 & g1 & -> & H1).
    rewrite run_seq in H1. apply run_suffix in H1 as (a2 & s2 & g2 & -> & H2).
    rewrite run_seq in H2. apply run_suffix in H2 as (a3 & s3 & g3 & -> & H3).
    apply (Hend false s3 g3 (a1 +:+ a2 +:+ a3)); [|done].
    by rewrite !str_assoc.
  - rewrite FIREFOX_shape in H.
    rewrite run_seq in H. apply run_suffix in H as (a1 & s1 & g1 & -> & H1).
    rewrite run_seq in H1. apply run_suffix in H1 as (a2 & s2 & g2 & -> & H2).
    apply (Hend false s2 g2 (a1 +:+ a2)); [|done].
    by rewrite !str_assoc.
Qed.

(** A match of one of the three patterns always passes the guard on the
    groups, and gives a frame with all four fields. *)
Lemma try_format_located (r : regex) (anon : bool) (t : string) :
  r = V8_FRAME_REGEX ∨ r = V8_ANONYMOUS_REGEX ∨ r = FIREFOX_REGEX →
  (exec r t = None → try_format r anon t = None)
  ∧ (∀ groups, exec r t = Some groups →
       ∃ pre fn l c cl m,
         t = pre +:+ fn +:+ ":" +:+ l +:+ ":" +:+ c +:+ cl
         ∧ (cl = "" ∨ cl = ")")
         ∧ fn ≠ "" ∧ all_chars is_dot fn = true
         ∧ l ≠ "" ∧ all_chars is_digit l = true
         ∧ c ≠ "" ∧ all_chars is_digit c = true
         ∧ m ≠ ""
         ∧ (anon = true → m = "(anonymous)")
         ∧ (anon = false → m = or_else (g_method groups) "(anonymous)")
         ∧ try_format r anon t
           = Some {| filename := Some fn; lineno := Some (parseInt l);
                     colno := Some (parseInt c); method := Some m |}).
Proof.
  intros Hr. unfold try_format. split; [by intros ->|].
  intros groups Hex. rewrite Hex. cbn [mbind option_bind].
  destruct (exec_located r t groups Hr Hex)
    as (pre & fn & l & c & cl & Ht & Hcl & Hfn & Hdfn & Hl & Hdl & Hc & Hdc
        & Hgf & Hgl & Hgc).
  exists pre, fn, l, c, cl,
    (if anon then "(anonymous)" else or_else (g_method groups) "(anonymous)").
  unfold frame_of_groups. rewrite Hgf, Hgl, Hgc.
  destruct fn as [|? ?]; [done|]. destruct l as [|? ?]; [done|].
  destruct c as [|? ?]; [done|]. cbn [truthy andb fmap option_fmap option_map].
  split_and!; try done.
  - destruct anon; [done|]. by destruct (g_method groups) as [[|? ?]|].
  - by intros ->.
  - by intros ->.
Qed.

Lemma try_format_Some (r : regex) (anon : bool) (t : string) (f : StackFrame) :
  r = V8_FRAME_REGEX ∨ r = V8_ANONYMOUS_REGEX ∨ r = FIREFOX_REGEX →
  try_format r anon t = Some f →
  ∃ pre fn l c cl m,
    t = pre +:+ fn +:+ ":" +:+ l +:+ ":" +:+ c +:+ cl
    ∧ (cl = "" ∨ cl = ")")
    ∧ fn ≠ "" ∧ l ≠ "" ∧ all_chars is_digit l = true
    ∧ c ≠ "" ∧ all_chars is_digit c = true ∧ m ≠ ""
    ∧ f = {| filename := Some fn; lineno := Some (parseInt l);
             colno := Some (parseInt c); method := Some m |}.
Proof.
  intros Hr Hf. destruct (try_format_located r anon t Hr) as [Hnone Hsome].
  destruct (exec r t) as [groups|] eqn:Hex; [|by rewrite Hnone in Hf].
  destruct (Hsome groups eq_refl)
    as (pre & fn & l & c & cl & m & Ht & Hcl & Hfn & _ & Hl & Hdl & Hc & Hdc & Hm
        & _ & _ & Heq).
  rewrite Heq in Hf. injection Hf as <-. exists pre, fn, l, c, cl, m. done.
Qed.

Ltac descend :=
  rewrite !run_seq; apply run_mono; intros ? ? ?; cbv beta.

(** Whatever the second pattern matches, the first matches too. *)
Lemma anonymous_included (t : string) :
  exec V8_ANONYMOUS_REGEX t ≠ None → exec V8_FRAME_REGEX t ≠ None.
Proof.
  unfold exec. rewrite V8_FRAME_shape, V8_ANONYMOUS_shape.
  descend. descend. descend.
  rewrite (run_seq (ROpt _)). intros H. apply run_opt_some. cbv beta.
  rewrite (run_seq (ROpt _)). apply run_opt_some. cbv beta.
  revert H. unfold location_tail. descend.
  unfold numbers_tail. cbn [seq]. descend. descend. descend. descend.
  rewrite (run_seq (ROpt _)). intros H. apply run_opt_some. cbv beta.
  revert H. apply run_mono. done.
Qed.

Lemma anonymous_never_decides (t : string) :
  try_format V8_FRAME_REGEX false t = None →
  try_format V8_ANONYMOUS_REGEX true t = None.
Proof.
  intros H.
  destruct (try_format_located V8_FRAME_REGEX false t) as [_ Hsome]; [by left|].
  destruct (try_format_located V8_ANONYMOUS_REGEX true t) as [Hnone _];
    [right; by left|].
  apply Hnone. destruct (exec V8_ANONYMOUS_REGEX t) eqn:Ha; [exfalso|done].
  destruct (exec V8_FRAME_REGEX t) as [groups|] eqn:Hv.
  - destruct (Hsome groups eq_refl) as (? & ? & ? & ? & ? & ? & Heq).
    destruct Heq as (_ & _ & _ & _ & _ & _ & _ & _ & _ & _ & _ & Heq). congruence.
  - apply (anonymous_included t); [by rewrite Ha|done].
Qed.

(** X15. A frame of [parseStackLine] is either the "(unparsed)" frame,
    which carries the trimmed line as its method, or a frame read off the
    end of the trimmed line: the line ends in [filename:lineno:colno], or
    in the same and a closing parenthesis, with two runs of digits; the
    frame has that file name and a method that is never empty, and its
    line and its column are the values of the two runs whenever these are
    below 2^53 (above, [parseInt] rounds to a double). *)
Theorem X15_located_frames_end_in_line_and_column
    (line : string) (f : StackFrame)
    (Hf : parseStackLine line = Some f) :
  f = {| filename := Some "(unparsed)"; lineno := None; colno := None;
         method := Some (trim line) |}
  ∨ ∃ pre fn l c cl m,
      trim line = pre +:+ fn +:+ ":" +:+ l +:+ ":" +:+ c +:+ cl
      ∧ (cl = "" ∨ cl = ")")
      ∧ fn ≠ "" ∧ l ≠ "" ∧ all_chars is_digit l = true
      ∧ c ≠ "" ∧ all_chars is_digit c = true ∧ m ≠ ""
      ∧ filename f = Some fn ∧ method f = Some m
      ∧ ((decimal l < 2 ^ 53)%N → lineno f = Some (decimal l))
      ∧ ((decimal c < 2 ^ 53)%N → colno f = Some (decimal c)).
Proof.
  assert (Hloc : ∀ r anon f0,
    r = V8_FRAME_REGEX ∨ r = V8_ANONYMOUS_REGEX ∨ r = FIREFOX_REGEX →
    try_format r anon (trim line) = Some f0 →
    ∃ pre fn l c cl m,
      trim line = pre +:+ fn +:+ ":" +:+ l +:+ ":" +:+ c +:+ cl
      ∧ (cl = "" ∨ cl = ")")
      ∧ fn ≠ "" ∧ l ≠ "" ∧ all_chars is_digit l = true
      ∧ c ≠ "" ∧ all_chars is_digit c = true ∧ m ≠ ""
      ∧ filename f0 = Some fn ∧ method f0 = Some m
      ∧ ((decimal l < 2 ^ 53)%N → lineno f0 = Some (decimal l))
      ∧ ((decimal c < 2 ^ 53)%N → colno f0 = Some (decimal c))).
  { intros r anon f0 Hr Hf0.
    destruct (try_format_Some r anon (trim line) f0 Hr Hf0)
      as (pre & fn & l & c & cl & m & Ht & Hcl & Hfn & Hl & Hdl & Hc & Hdc & Hm & ->).
    exists pre, fn, l, c, cl, m. cbn [filename method lineno colno].
    split_and!; try done.
    - intros Hb. by rewrite parseInt_exact.
    - intros Hb. by rewrite parseInt_exact. }
  unfold parseStackLine in Hf. cbv zeta in Hf.
  destruct (String.eqb (trim line) "" || startsWith (trim line) "Error:"
            || String.eqb (trim line) "Error"); [done|].
  destruct (try_format V8_FRAME_REGEX false (trim line)) as [f1|] eqn:E1.
  { injection Hf as <-. right. eapply Hloc; [|done]. by left. }
  destruct (try_format V8_ANONYMOUS_REGEX true (trim line)) as [f2|] eqn:E2.
  { injection Hf as <-. right. eapply Hloc; [|done]. right; by left. }
  destruct (try_format FIREFOX_REGEX false (trim line)) as [f3|] eqn:E3.
  { injection Hf as <-. right. eapply Hloc; [|done]. right; by right. }
  injection Hf as <-. by left.
Qed.

Lemma X15_witness :
  {| filename := Some "file:///path/to/file.js"; lineno := Some 10%N;
     colno := Some 15%N; method := Some "functionName" |}
  = {| filename := Some "(unparsed)"; lineno := None; colno := None;
       method := Some (trim "    at functionName (file:///path/to/file.js:10:15)") |}
  ∨ ∃ pre fn l c cl m,
      trim "    at functionName (file:///path/to/file.js:10:15)"
      = pre +:+ fn +:+ ":" +:+ l +:+ ":" +:+ c +:+ cl
      ∧ (cl = "" ∨ cl = ")")
      ∧ fn ≠ "" ∧ l ≠ "" ∧ all_chars is_digit l = true
      ∧ c ≠ "" ∧ all_chars is_digit c = true ∧ m ≠ ""
      ∧ Some "file:///path/to/file.js" = Some fn ∧ Some "functionName" = Some m
      ∧ ((decimal l < 2 ^ 53)%N → Some 10%N = Some (decimal l))
      ∧ ((decimal c < 2 ^ 53)%N → Some 15%N = Some (decimal c)).
Proof.
  apply (X15_located_frames_end_in_line_and_column
           "    at functionName (file:///path/to/file.js:10:15)"
           {| filename := Some "file:///path/to/file.js"; lineno := Some 10%N;
              colno := Some 15%N; method := Some "functionName" |}).
  vm_compute. reflexivity.
Defined.

(** X16. The second pattern, for anonymous V8 frames, never decides a
    line: whenever the first pattern gives no frame the second gives none
    either, so [parseStackLine] is the first pattern, then the Firefox
    pattern, then the "(unparsed)" frame. *)
Theorem X16_anonymous_pattern_never_decides (line : string) :
  (try_format V8_FRAME_REGEX false (trim line) = None →
   try_format V8_ANONYMOUS_REGEX true (trim line) = None)
  ∧ parseStackLine line
    = if skipped line then None
      else match try_format V8_FRAME_REGEX false (trim line) with
           | Some f => Some f
           | None =>
               match try_format FIREFOX_REGEX false (trim line) with
               | Some f => Some f
               | None => Some {| filename := Some "(unparsed)"; lineno := None;
                                 colno := None; method := Some (trim line) |}
               end
           end.
Proof.
  split; [apply anonymous_never_decides|].
  unfold parseStackLine, skipped. cbv zeta.
  destruct (String.eqb (trim line) "" || startsWith (trim line) "Error:"
            || String.eqb (trim line) "Error"); [done|].
  destruct (try_format V8_FRAME_REGEX false (trim line)) eqn:E1; [done|].
  by rewrite (anonymous_never_decides _ E1).
Qed.

End FormatFacts.

(** ** Lines in the three formats *)

Section RoundTrips.
Import Js Regex StackParser Lines Examples.
Implicit Types (p : ascii → bool) (s a : string) (g : ParsedGroups).
Implicit Types (k : string → ParsedGroups → option ParsedGroups).

Ltac by_cases_on c :=
  destruct c as [[] [] [] [] [] [] [] []]; vm_compute; done.


Lemma method_char_not_at (c : ascii) : is_method_char c = true → Ascii.eqb c "@" = false.
Proof. by_cases_on c. Qed.







(** *** Trimming *)








(** *** The optional parts of the first pattern *)




(** *** What the patterns capture *)









(** *** Whole lines *)











End RoundTrips.

(** ** The first client *)

Section LegacyProperties.
Import Js Scrub StackParser Client Trace Examples Samples.

Ltac run_legacy :=
  unfold requests, Legacy.error, Legacy.message, lift, emit, throw,
    mbind, M_bind, mret, M_ret;
  simpl.

Lemma bind_lift_inr {A B : Type} (a : A) (f : A → M B) :
  (lift (inr a) ≫= f) = f a.
Proof. unfold lift, mbind, M_bind, mret, M_ret. by destruct (f a). Qed.

Lemma legacy_post (this : Legacy.Rollbar) (env : Legacy.Env) (p : Legacy.Payload)
    (m : M (option HttpResponse)) :
  Legacy.access_token p = default "" (Legacy.token this) →
  Legacy.p_environment p = Legacy.environment this →
  m = (content ← lift (Legacy.stringify env p);
       emit (Fetch Legacy.rollbarUrl content);;
       response ← lift (Legacy.fetch env Legacy.rollbarUrl content);
       mret (Some response)) →
  m.2 ≠ Return None
  ∧ (∀ to content, Fetch to content ∈ m.1 →
       to = Legacy.rollbarUrl
       ∧ requests m = [Fetch Legacy.rollbarUrl content]
       ∧ (∃ p, Legacy.stringify env p = inr content
               ∧ Legacy.access_token p = default "" (Legacy.token this)
               ∧ Legacy.p_environment p = Legacy.environment this)
       ∧ m.2 = match Legacy.fetch env Legacy.rollbarUrl content with
               | inl x => Throw x
               | inr response => Return (Some response)
               end)
  ∧ (∀ response, m.2 = Return (Some response) →
       ∃ content, Fetch Legacy.rollbarUrl content ∈ m.1
                  ∧ Legacy.fetch env Legacy.rollbarUrl content = inr response).
Proof.
  intros Htok Henv ->. run_legacy.
  destruct (Legacy.stringify env p) as [x|content] eqn:Hs; simpl.
  { split_and!; [done| |done]. intros ? ? Hin. by apply elem_of_nil in Hin. }
  destruct (Legacy.fetch env Legacy.rollbarUrl content) as [x|response] eqn:Hf; simpl.
  - split_and!; [done| |done].
    intros to c Hin. apply list_elem_of_singleton in Hin. injection Hin as -> ->.
    rewrite Hf. split_and!; try done. by exists p.
  - split_and!; [done| |].
    + intros to c Hin. apply list_elem_of_singleton in Hin. injection Hin as -> ->.
      rewrite Hf. split_and!; try done. by exists p.
    + intros r [= <-]. exists content. split; [by apply list_elem_of_singleton|done].
Qed.

(** X20. A call of the first client, [error] or [message], does nothing
    and answers [undefined] when the client has no token; otherwise it posts
    at most once, to the collector, a payload with the token and the
    environment of the client, answers with the response of that post, and
    lets every failure through: an exception of the network ends the call
    as it is, nothing is caught. *)
Theorem X20_first_client_posts_once_and_hides_no_failure
    (this : Legacy.Rollbar) (env : Legacy.Env) (e : Error)
    (description : option string) (msg : string) (attributes : option obj)
    (m : M (option HttpResponse))
    (Hm : m = Legacy.error this env e description
          ∨ m = Legacy.message this env msg attributes) :
  (truthy (Legacy.token this) = false → m = ([], Return None))
  ∧ (m.2 = Return None → truthy (Legacy.token this) = false)
  ∧ (∀ to content, Fetch to content ∈ m.1 →
       to = Legacy.rollbarUrl
       ∧ requests m = [Fetch Legacy.rollbarUrl content]
       ∧ (∃ p, Legacy.stringify env p = inr content
               ∧ Legacy.access_token p = default "" (Legacy.token this)
               ∧ Legacy.p_environment p = Legacy.environment this)
       ∧ m.2 = match Legacy.fetch env Legacy.rollbarUrl content with
               | inl x => Throw x
               | inr response => Return (Some response)
               end)
  ∧ (∀ response, m.2 = Return (Some response) →
       ∃ content, Fetch Legacy.rollbarUrl content ∈ m.1
                  ∧ Legacy.fetch env Legacy.rollbarUrl content = inr response).
Proof.
  assert (Hoff : ∀ m0 : M (option HttpResponse), m0 = ([], Return None) →
    (∀ to content, Fetch to content ∈ m0.1 →
       to = Legacy.rollbarUrl
       ∧ requests m0 = [Fetch Legacy.rollbarUrl content]
       ∧ (∃ p, Legacy.stringify env p = inr content
               ∧ Legacy.access_token p = default "" (Legacy.token this)
               ∧ Legacy.p_environment p = Legacy.environment this)
       ∧ m0.2 = match Legacy.fetch env Legacy.rollbarUrl content with
                | inl x => Throw x
                | inr response => Return (Some response)
                end)
    ∧ (∀ response, m0.2 = Return (Some response) →
       ∃ content, Fetch Legacy.rollbarUrl content ∈ m0.1
                  ∧ Legacy.fetch env Legacy.rollbarUrl content = inr response)).
  { intros m0 ->. split; [|done]. intros ? ? Hin. by apply elem_of_nil in Hin. }
  destruct Hm as [-> | ->].
  - unfold Legacy.error. destruct (truthy (Legacy.token this)) eqn:Htok; cbn [negb].
    + destruct (Legacy.parse env e) as [x|stack] eqn:Hp.
      * split_and!; try done. intros ? ? Hin. by apply elem_of_nil in Hin.
      * rewrite bind_lift_inr.
        match goal with
        | |- context [lift (Legacy.stringify env ?p)] =>
            destruct (legacy_post this env p
                        (content ← lift (Legacy.stringify env p);
                         emit (Fetch Legacy.rollbarUrl content);;
                         response ← lift (Legacy.fetch env Legacy.rollbarUrl content);
                         mret (Some response)) eq_refl eq_refl eq_refl)
              as (Hnot & Hposts & Hret)
        end.
        split_and!; done.
    + destruct (Hoff (mret None) eq_refl) as [H1 H2]. split_and!; done.
  - unfold Legacy.message. destruct (truthy (Legacy.token this)) eqn:Htok; cbn [negb].
    + cbv zeta.
      match goal with
      | |- context [lift (Legacy.stringify env ?p)] =>
          destruct (legacy_post this env p
                      (content ← lift (Legacy.stringify env p);
                       emit (Fetch Legacy.rollbarUrl content);;
                       response ← lift (Legacy.fetch env Legacy.rollbarUrl content);
                       mret (Some response)) eq_refl eq_refl eq_refl)
            as (Hnot & Hposts & Hret)
      end.
      split_and!; done.
    + destruct (Hoff (mret None) eq_refl) as [H1 H2]. split_and!; done.
Qed.

Lemma X20_witness :
  requests (Legacy.message LegacySamples.worker_client LegacySamples.accepting
              "Test Message" None)
  = [Fetch Legacy.rollbarUrl "{...}"]
  ∧ (Legacy.message LegacySamples.worker_client LegacySamples.accepting
       "Test Message" None).2
    = Return (Some LegacySamples.accepted).
Proof.
  destruct (X20_first_client_posts_once_and_hides_no_failure
              LegacySamples.worker_client LegacySamples.accepting
              example_error None "Test Message" None _ (or_intror eq_refl))
    as (_ & _ & Hposts & _).
  destruct (Hposts Legacy.rollbarUrl "{...}") as (_ & Hone & _ & Hend).
  - vm_compute. apply list_elem_of_here.
  - split; [exact Hone|exact Hend].
Defined.

(** X21. What the first client posts for a message carries the token and
    the environment given to the constructor, "production" when none was
    given, and the attributes of the call as they are: nothing is
    scrubbed, whatever the key, and an attribute [body] takes the place of
    the text of the message. *)
Theorem X21_first_client_sends_attributes_as_given
    (tok environment_ : option string) (env : Legacy.Env) (msg : string)
    (attributes : obj) (to content : string)
    (Hkeys : NoDup attributes.*1)
    (Hpost : Fetch to content
             ∈ (Legacy.message (Legacy.constructor tok environment_) env msg
                  (Some attributes)).1) :
  ∃ fields,
    Legacy.stringify env
      {| Legacy.access_token := default "" tok;
         Legacy.p_environment := Some (default "production" environment_);
         Legacy.p_body := Legacy.Message fields |}
    = inr content
    ∧ default "" tok ≠ ""
    ∧ (∀ key v, get_key key attributes = Some v → get_key key fields = Some v)
    ∧ (get_key "body" attributes = None →
       get_key "body" fields = Some (VPrim (PStr msg))).
Proof.
  unfold Legacy.constructor in Hpost.
  destruct tok as [[|a tok]|]; cbn [truthy negb] in Hpost;
    try (unfold Legacy.message in Hpost; cbn [Legacy.token truthy negb] in Hpost;
         by apply elem_of_nil in Hpost).
  unfold Legacy.message in Hpost.
  cbn [Legacy.token Legacy.environment truthy negb default from_option id] in Hpost.
  cbv zeta in Hpost.
  exists (spread [("body", VPrim (PStr msg))] attributes).
  cbn [default from_option id].
  destruct (Legacy.stringify env
              {| Legacy.access_token := String a tok;
                 Legacy.p_environment := Some (default "production" environment_);
                 Legacy.p_body :=
                   Legacy.Message (spread [("body", VPrim (PStr msg))] attributes) |})
    as [x|content0] eqn:Hs.
  { by apply elem_of_nil in Hpost. }
  rewrite bind_lift_inr in Hpost.
  assert (Hc : content = content0).
  { revert Hpost. unfold emit, lift, throw, mbind, M_bind, mret, M_ret.
    destruct (Legacy.fetch env Legacy.rollbarUrl content0); simpl;
      intros Hin; apply list_elem_of_singleton in Hin; by injection Hin. }
  subst content0. split_and!; try done.
  - intros key v Hk. by rewrite get_key_spread, Hk.
  - intros Hk. by rewrite get_key_spread, Hk.
Qed.

Lemma X21_witness :
  ∃ fields,
    Legacy.stringify LegacySamples.accepting
      {| Legacy.access_token := "test-token";
         Legacy.p_environment := Some "production";
         Legacy.p_body := Legacy.Message fields |}
    = inr "{...}"
    ∧ get_key "password" fields = Some (VPrim (PStr "hunter2")).
Proof.
  assert (Hkeys : NoDup ["password"; "user"])
    by (apply (bool_decide_unpack (NoDup ["password"; "user"])); vm_compute; exact I).
  destruct (X21_first_client_sends_attributes_as_given (Some "test-token")
              (Some "production") LegacySamples.accepting "Test Message"
              LegacySamples.login_attributes Legacy.rollbarUrl "{...}" Hkeys)
    as (fields & Hs & _ & Hattrs & _).
  - vm_compute. apply list_elem_of_here.
  - exists fields. split; [exact Hs|]. by apply Hattrs.
Defined.

End LegacyProperties.

(** ** Error reports *)

Section ReportProperties.
Import Js Scrub StackParser Client Trace Examples Samples.

(** X22. An error report sends the payload of [buildPayload], at the level
    asked for, with a trace for body: the class and the message of the
    error and the frames of [parseStackFrames], of which there is always at
    least one.  Whatever it posts is that payload, serialised, posted to
    the collector. *)
Theorem X22_error_reports_carry_a_trace
    (this : Rollbar) (env : Env) (h : gmap loc obj)
    (errors : gmap loc StackParser.Error) (level : LogLevel) (l : loc)
    (ctx : option ReportContext) (m : M (option RollbarResponse))
    (Hm : reportError this env h errors level l ctx = Some m) :
  ∃ e pl,
    errors !! l = Some e
    ∧ buildPayload this h (now env) level ctx = Some pl
    ∧ d_level pl = level
    ∧ parseStackFrames e ≠ []
    ∧ m = send this env
            (with_body pl (BodyTrace (parseStackFrames e) (name e)
                                     (StackParser.message e)))
    ∧ ∀ to content, Fetch to content ∈ m.1 →
        to = ROLLBAR_API_URL
        ∧ stringify env None
            (with_body pl (BodyTrace (parseStackFrames e) (name e)
                                     (StackParser.message e)))
          = inr content.
Proof.
  unfold reportError in Hm.
  apply bind_Some in Hm as (e & He & Hm).
  apply bind_Some in Hm as (pl & Hpl & Hm). injection Hm as <-.
  exists e, pl. split_and!; try done.
  - by apply buildPayload_inv in Hpl as (? & _ & _ & _ & _ & _ & ? & _).
  - apply parseStackFrames_nonempty.
  - intros to content Hin. by apply send_fetches in Hin.
Qed.

Lemma X22_witness :
  ∃ pl,
    buildPayload test_client ∅ (now accepting_env) LCritical None = Some pl
    ∧ critical test_client accepting_env ∅ rethrow_me 1%positive None
      = Some (send test_client accepting_env
                (with_body pl
                   (BodyTrace
                      [ {| filename := Some "(no stack trace)"; lineno := None;
                           colno := None; method := Some "Error" |} ]
                      "Error" "Rethrow me"))).
Proof.
  unfold critical.
  destruct (reportError test_client accepting_env ∅ rethrow_me LCritical 1%positive
              None) as [m|] eqn:Hm; [|vm_compute in Hm; discriminate Hm].
  destruct (X22_error_reports_carry_a_trace _ _ _ _ _ _ _ _ Hm)
    as (e & pl & He & Hpl & _ & _ & -> & _).
  exists pl. split; [done|].
  vm_compute in He. injection He as <-. reflexivity.
Defined.

End ReportProperties.
